(** * Cloze Anything: the marker scanner and the field reconciler

    A shallow embedding of [cloze_anything/__init__.py].

    Python strings are modelled by [string]; a character is a code point
    below 256.  On that range [\d] is exactly [0-9], [.] is everything but
    the line feed, and [str.strip] removes the characters of [is_space].
    Python integers are unbounded: identifiers are [N], indices that come
    from [int()] on event text are [Z].  The interpreter's limit on the
    length of a decimal literal given to [int()] (4300 digits by default
    from CPython 3.11 on) is not part of the model: [int] is modelled as
    it behaves below that limit, and what is stated about the scanner and
    the editor's reconciler raising nothing else is stated for digit runs
    within it ([within_int_limit]). *)

From Stdlib Require Import String Ascii List ZArith NArith Bool Lia.
From Stdlib Require Import Decimal DecimalString DecimalN.
From stdpp Require Import base option list gmap sets strings sorting.

Local Open Scope string_scope.

(** ** Exceptions *)

Inductive exn := ValueError | IndexError | TypeError | AttributeError.

Inductive result (A : Type) :=
| Ok (a : A)
| Raise (e : exn).
Arguments Ok {A} a.
Arguments Raise {A} e.

Definition rbind {A B} (m : result A) (k : A -> result B) : result B :=
  match m with
  | Ok a => k a
  | Raise e => Raise e
  end.

(** ** Characters and strings *)

Module Str.

Definition newline : ascii := "010"%char.

(** [\d] *)
Definition is_digit (c : ascii) : bool :=
  let n := nat_of_ascii c in (48 <=? n)%nat && (n <=? 57)%nat.

(** [.] without [re.DOTALL] *)
Definition is_dot (c : ascii) : bool := negb (Ascii.eqb c newline).

(** The characters [str.strip()] removes. *)
Definition is_space (c : ascii) : bool :=
  let n := nat_of_ascii c in
  ((9 <=? n)%nat && (n <=? 13)%nat) || ((28 <=? n)%nat && (n <=? 32)%nat)
  || (n =? 133)%nat || (n =? 160)%nat.

Fixpoint all (p : ascii -> bool) (s : string) : bool :=
  match s with
  | EmptyString => true
  | String c r => p c && all p r
  end.

(** [s[len(p):]] when [s.startswith(p)] *)
Fixpoint strip_prefix (p s : string) : option string :=
  match p, s with
  | EmptyString, _ => Some s
  | String a p', String b s' => if Ascii.eqb a b then strip_prefix p' s' else None
  | String _ _, EmptyString => None
  end.

Definition startswith (s p : string) : bool :=
  match strip_prefix p s with Some _ => true | None => false end.

(** [s.endswith(p)] *)
Fixpoint endswith (s p : string) : bool :=
  String.eqb s p ||
  match s with
  | EmptyString => false
  | String _ r => endswith r p
  end.

(** [s[:-len(p)]] for a non-empty [p] *)
Definition drop_last (n : nat) (s : string) : string :=
  substring 0 (String.length s - n) s.

Fixpoint lstrip (s : string) : string :=
  match s with
  | EmptyString => EmptyString
  | String c r => if is_space c then lstrip r else s
  end.

Fixpoint rstrip (s : string) : string :=
  match s with
  | EmptyString => EmptyString
  | String c r =>
      match rstrip r with
      | EmptyString => if is_space c then EmptyString else String c EmptyString
      | r' => String c r'
      end
  end.

(** [s.strip()] *)
Definition strip (s : string) : string := rstrip (lstrip s).

(** [int(d)] for a run of decimal digits; raises [ValueError] otherwise.
    The interpreter's limit on the length of [d] is left out, see the
    head of the file. *)
Definition int_of_digits (d : string) : result N :=
  match d with
  | EmptyString => Raise ValueError
  | _ => match NilEmpty.uint_of_string d with
         | Some u => Ok (N.of_uint u)
         | None => Raise ValueError
         end
  end.

(** The digits of a decimal literal, without the single underscores
    Python allows between two digits; [None] when malformed. *)
Fixpoint int_body (after_digit : bool) (s : string) : option string :=
  match s with
  | EmptyString => if after_digit then Some EmptyString else None
  | String c r =>
      if is_digit c then option_map (String c) (int_body true r)
      else if Ascii.eqb c "_" && after_digit then
        match r with
        | String c' _ => if is_digit c' then int_body false r else None
        | EmptyString => None
        end
      else None
  end.

(** [int(s)] for any string: surrounding white space, an optional sign,
    then the digits. *)
Definition int (s : string) : result Z :=
  let t := strip s in
  let '(neg, body) :=
    match t with
    | String "-" r => (true, r)
    | String "+" r => (false, r)
    | _ => (false, t)
    end in
  match int_body false body with
  | Some d =>
      match int_of_digits d with
      | Ok n => Ok (if neg then (- Z.of_N n)%Z else Z.of_N n)
      | Raise e => Raise e
      end
  | None => Raise ValueError
  end.

(** [s.partition(":")] when [":"] occurs in [s] *)
Fixpoint cut_colon (s : string) : option (string * string) :=
  match s with
  | EmptyString => None
  | String c r =>
      if Ascii.eqb c ":" then Some (EmptyString, r)
      else option_map (fun ab => (String c (fst ab), snd ab)) (cut_colon r)
  end.

(** [s.split(":", maxsplit)] *)
Fixpoint split_colon (maxsplit : nat) (s : string) : list string :=
  match maxsplit with
  | O => [s]
  | S k =>
      match cut_colon s with
      | Some (a, b) => a :: split_colon k b
      | None => [s]
      end
  end.

(** [str(n)], also what [{}] in [str.format] prints for an [int] *)
Definition of_N (n : N) : string := NilEmpty.string_of_uint (N.to_uint n).

End Str.

(** ** Regular expressions, as backtracking matchers

    A matcher maps the rest of the input to the ways it can match a prefix
    of it, as pairs (matched text, remaining input), in the order in which
    the backtracking engine of [re] tries them.  The engine's answer is the
    first element. *)

Module Re.

Definition matcher := string -> list (string * string).

(** a literal *)
Definition lit (p : string) : matcher := fun s =>
  match Str.strip_prefix p s with
  | Some r => [(p, r)]
  | None => []
  end.

(** [c+], greedy: the longest run first *)
Fixpoint plus_greedy (cls : ascii -> bool) (s : string) : list (string * string) :=
  match s with
  | EmptyString => []
  | String c r =>
      if cls c
      then map (fun mr => (String c (fst mr), snd mr)) (plus_greedy cls r)
             ++ [(String c EmptyString, r)]
      else []
  end.

(** [c+?], lazy: the shortest run first *)
Fixpoint plus_lazy (cls : ascii -> bool) (s : string) : list (string * string) :=
  match s with
  | EmptyString => []
  | String c r =>
      if cls c
      then (String c EmptyString, r)
             :: map (fun mr => (String c (fst mr), snd mr)) (plus_lazy cls r)
      else []
  end.

(** [$]: at the end of the string, or just before a line feed that ends it *)
Definition at_end (s : string) : bool :=
  match s with
  | EmptyString => true
  | String c EmptyString => Ascii.eqb c Str.newline
  | _ => false
  end.

End Re.

(** ** The marker scanner *)

(** [\(\(c(\d+)::.+?\)\)] tried at the start of [s]: the ways to match,
    each with the text of group 1 and the input after the match. *)
Definition cloze_re (s : string) : list (string * string) :=
  s1 ← Re.lit "((c" s;
  d ← Re.plus_greedy Str.is_digit s1.2;
  s3 ← Re.lit "::" d.2;
  s4 ← Re.plus_lazy Str.is_dot s3.2;
  s5 ← Re.lit "))" s4.2;
  [(d.1, s5.2)].

(** [re.findall]: the leftmost match at each position, scanning resumes
    where the match ended.  [skip] counts the characters of the last match
    still to be passed over.  The pattern matches no empty text, so nothing
    is tried at the end of the input. *)
Fixpoint findall_from (skip : nat) (s : string) : list string :=
  match s with
  | EmptyString => []
  | String _ r =>
      match skip with
      | S k => findall_from k r
      | O =>
          match head (cloze_re s) with
          | Some (d, rest) =>
              d :: findall_from (String.length s - String.length rest - 1) r
          | None => findall_from 0 r
          end
      end
  end.

Definition findall (s : string) : list string := findall_from 0 s.

(** [{int(x) for x in match}] *)
Fixpoint int_set (l : list string) : result (gset N) :=
  match l with
  | [] => Ok ∅
  | x :: l' =>
      rbind (Str.int_of_digits x) (fun n =>
      rbind (int_set l') (fun nums => Ok ({[n]} ∪ nums)))
  end.

Definition get_cloze_nums (content : string) : result (gset N) :=
  let m := findall content in
  match m with
  | [] => Ok ∅
  | _ => int_set m
  end.

(** ** Notes, models and the host *)

Record field := { name : string; ord : nat }.

(** A note type: [model["flds"]] and, for each entry of [model["tmpls"]],
    its [qfmt]. *)
Record model_t := { flds : list field; tmpls : list string }.

Record note_t := { note_model : model_t; note_fields : list string }.

(** The JavaScript commands sent to the editor's web view. *)
Inductive js :=
| JsWrap (n : N)                           (* wrap('((cN::', '))') *)
| JsSetHtml (ord : nat) (content : string) (* $("#f" + ord).html(json.dumps(content)) *)
| JsInsertHtml (content : string).         (* setFormat('inserthtml', json.dumps(content)) *)

(** Calls into the host, in the order they are made. *)
Inductive event :=
| WebEval (cmds : list js)
| Tooltip (msg : string)
| OldOnCloze
| OldBridgeCmd (cmd : string)
| Checkpoint (msg : string)
| BeginReset
| EndReset
| RequireReset
| Flush (nid : Z).

(** What the code mutates: the fields of the note object at hand, the
    collection notes are loaded from and flushed to, and the host calls
    made so far. *)
Record world := {
  w_fields : list string;
  w_col : gmap Z note_t;
  w_trace : list event }.

(** Stateful code that may raise.  The state reached when an exception is
    raised is kept: Python does not roll a mutation back. *)
Definition M (A : Type) : Type := world -> world * result A.

Definition ret {A} (a : A) : M A := fun w => (w, Ok a).
Definition raise {A} (e : exn) : M A := fun w => (w, Raise e).
Definition bind {A B} (m : M A) (k : A -> M B) : M B := fun w =>
  match m w with
  | (w', Ok a) => k a w'
  | (w', Raise e) => (w', Raise e)
  end.
Definition lift {A} (r : result A) : M A := fun w => (w, r).

Notation "'let*' x ':=' m 'in' k" := (bind m (fun x => k))
  (at level 10, x name, m at level 100, k at level 200).

(** [note.fields[i]] *)
Definition read_field (i : nat) : M string := fun w =>
  match w_fields w !! i with
  | Some v => (w, Ok v)
  | None => (w, Raise IndexError)
  end.

(** [note.fields[i] = v] *)
Definition write_field (i : nat) (v : string) : M unit := fun w =>
  if decide (i < length (w_fields w))%nat
  then ({| w_fields := <[i := v]> (w_fields w); w_col := w_col w; w_trace := w_trace w |},
        Ok tt)
  else (w, Raise IndexError).

Definition emit (e : event) : M unit := fun w =>
  ({| w_fields := w_fields w; w_col := w_col w; w_trace := w_trace w ++ [e] |}, Ok tt).

(** [l[i]] for a Python [int] index: negative indices count from the end. *)
Definition py_index {A} (l : list A) (i : Z) : result A :=
  let n := Z.of_nat (length l) in
  let j := if (i <? 0)%Z then (i + n)%Z else i in
  if (j <? 0)%Z then Raise IndexError
  else match l !! Z.to_nat j with
       | Some a => Ok a
       | None => Raise IndexError
       end.

(** ** The field reconciler of the editor *)

(** [re.compile("^" + re.escape(cloze_field_name) + r"(\d+)$").match]:
    the text of group 1 when the name matches. *)
Definition cloze_field_regex (cloze_field_name fname : string) : option string :=
  head (s1 ← Re.lit cloze_field_name fname;
        d ← Re.plus_greedy Str.is_digit s1.2;
        if Re.at_end d.2 then [d.1] else []).

(** [x in {"1", ""}] *)
Definition in_one_or_empty (x : string) : bool :=
  String.eqb x "1" || String.eqb x "".

(** [max(nums)] of a set of identifiers; [0] stands in for the empty set,
    where the code does not ask. *)
Definition set_max (nums : gset N) : N := foldr N.max 0%N (elements nums).

(** [sorted(nums)] *)
Definition sorted (nums : gset N) : list N := merge_sort N.le (elements nums).

(** [re.search('{{(.*:)*cloze:', qfmt)]: whether some match exists.  A text
    matched by [(.*:)*] is empty or a run without line feed that ends in a
    colon, so a match is [{{], then such a text, then [cloze:]. *)
Fixpoint colon_then_cloze (s : string) : bool :=
  match s with
  | EmptyString => false
  | String c r =>
      if Ascii.eqb c Str.newline then false
      else (Ascii.eqb c ":" && Str.startswith r "cloze:") || colon_then_cloze r
  end.

Definition cloze_tmpl_at (s : string) : bool :=
  match Str.strip_prefix "{{" s with
  | Some r => Str.startswith r "cloze:" || colon_then_cloze r
  | None => false
  end.

Fixpoint search_cloze_tmpl (s : string) : bool :=
  cloze_tmpl_at s ||
  match s with
  | EmptyString => false
  | String _ r => search_cloze_tmpl r
  end.

(** [next((f["ord"] for f in model["flds"] if f["name"] == n), None)] *)
Definition find_ord (fl : list field) (n : string) : option nat :=
  ord <$> find (fun f => String.eqb (name f) n) fl.

(** The editor: the open note (its id and model; its fields are
    [w_fields]), the focused field, and whether Alt is held. *)
Record editor := {
  ed_note : option (Z * model_t);
  currentField : nat;
  alt_modifier : bool }.

(** Lines 102-108 of [onCloze]: the identifier the selection gets. *)
Definition next_cloze_num (cloze_nums : gset N) (alt : bool) : N :=
  if bool_decide (cloze_nums ≠ ∅)
  then (if alt then set_max cloze_nums else set_max cloze_nums + 1)%N
  else 1%N.

Definition plural (n : N) : string := if (n =? 1)%N then "note" else "notes".

Section Editor.

(** [Editor.mungeHTML], a method of the host. *)
Variable mungeHTML : string -> string.

Fixpoint update_loop (cloze_nums : gset N) (cloze_field_name : string)
    (fl : list field) (commands : list js) (found_cloze_nums : gset N)
    : M (list js * gset N) :=
  match fl with
  | [] => ret (commands, found_cloze_nums)
  | f :: fl' =>
      match cloze_field_regex cloze_field_name (name f) with
      | Some g =>
          let* cloze_num := lift (Str.int_of_digits g) in
          let found := found_cloze_nums ∪ {[cloze_num]} in
          let field_content :=
            if decide (cloze_num ∈ cloze_nums) then "1" else "<br>" in
          let* cur := read_field (ord f) in
          if in_one_or_empty (Str.strip cur)
          then
            let* _ := write_field (ord f) (mungeHTML field_content) in
            update_loop cloze_nums cloze_field_name fl'
              (commands ++ [JsSetHtml (ord f) field_content])%list found
          else update_loop cloze_nums cloze_field_name fl' commands found
      | None =>
          update_loop cloze_nums cloze_field_name fl' commands found_cloze_nums
      end
  end.

Definition update_cloze_fields (cloze_nums : gset N) (cloze_field_name : string)
    (model : model_t) : M (list js * gset N) :=
  update_loop cloze_nums cloze_field_name (flds model) [] ∅.

Definition onCloze (self : editor) : M unit :=
  match ed_note self with
  | None => raise AttributeError
  | Some (_, model) =>
      let* qfmt := lift (py_index (tmpls model) 0) in
      if search_cloze_tmpl qfmt then emit OldOnCloze
      else
        let* cur := read_field (currentField self) in
        let* f := lift (py_index (flds model) (Z.of_nat (currentField self))) in
        let current_field_name := name f in
        if negb (String.eqb cur "") then
          if Str.endswith current_field_name "Cloze" then
            let* content := read_field (currentField self) in
            let* cloze_nums := lift (get_cloze_nums content) in
            let next := next_cloze_num cloze_nums (alt_modifier self) in
            let commands := [JsWrap next] in
            let cloze_nums := cloze_nums ∪ {[next]} in
            let* r := update_cloze_fields cloze_nums current_field_name model in
            let commands := (commands ++ r.1)%list in
            let missing_cloze_num := cloze_nums ∖ r.2 in
            let* _ := emit (WebEval commands) in
            if bool_decide (missing_cloze_num ≠ ∅)
            then emit (Tooltip ("Not enough cloze fields.  Missing: " ++
                      String.concat ", "
                        (map (fun n => current_field_name ++ Str.of_N n)
                             (sorted missing_cloze_num))))
            else ret tt
          else emit (Tooltip "Cannot cloze unless field ends in name Cloze")
        else
          if Str.endswith current_field_name "Cloze" then
            let other_field_name := Str.drop_last 5 current_field_name in
            match find_ord (flds model) other_field_name with
            | Some other_field_name_ord =>
                let* content := read_field other_field_name_ord in
                emit (WebEval [JsInsertHtml content])
            | None =>
                emit (Tooltip ("Cannot populate empty field " ++ current_field_name
                               ++ " because other field " ++ other_field_name
                               ++ " was not found to copy from"))
            end
          else emit (Tooltip ("Cannot populate empty field " ++ current_field_name
                              ++ " because name does not end in Cloze"))
  end.

(** The body of the [try] of [onBridgeCmd]. *)
Definition onBridgeCmd_try (self : editor) (cmd : string) : M unit :=
  match ed_note self with
  | Some (note_id, model) =>
      if Str.startswith cmd "blur:" || Str.startswith cmd "key:" then
        match Str.split_colon 3 cmd with
        | [_; field_idx; nid; content] =>
            let* field_idx := lift (Str.int field_idx) in
            let nid := match Str.int nid with Ok n => Some n | Raise _ => None end in
            if match nid with
               | Some n => negb (n =? 0)%Z && (n =? note_id)%Z
               | None => false
               end
            then
              let* f := lift (py_index (flds model) field_idx) in
              let current_field_name := name f in
              if Str.endswith current_field_name "Cloze" then
                let* cloze_nums := lift (get_cloze_nums content) in
                let* r := update_cloze_fields cloze_nums current_field_name model in
                emit (WebEval r.1)
              else ret tt
            else ret tt
        | _ => raise ValueError
        end
      else ret tt
  | None => ret tt
  end.

(** [try: ... except Exception: pass] *)
Definition suppress (m : M unit) : M unit := fun w =>
  match m w with
  | (w', _) => (w', Ok tt)
  end.

Definition onBridgeCmd (self : editor) (cmd : string) : M unit :=
  let* _ := suppress (onBridgeCmd_try self cmd) in
  emit (OldBridgeCmd cmd).

End Editor.

(** ** The batch operations of the browser *)

(** [browser.mw.col.getNote(nid)]: a fresh note object with the fields the
    collection holds; the host raises when it holds no such note. *)
Definition get_note (nid : Z) : M note_t := fun w =>
  match w_col w !! nid with
  | Some n =>
      ({| w_fields := note_fields n; w_col := w_col w; w_trace := w_trace w |}, Ok n)
  | None => (w, Raise TypeError)
  end.

(** [note.flush()] *)
Definition flush (nid : Z) (model : model_t) : M unit := fun w =>
  ({| w_fields := w_fields w;
      w_col := <[nid := {| note_model := model; note_fields := w_fields w |}]> (w_col w);
      w_trace := w_trace w ++ [Flush nid] |}, Ok tt).

(** The loop of [auto_cloze] over the fields of one note. *)
Fixpoint auto_cloze_fields (model : model_t) (nid : Z) (fl : list field)
    (update_count : N) : M N :=
  match fl with
  | [] => ret update_count
  | f :: fl' =>
      let field_name := name f in
      let field_ord := ord f in
      if Str.endswith field_name "Cloze" then
        let* cur := read_field field_ord in
        if String.eqb (Str.strip cur) "" then
          let other_field_name := Str.drop_last 5 field_name in
          let other_field_name_ord := find_ord (flds model) other_field_name in
          let field_name1_ord := find_ord (flds model) (field_name ++ "1") in
          match other_field_name_ord, field_name1_ord with
          | Some o, Some o1 =>
              let* v1 := read_field o1 in
              if String.eqb (Str.strip v1) "" then
                let* content := read_field o in
                let* _ := write_field field_ord ("((c1::" ++ content ++ "))") in
                let* _ := write_field o1 "1" in
                let* _ := flush nid model in
                auto_cloze_fields model nid fl' (update_count + 1)%N
              else auto_cloze_fields model nid fl' update_count
          | _, _ => auto_cloze_fields model nid fl' update_count
          end
        else auto_cloze_fields model nid fl' update_count
      else auto_cloze_fields model nid fl' update_count
  end.

Fixpoint auto_cloze_notes (nids : list Z) (update_count : N) : M N :=
  match nids with
  | [] => ret update_count
  | nid :: nids' =>
      let* note := get_note nid in
      let model := note_model note in
      let* c := auto_cloze_fields model nid (flds model) update_count in
      auto_cloze_notes nids' c
  end.

(** [nids] is [browser.selectedNotes()]. *)
Definition auto_cloze (nids : list Z) : M unit :=
  match nids with
  | [] => emit (Tooltip "You must select some cards first")
  | _ =>
      let len := N.of_nat (length nids) in
      let* _ := emit (Checkpoint ("Auto-cloze (" ++ Str.of_N len ++ " "
                        ++ (if (1 <? len)%N then "notes" else "note") ++ ")")) in
      let* _ := emit BeginReset in
      let* update_count := auto_cloze_notes nids 0%N in
      let* _ := if (update_count =? 0)%N then ret tt else emit RequireReset in
      let* _ := emit (Tooltip ("Updated " ++ Str.of_N update_count ++ " "
                        ++ plural update_count)) in
      emit EndReset
  end.

(** Lines 257-264 of [create_missing]: the reconciliation of the numbered
    fields of one cloze field, whatever they hold. *)
Fixpoint create_missing_loop (cloze_nums : gset N) (field_name : string)
    (fl : list field) (updated : bool) : M bool :=
  match fl with
  | [] => ret updated
  | f :: fl' =>
      match cloze_field_regex field_name (name f) with
      | Some g =>
          let* cloze_num := lift (Str.int_of_digits g) in
          let field_content := if decide (cloze_num ∈ cloze_nums) then "1" else "" in
          let* cur := read_field (ord f) in
          if negb (String.eqb cur field_content) then
            let* _ := write_field (ord f) field_content in
            create_missing_loop cloze_nums field_name fl' true
          else create_missing_loop cloze_nums field_name fl' updated
      | None => create_missing_loop cloze_nums field_name fl' updated
      end
  end.

(** The loop of [create_missing] over the fields of one note. *)
Fixpoint create_missing_fields (model : model_t) (nid : Z) (fl : list field)
    (update_count : N) : M N :=
  match fl with
  | [] => ret update_count
  | f :: fl' =>
      let field_name := name f in
      let field_ord := ord f in
      if Str.endswith field_name "Cloze" then
        let* content := read_field field_ord in
        let* cloze_nums := lift (get_cloze_nums content) in
        let* updated := create_missing_loop cloze_nums field_name (flds model) false in
        if updated : bool then
          let* _ := flush nid model in
          create_missing_fields model nid fl' (update_count + 1)%N
        else create_missing_fields model nid fl' update_count
      else create_missing_fields model nid fl' update_count
  end.

Fixpoint create_missing_notes (nids : list Z) (update_count : N) : M N :=
  match nids with
  | [] => ret update_count
  | nid :: nids' =>
      let* note := get_note nid in
      let model := note_model note in
      let* c := create_missing_fields model nid (flds model) update_count in
      create_missing_notes nids' c
  end.

Definition create_missing (nids : list Z) : M unit :=
  match nids with
  | [] => emit (Tooltip "You must select some cards first")
  | _ =>
      let len := N.of_nat (length nids) in
      let* _ := emit (Checkpoint ("Create Missing Cloze Cards (" ++ Str.of_N len ++ " "
                        ++ (if (1 <? len)%N then "notes" else "note") ++ ")")) in
      let* _ := emit BeginReset in
      let* update_count := create_missing_notes nids 0%N in
      let* _ := if (update_count =? 0)%N then ret tt else emit RequireReset in
      let* _ := emit (Tooltip ("Updated " ++ Str.of_N update_count ++ " "
                        ++ plural update_count)) in
      emit EndReset
  end.

(** [Editor.mungeHTML] as the host defines it. *)
Definition anki_mungeHTML (txt : string) : string :=
  if String.eqb txt "<br>" || String.eqb txt "<div><br></div>" then "" else txt.

(** ** Notions the statements use *)

(** The text the command [wrap('((cN::', '))')] leaves around a selection
    [p]. *)
Definition wrapped (n : N) (p : string) : string :=
  "((c" ++ Str.of_N n ++ "::" ++ p ++ "))".

(** [n] is the number of a field of [fl] that the pattern of [base]
    matches. *)
Definition numbered (base : string) (fl : list field) (n : N) : Prop :=
  exists f g, f ∈ fl /\ cloze_field_regex base (name f) = Some g
              /\ Str.int_of_digits g = Ok n.

(** The world after [note.fields[i] = v], for [i] in range. *)
Definition set_field (w : world) (i : nat) (v : string) : world :=
  {| w_fields := <[i := v]> (w_fields w); w_col := w_col w; w_trace := w_trace w |}.

(** What [update_cloze_fields] wants a numbered field to show. *)
Definition field_content (cloze_nums : gset N) (n : N) : string :=
  if decide (n ∈ cloze_nums) then "1" else "<br>".

(** The message of [onCloze] about the numbered fields that are missing. *)
Definition missing_message (current_field_name : string) (missing : gset N) : string :=
  "Not enough cloze fields.  Missing: " ++
  String.concat ", " (map (fun n => current_field_name ++ Str.of_N n) (sorted missing)).

(** The numbered fields as the specification words them: the name is the
    base name followed by a positive integer. *)
Definition spec_numbered (base : string) (fl : list field) (n : N) : Prop :=
  (0 < n)%N /\ exists f d, f ∈ fl /\ d <> "" /\ Str.all Str.is_digit d = true
                           /\ name f = base ++ d /\ Str.int_of_digits d = Ok n.

(** A character that may follow the base name in a numbered field. *)
Definition is_tail_char (c : ascii) : bool := Str.is_digit c || Ascii.eqb c Str.newline.

(** [s] without its longest suffix of characters of [p]. *)
Fixpoint rtrim (p : ascii -> bool) (s : string) : string :=
  match s with
  | EmptyString => EmptyString
  | String c r =>
      match rtrim p r with
      | EmptyString => if p c then EmptyString else String c EmptyString
      | r' => String c r'
      end
  end.

(** What [create_missing] wants a numbered field to hold. *)
Definition force_content (cloze_nums : gset N) (n : N) : string :=
  if decide (n ∈ cloze_nums) then "1" else "".

(** The world after [note.flush()]. *)
Definition flushed (nid : Z) (model : model_t) (w : world) : world :=
  (flush nid model w).1.

(** The world after one more host call. *)
Definition add_event (w : world) (e : event) : world :=
  {| w_fields := w_fields w; w_col := w_col w; w_trace := w_trace w ++ [e] |}.

(** The default of [sys.get_int_max_str_digits()]: [int()] raises
    [ValueError] on a longer run of digits. *)
Definition int_max_str_digits : N := 4300.

(** A run of digits [int()] converts under that limit. *)
Definition within_int_limit (d : string) : Prop :=
  (N.of_nat (String.length d) <= int_max_str_digits)%N.

(** A character other than the opening parenthesis. *)
Definition not_open_paren (c : ascii) : bool := negb (Ascii.eqb c "(").

(** The command [update_cloze_fields] issues for the field [f] of a note
    whose fields are [fields], if any: one for each numbered field of
    [base] whose stripped value is ["1"] or empty. *)
Definition managed_command (cloze_nums : gset N) (base : string)
    (fields : list string) (f : field) : option js :=
  match cloze_field_regex base (name f) with
  | Some g =>
      match Str.int_of_digits g, fields !! ord f with
      | Ok n, Some v =>
          if in_one_or_empty (Str.strip v)
          then Some (JsSetHtml (ord f) (field_content cloze_nums n))
          else None
      | _, _ => None
      end
  | None => None
  end.

(** A character other than the closing parenthesis. *)
Definition not_close_paren (c : ascii) : bool := negb (Ascii.eqb c ")").

(** A character other than the colon. *)
Definition not_colon (c : ascii) : bool := negb (Ascii.eqb c ":").

(** The ordinals of the note type of [note] are inside the note. *)
Definition note_in_range (note : note_t) : Prop :=
  forall f, f ∈ flds (note_model note) -> (ord f < length (note_fields note))%nat.

(** A value [str.strip()] leaves nothing of. *)
Definition blank (v : string) : bool := String.eqb (Str.strip v) "".

(** The loop over the selected notes that [auto_cloze] and
    [create_missing] share, with the loop over the fields as [body]. *)
Fixpoint notes_loop (body : model_t -> Z -> list field -> N -> M N)
    (nids : list Z) (update_count : N) : M N :=
  match nids with
  | [] => ret update_count
  | nid :: nids' =>
      let* note := get_note nid in
      let model := note_model note in
      let* c := body model nid (flds model) update_count in
      notes_loop body nids' c
  end.

(** What both operations do around that loop, [title] being the name of
    the operation. *)
Definition batch (title : string) (loop : list Z -> N -> M N) (nids : list Z) : M unit :=
  match nids with
  | [] => emit (Tooltip "You must select some cards first")
  | _ =>
      let len := N.of_nat (length nids) in
      let* _ := emit (Checkpoint (title ++ " (" ++ Str.of_N len ++ " "
                        ++ (if (1 <? len)%N then "notes" else "note") ++ ")")) in
      let* _ := emit BeginReset in
      let* update_count := loop nids 0%N in
      let* _ := if (update_count =? 0)%N then ret tt else emit RequireReset in
      let* _ := emit (Tooltip ("Updated " ++ Str.of_N update_count ++ " "
                        ++ plural update_count)) in
      emit EndReset
  end.

(** The text of the undo checkpoint of a batch operation on [n] notes. *)
Definition checkpoint_message (title : string) (n : nat) : string :=
  title ++ " (" ++ Str.of_N (N.of_nat n) ++ " "
    ++ (if (1 <? N.of_nat n)%N then "notes" else "note") ++ ")".

(** The notice a batch operation ends with. *)
Definition report_message (update_count : N) : string :=
  "Updated " ++ Str.of_N update_count ++ " " ++ plural update_count.

(** [fs'] has the length of [fs] and every value of [fs] that is more than
    white space. *)
Definition keeps_text (fs fs' : list string) : Prop :=
  length fs' = length fs
  /\ forall i v, fs !! i = Some v -> blank v = false -> fs' !! i = Some v.

(** No field of [model] with the ordinal [i] is a numbered field of one of
    its cloze fields. *)
Definition unnumbered (model : model_t) (i : nat) : Prop :=
  forall fb fa, fb ∈ flds model -> Str.endswith (name fb) "Cloze" = true ->
    fa ∈ flds model -> cloze_field_regex (name fb) (name fa) <> None -> ord fa <> i.

(** [fs'] has the length of [fs] and its values but for the numbered
    fields of [model]. *)
Definition keeps_unnumbered (model : model_t) (fs fs' : list string) : Prop :=
  length fs' = length fs /\ forall i, unnumbered model i -> fs' !! i = fs !! i.

(** The note type of [note] gives its fields distinct names and distinct
    ordinals inside the note. *)
Definition well_formed (note : note_t) : Prop :=
  NoDup (name <$> flds (note_model note)) /\ NoDup (ord <$> flds (note_model note))
  /\ note_in_range note.

(** Every numbered field of [note] holds ["1"] when its number is among
    the identifiers of the markers of its cloze field, and nothing
    otherwise. *)
Definition reconciled (note : note_t) : Prop :=
  forall fb fa g n,
    fb ∈ flds (note_model note) -> Str.endswith (name fb) "Cloze" = true ->
    fa ∈ flds (note_model note) -> cloze_field_regex (name fb) (name fa) = Some g ->
    Str.int_of_digits g = Ok n ->
    exists content nums,
      note_fields note !! ord fb = Some content
      /\ get_cloze_nums content = Ok nums
      /\ note_fields note !! ord fa = Some (force_content nums n).

(** The host calls every batch operation on [n] notes starts with. *)
Definition batch_start (title : string) (n : nat) : list event :=
  [Checkpoint (checkpoint_message title n); BeginReset].

(** The host calls a batch operation ends with after flushing the notes
    [flushes]. *)
Definition batch_end (flushes : list Z) : list event :=
  ((match flushes with [] => [] | _ => [RequireReset] end)
   ++ [Tooltip (report_message (N.of_nat (length flushes))); EndReset])%list.

(** The text of a marker with the digits [d] and the payload [p]. *)
Definition marker (d p : string) : string := "((c" ++ d ++ "::" ++ p ++ "))".

(** A payload the pattern accepts: [.+?] takes one character at least and
    no line feed. *)
Definition code_payload (p : string) : Prop := p <> "" /\ Str.all Str.is_dot p = true.

(** A payload as the specification words it: any text, also none. *)
Definition spec_payload (p : string) : Prop := True.

(** [s] starts with a marker with the digits [d] whose payload is the
    shortest one that the closing parentheses follow, and [rest] is the
    text after that marker. *)
Definition marker_at (payload : string -> Prop) (s d rest : string) : Prop :=
  exists p, s = marker d p ++ rest
            /\ d <> "" /\ Str.all Str.is_digit d = true /\ payload p
            /\ forall p1 p2 r, p = p1 ++ p2 -> payload p1 -> p2 <> "" ->
                 p2 ++ "))" ++ rest <> "))" ++ r.

(** Scanning from left to right without overlap: [scans payload s l] when
    [l] lists the digits of the markers met in [s], each the first marker
    that starts at or after the end of the one before. *)
Inductive scans (payload : string -> Prop) : string -> list string -> Prop :=
| scans_none s :
    (forall a b d rest, s = a ++ b -> ~ marker_at payload b d rest) ->
    scans payload s []
| scans_marker pre s d rest l :
    (forall a b d' rest', pre = a ++ b -> b <> "" ->
       ~ marker_at payload (b ++ s) d' rest') ->
    marker_at payload s d rest ->
    scans payload rest l ->
    scans payload (pre ++ s) (d :: l).

(** The text after the shortest payload at the start of [s] and the
    closing parentheses that follow it, if there is one. *)
Fixpoint after_payload (s : string) : option string :=
  match s with
  | EmptyString => None
  | String c r =>
      if Str.is_dot c then
        match Str.strip_prefix "))" r with
        | Some rest => Some rest
        | None => after_payload r
        end
      else None
  end.

(** The field [f] is one [auto_cloze] fills in a note with the fields
    [fs]: its name ends in [Cloze], it is blank, the note type has the
    field it is filled from and its first numbered field, and that one is
    blank too. *)
Definition fillable (model : model_t) (fs : list string) (f : field) : bool :=
  Str.endswith (name f) "Cloze"
  && match fs !! ord f with Some cur => blank cur | None => false end
  && match find_ord (flds model) (Str.drop_last 5 (name f)),
           find_ord (flds model) (name f ++ "1") with
     | Some _, Some o1 => match fs !! o1 with Some v1 => blank v1 | None => false end
     | _, _ => false
     end.

(** The field [fa] is a numbered field of [base] that does not hold what
    the identifiers [nums] ask for. *)
Definition stale (fs : list string) (nums : gset N) (base : string) (fa : field) : bool :=
  match cloze_field_regex base (name fa) with
  | Some g =>
      match Str.int_of_digits g, fs !! ord fa with
      | Ok n, Some v => negb (String.eqb v (force_content nums n))
      | _, _ => false
      end
  | None => false
  end.

(** The field [fb] is a cloze field with a numbered field to repair. *)
Definition needs_repair (model : model_t) (fs : list string) (fb : field) : bool :=
  Str.endswith (name fb) "Cloze"
  && match fs !! ord fb with
     | Some content =>
         match get_cloze_nums content with
         | Ok nums => existsb (stale fs nums (name fb)) (flds model)
         | Raise _ => false
         end
     | None => false
     end.

(** How many fields of [fl] satisfy [p]. *)
Definition count_fields (p : field -> bool) (fl : list field) : nat :=
  length (List.filter p fl).

(** The fields [auto_cloze] fills in [note], counted. *)
Definition fill_count (note : note_t) : nat :=
  count_fields (fillable (note_model note) (note_fields note)) (flds (note_model note)).

(** The cloze fields of [note] with a numbered field to repair, counted. *)
Definition repair_count (note : note_t) : nat :=
  count_fields (needs_repair (note_model note) (note_fields note))
    (flds (note_model note)).

(** The notes a batch operation flushes, in order, when it flushes each
    selected note [count] times. *)
Definition flushes_of (count : note_t -> nat) (col : gmap Z note_t) (nids : list Z)
    : list Z :=
  nids ≫= fun nid =>
    match col !! nid with
    | Some note => replicate (count note) nid
    | None => []
    end.

(** * Properties *)

(** ** Strings *)

Lemma sapp_cons c s t : String c s ++ t = String c (s ++ t).
Proof. reflexivity. Qed.

Lemma sapp_nil_l s : "" ++ s = s.
Proof. reflexivity. Qed.

Lemma sapp_nil_r s : s ++ "" = s.
Proof. induction s as [|c s IH]; [done|]. by rewrite sapp_cons, IH. Qed.

Lemma sapp_assoc s t u : (s ++ t) ++ u = s ++ t ++ u.
Proof. induction s as [|c s IH]; [done|]. by rewrite !sapp_cons, IH. Qed.

Lemma slength_app s t : String.length (s ++ t) = (String.length s + String.length t)%nat.
Proof. induction s as [|c s IH]; [done|]. rewrite sapp_cons. simpl. by rewrite IH. Qed.

Lemma all_app p s t : Str.all p (s ++ t) = Str.all p s && Str.all p t.
Proof.
  induction s as [|c s IH]; [done|].
  rewrite sapp_cons. simpl. rewrite IH. by rewrite andb_assoc.
Qed.

Lemma strip_prefix_spec p s r : Str.strip_prefix p s = Some r <-> s = p ++ r.
Proof.
  revert s. induction p as [|a p IH]; intros s; simpl.
  - rewrite sapp_nil_l. split; congruence.
  - destruct s as [|b s]; rewrite ?sapp_cons; [split; discriminate|].
    destruct (Ascii.eqb_spec a b) as [->|Hne].
    + rewrite IH. split; congruence.
    + split; [discriminate|]. intros [= ? ?]. done.
Qed.

Lemma strip_prefix_app p r : Str.strip_prefix p (p ++ r) = Some r.
Proof. by apply strip_prefix_spec. Qed.

(** ** Matchers *)

Lemma lit_elem p s m r : (m, r) ∈ Re.lit p s <-> m = p /\ s = p ++ r.
Proof.
  unfold Re.lit. destruct (Str.strip_prefix p s) as [r'|] eqn:E.
  - apply strip_prefix_spec in E. subst s. rewrite list_elem_of_singleton.
    split.
    + intros [= -> ->]. done.
    + intros [-> H]. by apply (inj (String.append p)) in H as ->.
  - split; [by intros ?%not_elem_of_nil|].
    intros [_ H]. apply strip_prefix_spec in H. congruence.
Qed.

Lemma lit_app p r : Re.lit p (p ++ r) = [(p, r)].
Proof. unfold Re.lit. by rewrite strip_prefix_app. Qed.

Lemma plus_greedy_elem cls s m r :
  (m, r) ∈ Re.plus_greedy cls s -> s = m ++ r /\ m <> "" /\ Str.all cls m = true.
Proof.
  revert m r. induction s as [|c s IH]; intros m r; simpl.
  - by intros ?%not_elem_of_nil.
  - destruct (cls c) eqn:Hc; [|by intros ?%not_elem_of_nil].
    rewrite elem_of_app, list_elem_of_fmap, list_elem_of_singleton.
    intros [([m' r'] & [= -> ->] & Hin)|[= -> ->]].
    + destruct (IH _ _ Hin) as (-> & ? & Hall). simpl.
      by rewrite Hc, Hall.
    + simpl. by rewrite Hc.
Qed.

Lemma plus_lazy_elem cls s m r :
  (m, r) ∈ Re.plus_lazy cls s -> s = m ++ r /\ m <> "" /\ Str.all cls m = true.
Proof.
  revert m r. induction s as [|c s IH]; intros m r; simpl.
  - by intros ?%not_elem_of_nil.
  - destruct (cls c) eqn:Hc; [|by intros ?%not_elem_of_nil].
    rewrite elem_of_cons, list_elem_of_fmap.
    intros [[= -> ->]|([m' r'] & [= -> ->] & Hin)].
    + simpl. by rewrite Hc.
    + destruct (IH _ _ Hin) as (-> & ? & Hall). simpl.
      by rewrite Hc, Hall.
Qed.

(** Every run of the class that ends where [r] starts is among the tries
    of the lazy repetition. *)
Lemma plus_lazy_complete cls m r :
  m <> "" -> Str.all cls m = true -> (m, r) ∈ Re.plus_lazy cls (m ++ r).
Proof.
  induction m as [|c m IH]; [done|]. intros _.
  simpl. intros [Hc Hall]%andb_true_iff. rewrite ?sapp_cons. simpl. rewrite Hc.
  destruct m as [|c' m'].
  - rewrite sapp_nil_l. apply list_elem_of_here.
  - apply list_elem_of_further, list_elem_of_fmap.
    exists (String c' m', r). split; [done|]. by apply IH.
Qed.

(** The first try of the greedy repetition is the whole run. *)
Lemma plus_greedy_head cls d r :
  d <> "" -> Str.all cls d = true ->
  match r with EmptyString => True | String c _ => cls c = false end ->
  exists tl, Re.plus_greedy cls (d ++ r) = (d, r) :: tl.
Proof.
  induction d as [|c d IH]; [done|]. intros _.
  simpl. intros [Hc Hall]%andb_true_iff Hr. rewrite ?sapp_cons. simpl. rewrite Hc.
  destruct d as [|c' d'].
  - rewrite sapp_nil_l. exists [].
    destruct r as [|c' r']; simpl; [done|]. by rewrite Hr.
  - destruct IH as [tl ->]; [done..|]. simpl. eauto.
Qed.

(** ** Decimal digits *)

Lemma uint_of_digits d :
  Str.all Str.is_digit d = true -> exists u, NilEmpty.uint_of_string d = Some u.
Proof.
  induction d as [|c d IH]; simpl; [eauto|].
  intros [Hc Hd]%andb_true_iff. destruct (IH Hd) as [u ->].
  destruct c as [[] [] [] [] [] [] [] []]; try discriminate Hc; simpl; eauto.
Qed.

Lemma int_of_digits_ok d :
  d <> "" -> Str.all Str.is_digit d = true -> exists n, Str.int_of_digits d = Ok n.
Proof.
  intros Hne Hd. destruct (uint_of_digits d Hd) as [u Hu].
  unfold Str.int_of_digits. rewrite Hu. destruct d; [done|eauto].
Qed.

Lemma string_of_uint_digits u : Str.all Str.is_digit (NilEmpty.string_of_uint u) = true.
Proof. induction u; simpl; auto. Qed.

Lemma of_N_digits n : Str.all Str.is_digit (Str.of_N n) = true.
Proof. apply string_of_uint_digits. Qed.

Lemma of_N_nonempty n : Str.of_N n <> "".
Proof.
  unfold Str.of_N. destruct n as [|p]; simpl; [done|].
  pose proof (DecimalPos.Unsigned.to_uint_nonnil p) as Hp.
  destruct (Pos.to_uint p); simpl; congruence.
Qed.

Lemma int_of_N n : Str.int_of_digits (Str.of_N n) = Ok n.
Proof.
  unfold Str.int_of_digits. pose proof (of_N_nonempty n) as Hne.
  destruct (Str.of_N n) eqn:E; [done|]. rewrite <- E. unfold Str.of_N.
  by rewrite NilEmpty.usu, DecimalN.Unsigned.of_to.
Qed.

(** ** The scanner *)

(** What a match of the marker pattern at the start of [s] looks like. *)
Lemma cloze_re_elem s d rest :
  (d, rest) ∈ cloze_re s ->
  exists p, s = "((c" ++ d ++ "::" ++ p ++ "))" ++ rest
            /\ d <> "" /\ Str.all Str.is_digit d = true
            /\ p <> "" /\ Str.all Str.is_dot p = true.
Proof.
  unfold cloze_re.
  intros ([m1 r1] & H & H1)%list_elem_of_bind.
  apply list_elem_of_bind in H as ([m2 r2] & H & H2).
  apply list_elem_of_bind in H as ([m3 r3] & H & H3).
  apply list_elem_of_bind in H as ([m4 r4] & H & H4).
  apply list_elem_of_bind in H as ([m5 r5] & H & H5).
  apply list_elem_of_singleton in H. simpl in *. injection H as -> ->.
  apply lit_elem in H1 as [-> ->]. apply lit_elem in H3 as [-> ->].
  apply lit_elem in H5 as [-> ->].
  apply plus_greedy_elem in H2 as (-> & ? & ?).
  apply plus_lazy_elem in H4 as (-> & ? & ?).
  exists m4. by rewrite ?sapp_assoc.
Qed.

(** Every text [findall] returns is group 1 of a match somewhere in the
    input. *)
Lemma findall_from_elem k s d :
  d ∈ findall_from k s ->
  exists pre suf rest, s = pre ++ suf /\ (d, rest) ∈ cloze_re suf.
Proof.
  revert k. induction s as [|c s IH]; intros k; simpl.
  - by intros ?%not_elem_of_nil.
  - assert (forall k', d ∈ findall_from k' s ->
        exists pre suf rest, String c s = pre ++ suf /\ (d, rest) ∈ cloze_re suf) as Hrec.
    { intros k' (pre & suf & rest & -> & Hin)%IH.
      exists (String c pre), suf, rest. done. }
    destruct k as [|k]; [|apply Hrec].
    destruct (head (cloze_re (String c s))) as [[d' rest]|] eqn:Hhd; [|apply Hrec].
    intros [->|Hin]%elem_of_cons; [|by eapply Hrec].
    exists "", (String c s), rest. split; [done|].
    by eapply head_Some_elem_of.
Qed.

Lemma findall_groups s d :
  d ∈ findall s -> d <> "" /\ Str.all Str.is_digit d = true.
Proof.
  intros (pre & suf & rest & _ & Hin)%findall_from_elem.
  apply cloze_re_elem in Hin as (p & _ & ? & ? & _). done.
Qed.

Lemma int_set_spec l :
  (forall d, d ∈ l -> d <> "" /\ Str.all Str.is_digit d = true) ->
  exists nums : gset N, int_set l = Ok nums
    /\ forall n, n ∈ nums <-> exists d, d ∈ l /\ Str.int_of_digits d = Ok n.
Proof.
  induction l as [|x l IH]; intros Hl; simpl.
  - exists ∅. split; [done|]. intros n. split; [set_solver|].
    intros (d & Hd & _). by apply not_elem_of_nil in Hd.
  - destruct (Hl x) as [Hx1 Hx2]; [apply list_elem_of_here|].
    destruct (int_of_digits_ok x Hx1 Hx2) as [nx Hnx]. rewrite Hnx. simpl.
    destruct IH as (nums & -> & Hnums).
    { intros d Hd. apply Hl. by apply list_elem_of_further. }
    simpl. eexists. split; [done|]. intros n.
    rewrite elem_of_union, elem_of_singleton, Hnums. split.
    + intros [->|(d & Hd & Hn)].
      * exists x. split; [apply list_elem_of_here|done].
      * exists d. split; [by apply list_elem_of_further|done].
    + intros (d & [->|Hd]%elem_of_cons & Hn).
      * left. congruence.
      * right. eauto.
Qed.

Lemma get_cloze_nums_spec content :
  exists nums : gset N, get_cloze_nums content = Ok nums
    /\ forall n, n ∈ nums <->
         exists d, d ∈ findall content /\ Str.int_of_digits d = Ok n.
Proof.
  destruct (int_set_spec (findall content)) as (nums & Hs & Hn).
  { apply findall_groups. }
  unfold get_cloze_nums. destruct (findall content) eqn:E; [|eauto].
  exists ∅. split; [done|]. simpl in Hs. injection Hs as <-. done.
Qed.

Lemma get_cloze_nums_total content : exists nums, get_cloze_nums content = Ok nums.
Proof. destruct (get_cloze_nums_spec content) as (nums & ? & _). eauto. Qed.

Lemma findall_head s d rest :
  head (cloze_re s) = Some (d, rest) -> d ∈ findall s.
Proof.
  intros H. destruct s as [|c s].
  - apply head_Some_elem_of, cloze_re_elem in H as (p & Hp & _). discriminate Hp.
  - unfold findall. simpl findall_from. rewrite H. apply list_elem_of_here.
Qed.

(** A well-formed marker at the start of the input is matched, and group 1
    is its digit run. *)
Lemma cloze_re_head d p post :
  d <> "" -> Str.all Str.is_digit d = true ->
  p <> "" -> Str.all Str.is_dot p = true ->
  exists rest, head (cloze_re ("((c" ++ d ++ "::" ++ p ++ "))" ++ post)) = Some (d, rest).
Proof.
  intros Hd1 Hd2 Hp1 Hp2. unfold cloze_re. rewrite lit_app. simpl mbind.
  destruct (plus_greedy_head Str.is_digit d ("::" ++ p ++ "))" ++ post)) as [tl ->];
    [done..|].
  simpl. rewrite ?List.app_nil_r, sapp_nil_l.
  set (L := Re.plus_lazy _ _ ≫= _).
  assert (exists x, x ∈ L /\ x.1 = d) as (x & Hx & Hx1).
  { exists (d, post). split; [|done]. apply list_elem_of_bind.
    exists (p, "))" ++ post). split; [|by apply plus_lazy_complete].
    apply list_elem_of_bind. exists ("))", post).
    split; [by apply list_elem_of_singleton|]. by apply lit_elem. }
  assert (forall y, y ∈ L -> y.1 = d) as HL.
  { intros y ([m4 r4] & Hy & _)%list_elem_of_bind.
    apply list_elem_of_bind in Hy as ([m5 r5] & Hy & _).
    apply list_elem_of_singleton in Hy. by subst y. }
  destruct L as [|[d' r'] L']; [by apply not_elem_of_nil in Hx|].
  simpl. exists r'. f_equal. f_equal. apply (HL (d', r')), list_elem_of_here.
Qed.

(** *** The scan of a text, marker by marker *)

Lemma get_cloze_nums_int_set content : get_cloze_nums content = int_set (findall content).
Proof. unfold get_cloze_nums. by destruct (findall content). Qed.

Lemma findall_from_skip a s : findall_from (String.length a) (a ++ s) = findall_from 0 s.
Proof.
  induction a as [|c a IH]; [rewrite sapp_nil_l; by destruct s|].
  rewrite sapp_cons. simpl. exact IH.
Qed.

Lemma bind_map_snd {B} c (k : string -> list B) (L : list (string * string)) :
  (map (fun mr : string * string => (String c mr.1, mr.2)) L ≫= fun s4 : string * string => k s4.2)
  = (L ≫= fun s4 : string * string => k s4.2).
Proof. induction L as [|x L IH]; [done|]. simpl map. rewrite !bind_cons. by rewrite IH. Qed.

Lemma plus_lazy_cons cls c s :
  cls c = true ->
  Re.plus_lazy cls (String c s)
  = (String c "", s) :: map (fun mr => (String c mr.1, mr.2)) (Re.plus_lazy cls s).
Proof. intros H. simpl. by rewrite H. Qed.

(** The first try of the lazy payload that the closing parentheses
    follow. *)
Lemma lazy_bind_head (d s : string) :
  head (Re.plus_lazy Str.is_dot s
          ≫= fun s4 : string * string =>
               Re.lit "))" s4.2 ≫= fun s5 : string * string => [(d, s5.2)])
  = (fun rest => (d, rest)) <$> after_payload s.
Proof.
  induction s as [|c r IH]; [done|].
  destruct (Str.is_dot c) eqn:Hc.
  - rewrite plus_lazy_cons, bind_cons by done. cbn [snd after_payload]. rewrite Hc.
    unfold Re.lit at 1. destruct (Str.strip_prefix "))" r) as [rest|]; [done|].
    cbn [mbind list_bind app].
    rewrite (bind_map_snd c
               (fun r0 => Re.lit "))" r0 ≫= fun s5 : string * string => [(d, s5.2)])).
    exact IH.
  - simpl. by rewrite Hc.
Qed.

Lemma after_payload_spec s rest :
  after_payload s = Some rest <->
  exists p, s = p ++ "))" ++ rest /\ code_payload p
            /\ forall p1 p2 r, p = p1 ++ p2 -> code_payload p1 -> p2 <> "" ->
                 p2 ++ "))" ++ rest <> "))" ++ r.
Proof.
  split.
  - revert rest. induction s as [|c r IH]; intros rest; [done|]. cbn [after_payload].
    destruct (Str.is_dot c) eqn:Hc; [|done].
    destruct (Str.strip_prefix "))" r) as [rest'|] eqn:E.
    + intros [= ->]. apply strip_prefix_spec in E as ->.
      exists (String c ""). split; [done|]. split; [split; [done|by simpl; rewrite Hc]|].
      intros [|c1 p1] p2 r0 Hp [Hp1 _] Hp2; [done|].
      rewrite sapp_cons in Hp. injection Hp as _ Hp. by destruct p1, p2.
    + intros (p & -> & [Hp1 Hp2] & Hmin)%IH.
      exists (String c p). split; [done|].
      split; [split; [done|by simpl; rewrite Hc, Hp2]|].
      intros [|c1 p1] p2 r0 Hp [Hq1 Hq2] Hq; [done|].
      rewrite sapp_cons in Hp. injection Hp as <- Hp.
      destruct p1 as [|c2 p1'].
      * rewrite sapp_nil_l in Hp. subst p2. intros Heq.
        assert (Str.strip_prefix "))" (p ++ "))" ++ rest) = Some r0) as E'
          by by apply strip_prefix_spec.
        congruence.
      * apply (Hmin (String c2 p1') p2 r0 Hp); [|done].
        split; [done|]. simpl in Hq2. by apply andb_true_iff in Hq2 as [_ ?].
  - intros (p & -> & [Hp1 Hp2] & Hmin). revert Hp1 Hp2 Hmin.
    induction p as [|c q IH]; [done|]. intros _ [Hc Hq]%andb_true_iff Hmin.
    rewrite sapp_cons. cbn [after_payload]. rewrite Hc.
    destruct q as [|c' q'].
    + by rewrite sapp_nil_l, strip_prefix_app.
    + destruct (Str.strip_prefix "))" (String c' q' ++ "))" ++ rest)) as [r0|] eqn:E.
      * apply strip_prefix_spec in E.
        destruct (Hmin (String c "") (String c' q') r0); try done.
        split; [done|]. by simpl; rewrite Hc.
      * apply IH; [done|done|].
        intros p1 p2 r0 Hp [Hq1 Hq2] Hp2.
        apply (Hmin (String c p1) p2 r0); [by rewrite Hp|split; [done|]|done].
        by simpl; rewrite Hc, Hq2.
Qed.

Lemma after_payload_some p rest :
  code_payload p -> is_Some (after_payload (p ++ "))" ++ rest)).
Proof.
  intros [Hp1 Hp2]. revert Hp1 Hp2.
  induction p as [|c q IH]; [done|]. intros _ [Hc Hq]%andb_true_iff.
  rewrite sapp_cons. cbn [after_payload]. rewrite Hc.
  destruct (Str.strip_prefix "))" (q ++ "))" ++ rest)) as [r0|] eqn:E; [done|].
  destruct q as [|c' q']; [by rewrite sapp_nil_l, strip_prefix_app in E|].
  by apply IH.
Qed.

(** A run of digits ends where the colons start. *)
Lemma digits_colon_inj d d' x x' :
  Str.all Str.is_digit d = true -> Str.all Str.is_digit d' = true ->
  d ++ "::" ++ x = d' ++ "::" ++ x' -> d = d' /\ x = x'.
Proof.
  change ("::" ++ x) with (String ":" (String ":" x)).
  change ("::" ++ x') with (String ":" (String ":" x')).
  revert d'. induction d as [|c d IH]; intros [|c' d']; rewrite ?sapp_nil_l, ?sapp_cons.
  - intros _ _ H. by injection H as ->.
  - simpl. intros _ [Hc _]%andb_true_iff H. injection H as <- _. discriminate Hc.
  - simpl. intros [Hc _]%andb_true_iff _ H. injection H as -> _. discriminate Hc.
  - simpl. intros [_ Hd]%andb_true_iff [_ Hd']%andb_true_iff H. injection H as -> H.
    by destruct (IH d' Hd Hd' H) as [-> ->].
Qed.

(** The match the pattern finds at a marker's opening. *)
Lemma cloze_re_at d x :
  d <> "" -> Str.all Str.is_digit d = true ->
  head (cloze_re ("((c" ++ d ++ "::" ++ x)) = (fun rest => (d, rest)) <$> after_payload x.
Proof.
  intros Hd1 Hd2. destruct (after_payload x) as [rest|] eqn:E.
  - pose proof (lazy_bind_head d x) as HL. rewrite E in HL.
    unfold cloze_re. rewrite lit_app. simpl mbind.
    destruct (plus_greedy_head Str.is_digit d ("::" ++ x)) as [tl ->]; [done..|].
    simpl. rewrite ?List.app_nil_r, sapp_nil_l.
    destruct (Re.plus_lazy _ _ ≫= _) as [|y L]; [done|]. exact HL.
  - destruct (cloze_re ("((c" ++ d ++ "::" ++ x)) as [|[d' rest'] L] eqn:E'; [done|].
    assert ((d', rest') ∈ cloze_re ("((c" ++ d ++ "::" ++ x)) as Hin
      by (rewrite E'; apply list_elem_of_here).
    apply cloze_re_elem in Hin as (p & Hs & Hd1' & Hd2' & Hp).
    apply (inj (String.append "((c")) in Hs.
    apply digits_colon_inj in Hs as [_ ->]; [|done..].
    destruct (after_payload_some p rest' Hp) as [r Hr]. congruence.
Qed.

Lemma marker_app d p rest : marker d p ++ rest = "((c" ++ d ++ "::" ++ p ++ "))" ++ rest.
Proof. unfold marker. by rewrite !sapp_assoc. Qed.

(** The pattern's match at the start of a text is the marker there. *)
Lemma cloze_re_head_marker s d rest :
  head (cloze_re s) = Some (d, rest) <-> marker_at code_payload s d rest.
Proof.
  split.
  - intros H. pose proof (head_Some_elem_of _ _ H) as Hin.
    apply cloze_re_elem in Hin as (p0 & -> & Hd1 & Hd2 & Hp0).
    rewrite cloze_re_at in H by done.
    destruct (after_payload _) as [r|] eqn:E; [|done]. injection H as ->.
    apply after_payload_spec in E as (p & E & Hp & Hmin).
    exists p. rewrite marker_app, <- E. done.
  - intros (p & -> & Hd1 & Hd2 & Hp & Hmin). rewrite marker_app, cloze_re_at by done.
    assert (after_payload (p ++ "))" ++ rest) = Some rest) as ->; [|done].
    apply after_payload_spec. by exists p.
Qed.

Lemma marker_at_nonempty payload d rest : ~ marker_at payload "" d rest.
Proof. intros (p & H & _). rewrite marker_app in H. discriminate H. Qed.

Lemma findall_no_match c r :
  head (cloze_re (String c r)) = None -> findall (String c r) = findall r.
Proof. intros H. unfold findall. simpl. by rewrite H. Qed.

Lemma findall_match s d rest :
  head (cloze_re s) = Some (d, rest) -> findall s = d :: findall rest.
Proof.
  intros H. pose proof H as (p & Hs & _)%cloze_re_head_marker.
  rewrite marker_app in Hs.
  change ("((c" ++ d ++ "::" ++ p ++ "))" ++ rest)
    with (String "(" ("(c" ++ d ++ "::" ++ p ++ "))" ++ rest)) in Hs.
  subst s. unfold findall. cbn [findall_from]. rewrite H. f_equal.
  replace (String.length (String "(" ("(c" ++ d ++ "::" ++ p ++ "))" ++ rest))
           - String.length rest - 1)%nat
    with (String.length ("(c" ++ d ++ "::" ++ p ++ "))")).
  - rewrite <- (findall_from_skip ("(c" ++ d ++ "::" ++ p ++ "))") rest).
    by rewrite !sapp_assoc.
  - change (String "(" ("(c" ++ d ++ "::" ++ p ++ "))" ++ rest))
      with ("((c" ++ d ++ "::" ++ p ++ "))" ++ rest).
    rewrite !slength_app. simpl. lia.
Qed.

Lemma head_cloze_re_none s :
  (forall d rest, ~ marker_at code_payload s d rest) -> head (cloze_re s) = None.
Proof.
  intros H. destruct (head (cloze_re s)) as [[d rest]|] eqn:E; [|done].
  by apply cloze_re_head_marker, H in E.
Qed.

Lemma findall_none s :
  (forall a b d rest, s = a ++ b -> ~ marker_at code_payload b d rest) -> findall s = [].
Proof.
  induction s as [|c r IH]; [done|]. intros H.
  rewrite findall_no_match.
  - apply IH. intros a b d rest ->. by apply (H (String c a) b).
  - apply head_cloze_re_none. intros d rest. by apply (H "" (String c r)).
Qed.

Lemma findall_skip_pre pre s :
  (forall a b d rest, pre = a ++ b -> b <> "" ->
     ~ marker_at code_payload (b ++ s) d rest) ->
  findall (pre ++ s) = findall s.
Proof.
  induction pre as [|c pre IH]; [done|]. intros H.
  rewrite sapp_cons, findall_no_match.
  - apply IH. intros a b d rest -> Hb. by apply (H (String c a) b).
  - apply head_cloze_re_none. intros d rest. by apply (H "" (String c pre)).
Qed.

(** The scan of a text is what [re.findall] returns for it. *)
Lemma scans_findall s l : scans code_payload s l -> findall s = l.
Proof.
  induction 1 as [s H|pre s d rest l Hpre Hm _ IH].
  - by apply findall_none.
  - rewrite findall_skip_pre by done.
    apply cloze_re_head_marker in Hm. by rewrite (findall_match _ _ _ Hm), IH.
Qed.

Lemma scans_cons payload c r l :
  (forall d rest, ~ marker_at payload (String c r) d rest) ->
  scans payload r l -> scans payload (String c r) l.
Proof.
  intros Hno Hs. destruct Hs as [s H|pre s d rest l Hpre Hm Hs].
  - apply scans_none. intros [|c' a] b d rest Heq.
    + rewrite sapp_nil_l in Heq. subst b. apply Hno.
    + rewrite sapp_cons in Heq. injection Heq as _ ->. by apply (H a b).
  - rewrite <- sapp_cons. apply (scans_marker payload (String c pre) s d rest); [|done..].
    intros [|c' a] b d' rest' Heq Hb.
    + rewrite sapp_nil_l in Heq. subst b. rewrite sapp_cons. apply Hno.
    + rewrite sapp_cons in Heq. injection Heq as _ ->. by apply (Hpre a b).
Qed.

Lemma findall_scans_bounded n s :
  (String.length s <= n)%nat -> scans code_payload s (findall s).
Proof.
  revert s. induction n as [|n IH]; intros s Hlen.
  - destruct s; [|simpl in Hlen; lia]. apply scans_none.
    intros a b d rest Heq. destruct a, b; try discriminate Heq.
    apply marker_at_nonempty.
  - destruct s as [|c r].
    { apply scans_none. intros a b d rest Heq. destruct a, b; try discriminate Heq.
      apply marker_at_nonempty. }
    destruct (head (cloze_re (String c r))) as [[d rest]|] eqn:E.
    + rewrite (findall_match _ _ _ E).
      pose proof E as Hm%cloze_re_head_marker.
      apply (scans_marker code_payload "" (String c r) d rest); [|done|].
      * intros a b d' rest' Heq Hb. by destruct a, b.
      * apply IH. destruct Hm as (p & Hs & _). rewrite marker_app in Hs.
        apply (f_equal String.length) in Hs. rewrite !slength_app in Hs.
        simpl in Hs, Hlen. lia.
    + rewrite (findall_no_match _ _ E). apply scans_cons.
      * intros d rest Hm%cloze_re_head_marker. congruence.
      * apply IH. simpl in Hlen. lia.
Qed.

Lemma findall_scans s : scans code_payload s (findall s).
Proof. by apply (findall_scans_bounded (String.length s)). Qed.

Lemma app_split_nil p1 p2 : "" = p1 ++ p2 -> p1 = "" /\ p2 = "".
Proof. by destruct p1, p2. Qed.

Lemma app_split_cons c s p1 p2 :
  String c s = p1 ++ p2 ->
  (p1 = "" /\ p2 = String c s) \/ exists q, p1 = String c q /\ s = q ++ p2.
Proof.
  destruct p1 as [|c' q]; [by left|]. rewrite sapp_cons. intros [= -> ->]. eauto.
Qed.

(** C3, as stated, fails: with a marker as the specification words it
    (any payload, also none, up to the first closing parentheses), the
    text [((c1::))((c2::x))] has the markers 1 and 2 and the scanner
    returns [{1}]; the text [((c1::a], line feed, [b))] has the marker 1
    and the scanner returns the empty set. *)
Lemma scan_misses_markers_of_the_specification :
  scans spec_payload "((c1::))((c2::x))" ["1"; "2"]
  /\ get_cloze_nums "((c1::))((c2::x))" = Ok {[1%N]}
  /\ scans spec_payload ("((c1::a" ++ String Str.newline "b))") ["1"]
  /\ get_cloze_nums ("((c1::a" ++ String Str.newline "b))") = Ok ∅.
Proof.
  assert (scans spec_payload "" []) as Hend.
  { apply scans_none. intros a b d rest [_ ->]%app_split_nil. apply marker_at_nonempty. }
  assert (forall a b, "" = a ++ b -> b <> "" -> False) as Hpre.
  { by intros a b [_ ->]%app_split_nil. }
  split; [|split; [by vm_compute|split; [|by vm_compute]]].
  - apply (scans_marker spec_payload "" "((c1::))((c2::x))" "1" "((c2::x))").
    + intros a b d' rest' Heq Hb. by destruct (Hpre a b).
    + exists "". split; [done|]. split; [done|]. split; [done|]. split; [done|].
      by intros p1 p2 r [_ ->]%app_split_nil.
    + apply (scans_marker spec_payload "" "((c2::x))" "2" "").
      * intros a b d' rest' Heq Hb. by destruct (Hpre a b).
      * exists "x". split; [done|]. split; [done|]. split; [done|]. split; [done|].
        intros p1 p2 r [[_ ->]|(q & _ & [_ ->]%app_split_nil)]%app_split_cons _ Hp2;
          done.
      * exact Hend.
  - apply (scans_marker spec_payload "" ("((c1::a" ++ String Str.newline "b))") "1" "").
    + intros a b d' rest' Heq Hb. by destruct (Hpre a b).
    + exists ("a" ++ String Str.newline "b").
      split; [done|]. split; [done|]. split; [done|]. split; [done|].
      intros p1 p2 r Hp _ Hp2.
      apply app_split_cons in Hp as [[_ ->]|(q1 & _ & Hp)]; [done|].
      apply app_split_cons in Hp as [[_ ->]|(q2 & _ & Hp)]; [done|].
      apply app_split_cons in Hp as [[_ ->]|(q3 & _ & [_ ->]%app_split_nil)]; done.
    + exact Hend.
Qed.

(** C3, amended: a marker the scanner sees has a payload of one character
    at least and no line feed, ending at the first closing parentheses
    after its first character.  Every text has a scan from left to right
    without overlap for such markers, and one only; where the digit runs
    of the markers of that scan are within the limit of [int()], the
    scanner returns a set, and the set holds exactly the values of those
    digit runs, each once: [{1, 2}] on the documented example, the empty
    set where there is no marker, [{1}] for a repeated identifier. *)
Theorem get_cloze_nums_scans :
  get_cloze_nums "((c1::I)) ((c2::am)) hungry." = Ok {[1%N; 2%N]}
  /\ get_cloze_nums "no markers here" = Ok ∅
  /\ get_cloze_nums "((c1::a)) ((c1::b))" = Ok {[1%N]}
  /\ (forall content, exists l, scans code_payload content l)
  /\ (forall content l l',
        scans code_payload content l -> scans code_payload content l' -> l = l')
  /\ (forall content l,
        scans code_payload content l ->
        (forall d, d ∈ l -> within_int_limit d) ->
        exists nums : gset N,
          get_cloze_nums content = Ok nums
          /\ forall n, n ∈ nums <-> exists d, d ∈ l /\ Str.int_of_digits d = Ok n).
Proof.
  split; [by vm_compute|]. split; [by vm_compute|]. split; [by vm_compute|].
  split; [|split].
  - intros content. exists (findall content). apply findall_scans.
  - intros content l l' H1%scans_findall H2%scans_findall. congruence.
  - intros content l Hl%scans_findall _. subst l. apply get_cloze_nums_spec.
Qed.

Lemma get_cloze_nums_scans_witness :
  exists nums : gset N,
    get_cloze_nums "I ((c2::am)) ((c10::hungry))" = Ok nums
    /\ forall n, n ∈ nums <-> exists d, d ∈ ["2"; "10"] /\ Str.int_of_digits d = Ok n.
Proof.
  apply (proj2 (proj2 (proj2 (proj2 (proj2 get_cloze_nums_scans))))
           "I ((c2::am)) ((c10::hungry))" ["2"; "10"]).
  - exact (findall_scans "I ((c2::am)) ((c10::hungry))").
  - intros d Hd.
    repeat (apply elem_of_cons in Hd as [->|Hd]; [by vm_compute|]).
    by apply not_elem_of_nil in Hd.
Defined.

(** C4, as stated, fails: the payload [.+?] needs one character, so the
    marker with the empty payload is not scanned. *)
Lemma wrapped_empty_payload_not_scanned :
  exists nums : gset N, get_cloze_nums (wrapped 1 "") = Ok nums /\ 1%N ∉ nums.
Proof. exists ∅. split; [by vm_compute|]. set_solver. Qed.

(** C4, amended: for every identifier [n] and every payload [p] that is not
    empty and holds no line feed, scanning the wrapped text [((cn::p))]
    yields a set that contains [n]. *)
Theorem wrapped_scan_roundtrip (n : N) (p : string) :
  p <> "" -> Str.all Str.is_dot p = true ->
  exists nums : gset N, get_cloze_nums (wrapped n p) = Ok nums /\ n ∈ nums.
Proof.
  intros Hp1 Hp2.
  destruct (get_cloze_nums_spec (wrapped n p)) as (nums & Hnums & Hin).
  exists nums. split; [done|]. apply Hin. exists (Str.of_N n).
  split; [|apply int_of_N].
  destruct (cloze_re_head (Str.of_N n) p "") as [rest Hhd];
    [apply of_N_nonempty|apply of_N_digits|done..|].
  rewrite sapp_nil_r in Hhd. by eapply findall_head.
Qed.

Lemma wrapped_scan_roundtrip_witness :
  exists nums : gset N, get_cloze_nums (wrapped 7 "am") = Ok nums /\ 7%N ∈ nums.
Proof. apply wrapped_scan_roundtrip; [discriminate|reflexivity]. Defined.

(** ** The pattern of the numbered fields *)

Lemma at_end_inv r : Re.at_end r = true -> r = "" \/ r = String Str.newline "".
Proof.
  destruct r as [|c [|c' r']]; simpl; [by left| |discriminate].
  intros Hc. right. f_equal. by apply Ascii.eqb_eq.
Qed.

(** A name matches exactly when it is the cloze field's name, a run of
    digits, and possibly one final line feed. *)
Lemma cloze_field_regex_Some base nm g :
  cloze_field_regex base nm = Some g ->
  g <> "" /\ Str.all Str.is_digit g = true
  /\ (nm = base ++ g \/ nm = base ++ g ++ String Str.newline "").
Proof.
  unfold cloze_field_regex. intros H%head_Some_elem_of.
  apply list_elem_of_bind in H as ([m1 r1] & H & H1).
  apply list_elem_of_bind in H as ([m2 r2] & H & H2).
  simpl in *. apply lit_elem in H1 as [-> ->].
  apply plus_greedy_elem in H2 as (-> & ? & ?).
  destruct (Re.at_end r2) eqn:E; [|by apply not_elem_of_nil in H].
  apply list_elem_of_singleton in H as ->.
  split; [done|]. split; [done|].
  destruct (at_end_inv _ E) as [-> | ->]; [left|right]; by rewrite ?sapp_nil_r.
Qed.

Lemma cloze_field_regex_complete base g tail :
  g <> "" -> Str.all Str.is_digit g = true ->
  tail = "" \/ tail = String Str.newline "" ->
  cloze_field_regex base (base ++ g ++ tail) = Some g.
Proof.
  intros Hg1 Hg2 Ht. unfold cloze_field_regex. rewrite lit_app. simpl mbind.
  destruct (plus_greedy_head Str.is_digit g tail) as [tl ->]; [done..| |].
  { by destruct Ht as [-> | ->]. }
  simpl. by destruct Ht as [-> | ->].
Qed.

Lemma cloze_field_regex_int base nm g :
  cloze_field_regex base nm = Some g -> exists n, Str.int_of_digits g = Ok n.
Proof.
  intros (? & ? & _)%cloze_field_regex_Some. by apply int_of_digits_ok.
Qed.

(** ** The reconciler of the editor *)

Lemma numbered_cons_None base f fl n :
  cloze_field_regex base (name f) = None ->
  numbered base (f :: fl) n <-> numbered base fl n.
Proof.
  intros Hf. split.
  - intros (f' & g & [->|Hin]%elem_of_cons & Hg & Hn); [congruence|].
    by exists f', g.
  - intros (f' & g & Hin & Hg & Hn). exists f', g.
    split; [by apply list_elem_of_further|done].
Qed.

Lemma numbered_cons_Some base f fl g n0 n :
  cloze_field_regex base (name f) = Some g -> Str.int_of_digits g = Ok n0 ->
  numbered base (f :: fl) n <-> n = n0 \/ numbered base fl n.
Proof.
  intros Hf Hi. split.
  - intros (f' & g' & [->|Hin]%elem_of_cons & Hg & Hn).
    + left. congruence.
    + right. by exists f', g'.
  - intros [->|(f' & g' & Hin & Hg & Hn)].
    + exists f, g. split; [apply list_elem_of_here|done].
    + exists f', g'. split; [by apply list_elem_of_further|done].
Qed.

Section EditorFacts.

Variable mungeHTML : string -> string.
Variable cloze_nums : gset N.
Variable base : string.

(** One round of the loop over [model["flds"]]. *)
Lemma update_loop_step f fl cmds found w :
  update_loop mungeHTML cloze_nums base (f :: fl) cmds found w =
  match cloze_field_regex base (name f) with
  | None => update_loop mungeHTML cloze_nums base fl cmds found w
  | Some g =>
      match Str.int_of_digits g with
      | Raise e => (w, Raise e)
      | Ok n =>
          match w_fields w !! ord f with
          | None => (w, Raise IndexError)
          | Some cur =>
              if in_one_or_empty (Str.strip cur)
              then update_loop mungeHTML cloze_nums base fl
                     (cmds ++ [JsSetHtml (ord f) (field_content cloze_nums n)])%list
                     (found ∪ {[n]})
                     (set_field w (ord f) (mungeHTML (field_content cloze_nums n)))
              else update_loop mungeHTML cloze_nums base fl cmds (found ∪ {[n]}) w
          end
      end
  end.
Proof.
  simpl. destruct (cloze_field_regex base (name f)) as [g|]; [|done].
  unfold bind at 1, lift. destruct (Str.int_of_digits g) as [n|e]; [|done].
  unfold bind at 1, read_field.
  destruct (w_fields w !! ord f) as [cur|] eqn:Hcur; [|done].
  destruct (in_one_or_empty (Str.strip cur)); [|done].
  unfold bind at 1, write_field.
  apply lookup_lt_Some in Hcur. by rewrite decide_True.
Qed.

(** With every ordinal in range the loop runs to its end; it makes no
    host call and keeps the number of fields. *)
Lemma update_loop_ok fl cmds found w :
  (forall f, f ∈ fl -> (ord f < length (w_fields w))%nat) ->
  exists w' cmds' found',
    update_loop mungeHTML cloze_nums base fl cmds found w
      = (w', Ok ((cmds ++ cmds')%list, found'))
    /\ w_trace w' = w_trace w /\ w_col w' = w_col w
    /\ length (w_fields w') = length (w_fields w).
Proof.
  revert cmds found w. induction fl as [|f fl IH]; intros cmds found w Hr.
  - exists w, [], found. by rewrite List.app_nil_r.
  - rewrite update_loop_step.
    assert (forall w0, length (w_fields w0) = length (w_fields w) ->
              forall f0, f0 ∈ fl -> (ord f0 < length (w_fields w0))%nat) as Hr'.
    { intros w0 -> f0 Hf0. by apply Hr, list_elem_of_further. }
    destruct (cloze_field_regex base (name f)) as [g|] eqn:Hg; [|by apply IH, Hr'].
    destruct (cloze_field_regex_int _ _ _ Hg) as [n ->].
    destruct (lookup_lt_is_Some_2 (w_fields w) (ord f)) as [cur ->].
    { apply Hr, list_elem_of_here. }
    destruct (in_one_or_empty (Str.strip cur)); [|by apply IH, Hr'].
    edestruct IH as (w' & cmds' & found' & -> & Ht & Hc & Hl).
    { apply Hr'. simpl. apply length_insert. }
    exists w', (JsSetHtml (ord f) (field_content cloze_nums n) :: cmds'), found'.
    rewrite <- List.app_assoc. split; [done|]. split; [done|]. split; [done|].
    rewrite Hl. simpl. apply length_insert.
Qed.

(** The numbers found are those of the fields whose name matches. *)
Lemma update_loop_found fl cmds found w w' cmds' found' :
  update_loop mungeHTML cloze_nums base fl cmds found w = (w', Ok (cmds', found')) ->
  forall n, n ∈ found' <-> n ∈ found \/ numbered base fl n.
Proof.
  revert cmds found w. induction fl as [|f fl IH]; intros cmds found w.
  - intros [= <- <- <-] n. split; [by left|].
    intros [?|(f & g & Hf & _)]; [done|]. by apply not_elem_of_nil in Hf.
  - rewrite update_loop_step.
    destruct (cloze_field_regex base (name f)) as [g|] eqn:Hg.
    + destruct (Str.int_of_digits g) as [n0|e] eqn:Hi; [|discriminate].
      destruct (w_fields w !! ord f) as [cur|]; [|discriminate].
      destruct (in_one_or_empty (Str.strip cur)); intros H n;
        rewrite (IH _ _ _ H n), (numbered_cons_Some _ _ _ _ _ n Hg Hi);
        rewrite elem_of_union, elem_of_singleton; tauto.
    + intros H n. rewrite (IH _ _ _ H n), (numbered_cons_None _ _ _ n Hg). tauto.
Qed.

(** A field the loop does not name keeps its value, and the commands
    given so far stay in front. *)
Lemma update_loop_frame fl cmds found w w' r :
  update_loop mungeHTML cloze_nums base fl cmds found w = (w', r) ->
  (forall i, (forall f, f ∈ fl -> ord f <> i) -> w_fields w' !! i = w_fields w !! i)
  /\ (forall cmds' found', r = Ok (cmds', found') -> exists ext, cmds' = (cmds ++ ext)%list).
Proof.
  revert cmds found w. induction fl as [|f fl IH]; intros cmds found w.
  - intros [= <- <-]. split; [done|]. intros ?? [= <- <-]. exists [].
    by rewrite List.app_nil_r.
  - rewrite update_loop_step.
    assert (forall cmds0 found0 w0,
      update_loop mungeHTML cloze_nums base fl cmds0 found0 w0 = (w', r) ->
      (forall i, ord f <> i -> w_fields w0 !! i = w_fields w !! i) ->
      (exists e0, cmds0 = (cmds ++ e0)%list) ->
      (forall i, (forall f0, f0 ∈ f :: fl -> ord f0 <> i) ->
         w_fields w' !! i = w_fields w !! i)
      /\ (forall cmds' found', r = Ok (cmds', found') ->
            exists ext, cmds' = (cmds ++ ext)%list)) as Hgo.
    { intros cmds0 found0 w0 H Hw [e0 ->]. destruct (IH _ _ _ H) as [IH1 IH2]. split.
      - intros i Hi. rewrite IH1.
        + apply Hw, Hi, list_elem_of_here.
        + intros f0 Hf0. by apply Hi, list_elem_of_further.
      - intros cmds' found' Hr. destruct (IH2 _ _ Hr) as [ext ->].
        exists (e0 ++ ext)%list. by rewrite List.app_assoc. }
    assert (exists e0, cmds = (cmds ++ e0)%list) as Hnil.
    { exists []. by rewrite List.app_nil_r. }
    destruct (cloze_field_regex base (name f)) as [g|]; [|intros H; by eapply Hgo].
    destruct (Str.int_of_digits g) as [n0|e].
    2:{ intros [= <- <-]. split; [done|]. discriminate. }
    destruct (w_fields w !! ord f) as [cur|].
    2:{ intros [= <- <-]. split; [done|]. discriminate. }
    destruct (in_one_or_empty (Str.strip cur)); intros H; [|by eapply Hgo].
    eapply Hgo; [exact H| |by eexists].
    intros i Hi. simpl. by apply list_lookup_insert_ne.
Qed.

(** A field whose stripped value is neither ["1"] nor empty is never
    written, and no command is issued for it. *)
Lemma update_loop_protected fl cmds found w w' r i v :
  w_fields w !! i = Some v -> in_one_or_empty (Str.strip v) = false ->
  update_loop mungeHTML cloze_nums base fl cmds found w = (w', r) ->
  w_fields w' !! i = Some v
  /\ forall cmds' found', r = Ok (cmds', found') ->
       forall c, JsSetHtml i c ∈ cmds' -> JsSetHtml i c ∈ cmds.
Proof.
  intros Hv Hguard. revert cmds found w Hv.
  induction fl as [|f fl IH]; intros cmds found w Hv.
  - intros [= <- <-]. split; [done|]. by intros ?? [= <- <-].
  - rewrite update_loop_step.
    destruct (cloze_field_regex base (name f)) as [g|]; [|by apply IH].
    destruct (Str.int_of_digits g) as [n0|e].
    2:{ intros [= <- <-]. split; [done|]. discriminate. }
    destruct (w_fields w !! ord f) as [cur|] eqn:Hcur.
    2:{ intros [= <- <-]. split; [done|]. discriminate. }
    destruct (in_one_or_empty (Str.strip cur)) eqn:Hg; [|by apply IH].
    assert (ord f <> i) as Hne by (intros Heq; rewrite Heq in Hcur; congruence).
    intros H. eapply IH in H as [H1 H2].
    2:{ simpl. by rewrite list_lookup_insert_ne. }
    split; [done|]. intros cmds' found' Hr c Hc.
    specialize (H2 _ _ Hr c Hc).
    apply elem_of_app in H2 as [?|[= ? _]%list_elem_of_singleton]; done.
Qed.

(** A numbered field whose stripped value is ["1"] or empty is written
    with the wanted content, and a command is issued for it. *)
Lemma update_loop_overwrites fl cmds found w w' cmds' found' f g n v :
  NoDup (ord <$> fl) -> f ∈ fl ->
  cloze_field_regex base (name f) = Some g -> Str.int_of_digits g = Ok n ->
  w_fields w !! ord f = Some v -> in_one_or_empty (Str.strip v) = true ->
  update_loop mungeHTML cloze_nums base fl cmds found w = (w', Ok (cmds', found')) ->
  w_fields w' !! ord f = Some (mungeHTML (field_content cloze_nums n))
  /\ JsSetHtml (ord f) (field_content cloze_nums n) ∈ cmds'.
Proof.
  intros Hnd Hf Hg Hn. revert cmds found w Hnd Hf.
  induction fl as [|f0 fl IH]; intros cmds found w Hnd Hf Hv Hguard.
  - by apply not_elem_of_nil in Hf.
  - rewrite fmap_cons in Hnd. apply NoDup_cons in Hnd as [Hnotin Hnd].
    rewrite update_loop_step.
    apply elem_of_cons in Hf as [<-|Hf].
    + rewrite Hg, Hn, Hv, Hguard. intros H.
      apply update_loop_frame in H as [H1 H2]. split.
      * rewrite H1.
        -- simpl. apply list_lookup_insert_eq. by eapply lookup_lt_Some.
        -- intros f0 Hf0 Heq. apply Hnotin. rewrite <- Heq.
           apply list_elem_of_fmap. eauto.
      * destruct (H2 _ _ eq_refl) as [ext ->].
        rewrite !elem_of_app, list_elem_of_singleton. auto.
    + assert (ord f0 <> ord f) as Hne.
      { intros Heq. apply Hnotin. rewrite Heq. apply list_elem_of_fmap. eauto. }
      destruct (cloze_field_regex base (name f0)) as [g0|]; [|by apply IH].
      destruct (Str.int_of_digits g0) as [n0|e]; [|discriminate].
      destruct (w_fields w !! ord f0) as [cur|]; [|discriminate].
      destruct (in_one_or_empty (Str.strip cur)); [|by apply IH].
      apply IH; [done..| |done]. simpl. by rewrite list_lookup_insert_ne.
Qed.

End EditorFacts.

(** ** Stripping *)

Lemma lstrip_spaces a s : Str.all Str.is_space a = true -> Str.lstrip (a ++ s) = Str.lstrip s.
Proof.
  induction a as [|c a IH]; [done|]. simpl.
  intros [Hc Ha]%andb_true_iff. rewrite Hc. by apply IH.
Qed.

Lemma rstrip_spaces b : Str.all Str.is_space b = true -> Str.rstrip b = "".
Proof.
  induction b as [|c b IH]; [done|]. simpl.
  intros [Hc Hb]%andb_true_iff. by rewrite IH, Hc.
Qed.

Lemma strip_spaces v : Str.all Str.is_space v = true -> Str.strip v = "".
Proof.
  intros Hv. unfold Str.strip. rewrite <- (sapp_nil_r v), lstrip_spaces by done.
  done.
Qed.

Lemma strip_padded_one a b :
  Str.all Str.is_space a = true -> Str.all Str.is_space b = true ->
  Str.strip (a ++ "1" ++ b) = "1".
Proof.
  intros Ha Hb. unfold Str.strip. rewrite lstrip_spaces by done.
  simpl. by rewrite rstrip_spaces.
Qed.

(** ** The safety rule of the editor's reconciler *)

(** C2, as stated, fails: a numbered field that holds ["1"] between
    blanks is none of the active marker, the empty string and the
    placeholder, and yet it is overwritten. *)
Lemma safe_mode_overwrites_padded_marker :
  let model := {| flds := [ {| name := "ExpressionCloze"; ord := 0 |};
                            {| name := "ExpressionCloze1"; ord := 1 |} ];
                  tmpls := [] |} in
  let w := {| w_fields := ["text"; " 1 "]; w_col := ∅; w_trace := [] |} in
  " 1 " <> "1" /\ " 1 " <> "" /\ " 1 " <> "<br>"
  /\ exists found,
       update_cloze_fields anki_mungeHTML ∅ "ExpressionCloze" model w
       = ({| w_fields := ["text"; ""]; w_col := ∅; w_trace := [] |},
          Ok ([JsSetHtml 1 "<br>"], found)).
Proof. repeat split; try discriminate. eexists. by vm_compute. Qed.

(** C2, amended: for every field whose current value, once stripped of
    surrounding white space, is neither ["1"] nor empty (["custom text"]
    for one), [update_cloze_fields] leaves the value as it is and issues no
    command for the field, whatever the identifier set. *)
Theorem safe_mode_keeps_manual_content
    (mungeHTML : string -> string) (cloze_nums : gset N) (base : string)
    (model : model_t) (w : world) (i : nat) (v : string) :
  w_fields w !! i = Some v ->
  in_one_or_empty (Str.strip v) = false ->
  w_fields (update_cloze_fields mungeHTML cloze_nums base model w).1 !! i = Some v
  /\ forall cmds found,
       (update_cloze_fields mungeHTML cloze_nums base model w).2 = Ok (cmds, found) ->
       forall c, JsSetHtml i c ∉ cmds.
Proof.
  intros Hv Hg. unfold update_cloze_fields.
  destruct (update_loop mungeHTML cloze_nums base (flds model) [] ∅ w) as [w' r] eqn:E.
  destruct (update_loop_protected _ _ _ _ _ _ _ _ _ _ _ Hv Hg E) as [H1 H2].
  split; [done|]. simpl. intros cmds found Hr c Hc.
  by eapply not_elem_of_nil, H2.
Qed.

Lemma safe_mode_keeps_manual_content_witness :
  let model := {| flds := [ {| name := "ExpressionCloze"; ord := 0 |};
                            {| name := "ExpressionCloze1"; ord := 1 |} ];
                  tmpls := [] |} in
  let w := {| w_fields := ["((c1::text))"; "custom text"]; w_col := ∅; w_trace := [] |} in
  w_fields (update_cloze_fields anki_mungeHTML {[1%N]} "ExpressionCloze" model w).1 !! 1%nat
    = Some "custom text"
  /\ forall cmds found,
       (update_cloze_fields anki_mungeHTML {[1%N]} "ExpressionCloze" model w).2
         = Ok (cmds, found) ->
       forall c, JsSetHtml 1 c ∉ cmds.
Proof.
  intros model w.
  apply (safe_mode_keeps_manual_content anki_mungeHTML {[1%N]} "ExpressionCloze"
           model w 1 "custom text"); reflexivity.
Defined.

(** C10: the guard looks at the stripped value only.  A numbered field
    whose value is white space, or ["1"] between white space, is taken for
    a managed one: it is overwritten with the wanted content and a command
    is issued for it. *)
Theorem safe_mode_overwrites_blank_values
    (mungeHTML : string -> string) (cloze_nums : gset N) (base : string)
    (model : model_t) (w : world) (f : field) (g : string) (n : N) (v : string) :
  NoDup (ord <$> flds model) ->
  (forall f0, f0 ∈ flds model -> (ord f0 < length (w_fields w))%nat) ->
  f ∈ flds model ->
  cloze_field_regex base (name f) = Some g -> Str.int_of_digits g = Ok n ->
  w_fields w !! ord f = Some v ->
  (Str.all Str.is_space v = true
   \/ exists a b, Str.all Str.is_space a = true /\ Str.all Str.is_space b = true
                  /\ v = a ++ "1" ++ b) ->
  in_one_or_empty (Str.strip v) = true
  /\ exists w' cmds found,
       update_cloze_fields mungeHTML cloze_nums base model w = (w', Ok (cmds, found))
       /\ w_fields w' !! ord f = Some (mungeHTML (field_content cloze_nums n))
       /\ JsSetHtml (ord f) (field_content cloze_nums n) ∈ cmds.
Proof.
  intros Hnd Hr Hf Hg Hn Hv Hblank.
  assert (in_one_or_empty (Str.strip v) = true) as Hguard.
  { destruct Hblank as [Hs|(a & b & Ha & Hb & ->)].
    - by rewrite strip_spaces.
    - by rewrite strip_padded_one. }
  split; [done|]. unfold update_cloze_fields.
  destruct (update_loop_ok mungeHTML cloze_nums base (flds model) [] ∅ w Hr)
    as (w' & cmds & found & E & _).
  exists w', cmds, found. split; [done|].
  by eapply update_loop_overwrites.
Qed.

Lemma safe_mode_overwrites_blank_values_witness :
  let model := {| flds := [ {| name := "ExpressionCloze"; ord := 0 |};
                            {| name := "ExpressionCloze1"; ord := 1 |} ];
                  tmpls := [] |} in
  let w := {| w_fields := ["text"; " 1 "]; w_col := ∅; w_trace := [] |} in
  in_one_or_empty (Str.strip " 1 ") = true
  /\ exists w' cmds found,
       update_cloze_fields anki_mungeHTML ∅ "ExpressionCloze" model w
         = (w', Ok (cmds, found))
       /\ w_fields w' !! 1%nat = Some (anki_mungeHTML (field_content ∅ 1))
       /\ JsSetHtml 1 (field_content ∅ 1) ∈ cmds.
Proof.
  intros model w.
  apply (safe_mode_overwrites_blank_values anki_mungeHTML ∅ "ExpressionCloze" model w
           {| name := "ExpressionCloze1"; ord := 1 |} "1" 1 " 1 ").
  - apply (bool_decide_unpack _). vm_compute. exact I.
  - intros f0 Hf0. vm_compute in Hf0.
    repeat (apply elem_of_cons in Hf0 as [->|Hf0]; [simpl; lia|]).
    by apply not_elem_of_nil in Hf0.
  - simpl. set_solver.
  - reflexivity.
  - reflexivity.
  - reflexivity.
  - right. exists " ", " ". repeat split.
Defined.

(** ** Identifier sets *)

Lemma foldr_max_spec (l : list N) :
  l <> [] ->
  foldr N.max 0%N l ∈ l /\ forall x, x ∈ l -> (x <= foldr N.max 0%N l)%N.
Proof.
  induction l as [|a l IH]; [done|]. intros _. simpl.
  destruct l as [|b l'].
  - simpl. rewrite N.max_0_r. split; [apply list_elem_of_here|].
    intros x ->%list_elem_of_singleton. lia.
  - destruct IH as [IH1 IH2]; [done|]. set (m := foldr N.max 0%N (b :: l')) in *.
    split.
    + destruct (N.max_spec a m) as [[_ ->]|[_ ->]];
        [by apply list_elem_of_further|apply list_elem_of_here].
    + intros x [->|Hx]%elem_of_cons; [lia|]. specialize (IH2 x Hx). lia.
Qed.

Lemma set_max_spec (X : gset N) :
  X <> ∅ -> set_max X ∈ X /\ forall x, x ∈ X -> (x <= set_max X)%N.
Proof.
  intros HX. unfold set_max.
  destruct (foldr_max_spec (elements X)) as [H1 H2].
  { intros E. by apply elements_empty_inv, leibniz_equiv in E. }
  split; [by apply elem_of_elements|].
  intros x Hx. by apply H2, elem_of_elements.
Qed.

Lemma sorted_spec (X : gset N) :
  Sorted N.le (sorted X) /\ forall n, n ∈ sorted X <-> n ∈ X.
Proof.
  unfold sorted. split; [apply Sorted_merge_sort, _|].
  intros n. by rewrite merge_sort_Permutation, elem_of_elements.
Qed.

(** ** The insert-marker request *)

Lemma py_index_nat {A} (l : list A) (i : nat) :
  py_index l (Z.of_nat i) =
  match l !! i with Some a => Ok a | None => Raise IndexError end.
Proof.
  unfold py_index. cbv zeta.
  assert ((Z.of_nat i <? 0)%Z = false) as -> by (apply Z.ltb_ge; lia).
  assert ((Z.of_nat i <? 0)%Z = false) as -> by (apply Z.ltb_ge; lia).
  by rewrite Nat2Z.id.
Qed.

(** Running a [let*]. *)
Lemma bind_run {A B} (m : M A) (k : A -> M B) w w' a :
  m w = (w', Ok a) -> bind m k w = k a w'.
Proof. intros H. unfold bind. by rewrite H. Qed.

Lemma bind_raise {A B} (m : M A) (k : A -> M B) w w' e :
  m w = (w', Raise e) -> bind m k w = (w', Raise e).
Proof. intros H. unfold bind. by rewrite H. Qed.

Lemma read_field_run i v w : w_fields w !! i = Some v -> read_field i w = (w, Ok v).
Proof. intros H. unfold read_field. by rewrite H. Qed.

(** What [onCloze] does on a non-empty field whose name ends in [Cloze],
    in a note type that is not a native cloze type. *)
Lemma onCloze_insert mungeHTML self nid model w qfmt tl content f :
  ed_note self = Some (nid, model) ->
  tmpls model = qfmt :: tl -> search_cloze_tmpl qfmt = false ->
  w_fields w !! currentField self = Some content -> content <> "" ->
  flds model !! currentField self = Some f ->
  Str.endswith (name f) "Cloze" = true ->
  (forall f0, f0 ∈ flds model -> (ord f0 < length (w_fields w))%nat) ->
  exists (cloze_nums : gset N) w1 cmds found,
    get_cloze_nums content = Ok cloze_nums
    /\ let next := next_cloze_num cloze_nums (alt_modifier self) in
       let all_nums := cloze_nums ∪ {[next]} in
       update_cloze_fields mungeHTML all_nums (name f) model w = (w1, Ok (cmds, found))
       /\ onCloze mungeHTML self w =
          ({| w_fields := w_fields w1; w_col := w_col w;
              w_trace := w_trace w ++ WebEval (JsWrap next :: cmds)
                           :: (if bool_decide (all_nums ∖ found ≠ ∅)
                               then [Tooltip (missing_message (name f) (all_nums ∖ found))]
                               else []) |}, Ok tt).
Proof.
  intros Hnote Htm Hq Hcur Hne Hf Hend Hr.
  destruct (get_cloze_nums_total content) as [cloze_nums Hnums].
  set (next := next_cloze_num cloze_nums (alt_modifier self)).
  destruct (update_loop_ok mungeHTML (cloze_nums ∪ {[next]}) (name f) (flds model) [] ∅ w Hr)
    as (w1 & cmds & found & E & Ht & Hc & _).
  exists cloze_nums, w1, cmds, found. split; [done|]. split; [done|].
  unfold onCloze. rewrite Hnote, Htm.
  rewrite (bind_run _ _ w w qfmt) by reflexivity. rewrite Hq.
  rewrite (bind_run _ _ w w content) by by apply read_field_run.
  rewrite (bind_run _ _ w w f) by (unfold lift; by rewrite py_index_nat, Hf).
  destruct (String.eqb_spec content "") as [?|_]; [done|].
  rewrite Hend. cbn [negb].
  rewrite (bind_run _ _ w w content) by by apply read_field_run.
  rewrite (bind_run _ _ w w cloze_nums) by (unfold lift; by rewrite Hnums).
  fold next. rewrite (bind_run _ _ w w1 (cmds, found)) by exact E.
  unfold bind, emit, missing_message. simpl.
  destruct w1 as [fs1 col1 tr1]. simpl in *. subst col1 tr1.
  destruct (bool_decide _); [|done]. simpl. by rewrite <- List.app_assoc.
Qed.

Example next_cloze_num_fresh : next_cloze_num ∅ false = 1%N /\ next_cloze_num ∅ true = 1%N.
Proof. by vm_compute. Qed.

Example next_cloze_num_1_3 :
  next_cloze_num {[1%N; 3%N]} false = 4%N /\ next_cloze_num {[1%N; 3%N]} true = 3%N.
Proof. by vm_compute. Qed.

(** C5: on a non-empty field whose name ends in [Cloze], [onCloze] sends
    the wrap command first, with identifier 1 when the field holds no
    marker (with or without Alt), with the greatest identifier of the
    field when Alt is held, and with that identifier plus one otherwise. *)
Theorem onCloze_proposes_identifier
    (mungeHTML : string -> string) (self : editor) (nid : Z) (model : model_t)
    (w : world) (qfmt : string) (tl : list string) (content : string) (f : field) :
  ed_note self = Some (nid, model) ->
  tmpls model = qfmt :: tl -> search_cloze_tmpl qfmt = false ->
  w_fields w !! currentField self = Some content -> content <> "" ->
  flds model !! currentField self = Some f ->
  Str.endswith (name f) "Cloze" = true ->
  (forall f0, f0 ∈ flds model -> (ord f0 < length (w_fields w))%nat) ->
  exists (cloze_nums : gset N) (n : N) w' cmds later,
    get_cloze_nums content = Ok cloze_nums
    /\ onCloze mungeHTML self w = (w', Ok tt)
    /\ w_trace w' = (w_trace w ++ WebEval (JsWrap n :: cmds) :: later)%list
    /\ (cloze_nums = ∅ -> n = 1%N)
    /\ (cloze_nums <> ∅ ->
        exists m, m ∈ cloze_nums /\ (forall x, x ∈ cloze_nums -> (x <= m)%N)
                  /\ n = if alt_modifier self then m else (m + 1)%N).
Proof.
  intros Hnote Htm Hq Hcur Hne Hf Hend Hr.
  destruct (onCloze_insert mungeHTML self nid model w qfmt tl content f)
    as (cloze_nums & w1 & cmds & found & Hnums & _ & Hrun); [done..|].
  eexists cloze_nums, (next_cloze_num cloze_nums (alt_modifier self)), _, cmds, _.
  split; [done|]. split; [exact Hrun|]. split; [done|].
  unfold next_cloze_num. split.
  - intros ->. by rewrite bool_decide_eq_false_2 by (by intros []).
  - intros HX. rewrite bool_decide_eq_true_2 by done.
    destruct (set_max_spec cloze_nums HX) as [H1 H2].
    exists (set_max cloze_nums). by destruct (alt_modifier self).
Qed.

Lemma onCloze_proposes_identifier_witness :
  let model := {| flds := [ {| name := "Expression"; ord := 0 |};
                            {| name := "ExpressionCloze"; ord := 1 |};
                            {| name := "ExpressionCloze1"; ord := 2 |} ];
                  tmpls := ["{{Expression}}"] |} in
  let self := {| ed_note := Some (7%Z, model); currentField := 1; alt_modifier := true |} in
  let w := {| w_fields := ["a b"; "((c1::a)) ((c3::b))"; "1"]; w_col := ∅; w_trace := [] |} in
  exists (cloze_nums : gset N) (n : N) w' cmds later,
    get_cloze_nums "((c1::a)) ((c3::b))" = Ok cloze_nums
    /\ onCloze anki_mungeHTML self w = (w', Ok tt)
    /\ w_trace w' = (w_trace w ++ WebEval (JsWrap n :: cmds) :: later)%list
    /\ (cloze_nums = ∅ -> n = 1%N)
    /\ (cloze_nums <> ∅ ->
        exists m, m ∈ cloze_nums /\ (forall x, x ∈ cloze_nums -> (x <= m)%N)
                  /\ n = if alt_modifier self then m else (m + 1)%N).
Proof.
  intros model self w.
  apply (onCloze_proposes_identifier anki_mungeHTML self 7%Z model w
           "{{Expression}}" [] "((c1::a)) ((c3::b))"
           {| name := "ExpressionCloze"; ord := 1 |}).
  - reflexivity.
  - reflexivity.
  - reflexivity.
  - reflexivity.
  - discriminate.
  - reflexivity.
  - reflexivity.
  - intros f0 Hf0. simpl in Hf0.
    repeat (apply elem_of_cons in Hf0 as [->|Hf0]; [simpl; lia|]).
    by apply not_elem_of_nil in Hf0.
Defined.

(** ** Missing numbered fields *)

Lemma numbered_iff base fl n :
  numbered base fl n <->
  exists f d, f ∈ fl /\ d <> "" /\ Str.all Str.is_digit d = true
              /\ (name f = base ++ d \/ name f = base ++ d ++ String Str.newline "")
              /\ Str.int_of_digits d = Ok n.
Proof.
  split.
  - intros (f & g & Hf & Hg & Hn).
    apply cloze_field_regex_Some in Hg as (? & ? & ?). by exists f, g.
  - intros (f & d & Hf & Hd1 & Hd2 & Hnm & Hn). exists f, d.
    split; [done|]. split; [|done]. destruct Hnm as [-> | ->].
    + rewrite <- (sapp_nil_r d) at 1. apply cloze_field_regex_complete; auto.
    + apply cloze_field_regex_complete; auto.
Qed.

(** C7, as stated, fails: a field whose suffix is [0] is counted as a
    numbered field, and [0] is reported as found, though it is no positive
    integer. *)
Lemma found_identifiers_beyond_positive_suffixes :
  let model := {| flds := [ {| name := "Field0"; ord := 0 |};
                            {| name := "Field1"; ord := 1 |} ];
                  tmpls := [] |} in
  let w := {| w_fields := ["x"; "y"]; w_col := ∅; w_trace := [] |} in
  (update_cloze_fields anki_mungeHTML {[1%N; 2%N; 3%N]} "Field" model w).2
    = Ok ([], {[0%N; 1%N]})
  /\ ~ spec_numbered "Field" (flds model) 0.
Proof.
  intros model w. split; [by vm_compute|]. intros [Hpos _]. lia.
Qed.

(** The numbered fields of a note type whose names hold no line feed. *)
Lemma numbered_single_line base fl n :
  (forall f, f ∈ fl -> Str.all Str.is_dot (name f) = true) ->
  numbered base fl n <->
  exists f d, f ∈ fl /\ d <> "" /\ Str.all Str.is_digit d = true
              /\ name f = base ++ d /\ Str.int_of_digits d = Ok n.
Proof.
  intros Hdot. rewrite numbered_iff. split.
  - intros (f & d & Hf & Hd1 & Hd2 & [Hnm|Hnm] & Hn); [by exists f, d|].
    specialize (Hdot f Hf). rewrite Hnm, !all_app in Hdot.
    apply andb_true_iff in Hdot as [_ [_ Hdot]%andb_true_iff]. discriminate Hdot.
  - intros (f & d & Hf & Hd1 & Hd2 & Hnm & Hn). exists f, d. auto 6.
Qed.

(** What [sorted] makes of a set: its elements, each once, in ascending
    order. *)
Lemma sorted_ascending (X : gset N) :
  Sorted N.le (sorted X) /\ NoDup (sorted X) /\ forall n, n ∈ sorted X <-> n ∈ X.
Proof.
  destruct (sorted_spec X) as [Hs Hin]. split; [done|]. split; [|done].
  unfold sorted. rewrite merge_sort_Permutation. apply NoDup_elements.
Qed.

(** C7, amended: on a note type whose field names hold no line feed,
    [update_cloze_fields] returns as found numbers exactly the values
    [int(d)] of the fields named base name then [d], a run of digits that
    is not empty (zero and leading zeros included); a field that only
    contains the base name is not counted.  For [{1, 2, 3}] against
    [Field1] and [Field2] the found set is [{1, 2}].  On the insert path
    [onCloze] reports exactly the identifiers of the field and the
    proposed one that are not found, as field names, each once, in
    ascending order of the numbers, and says nothing when none is
    missing. *)
Theorem found_identifiers_of_numbered_fields :
  (forall (mungeHTML : string -> string) (cloze_nums : gset N) (base : string)
          (model : model_t) (w : world),
     (forall f0, f0 ∈ flds model -> (ord f0 < length (w_fields w))%nat) ->
     (forall f0, f0 ∈ flds model -> Str.all Str.is_dot (name f0) = true) ->
     exists w' cmds (found : gset N),
       update_cloze_fields mungeHTML cloze_nums base model w = (w', Ok (cmds, found))
       /\ forall n, n ∈ found <->
            exists f d, f ∈ flds model /\ d <> "" /\ Str.all Str.is_digit d = true
              /\ name f = base ++ d /\ Str.int_of_digits d = Ok n)
  /\ (update_cloze_fields anki_mungeHTML {[1%N; 2%N; 3%N]} "Field"
        {| flds := [ {| name := "Field1"; ord := 0 |}; {| name := "Field2"; ord := 1 |};
                     {| name := "MyField3"; ord := 2 |} ];
           tmpls := [] |}
        {| w_fields := [""; ""; ""]; w_col := ∅; w_trace := [] |}).2
     = Ok ([JsSetHtml 0 "1"; JsSetHtml 1 "1"], {[1%N; 2%N]})
  /\ (forall (mungeHTML : string -> string) (self : editor) (nid : Z) (model : model_t)
             (w : world) (qfmt : string) (tl : list string) (content : string)
             (f : field),
        ed_note self = Some (nid, model) ->
        tmpls model = qfmt :: tl -> search_cloze_tmpl qfmt = false ->
        w_fields w !! currentField self = Some content -> content <> "" ->
        flds model !! currentField self = Some f ->
        Str.endswith (name f) "Cloze" = true ->
        (forall f0, f0 ∈ flds model -> (ord f0 < length (w_fields w))%nat) ->
        exists (cloze_nums : gset N) (next : N) w1 cmds (found : gset N)
               (missing : list N),
          get_cloze_nums content = Ok cloze_nums
          /\ next = next_cloze_num cloze_nums (alt_modifier self)
          /\ update_cloze_fields mungeHTML (cloze_nums ∪ {[next]}) (name f) model w
             = (w1, Ok (cmds, found))
          /\ Sorted N.le missing /\ NoDup missing
          /\ (forall n, n ∈ missing <-> (n ∈ cloze_nums \/ n = next) /\ n ∉ found)
          /\ w_trace (onCloze mungeHTML self w).1
             = (w_trace w ++ WebEval (JsWrap next :: cmds)
                  :: match missing with
                     | [] => []
                     | _ => [Tooltip ("Not enough cloze fields.  Missing: " ++
                               String.concat ", "
                                 (map (fun n => name f ++ Str.of_N n) missing))%string]
                     end)%list)
  /\ w_trace (onCloze anki_mungeHTML
        {| ed_note := Some (7%Z,
             {| flds := [ {| name := "ExpressionCloze"; ord := 0 |};
                          {| name := "ExpressionCloze1"; ord := 1 |} ];
                tmpls := ["{{Expression}}"] |});
           currentField := 0; alt_modifier := false |}
        {| w_fields := ["((c10::a)) ((c2::b)) c"; ""]; w_col := ∅; w_trace := [] |}).1
     = [ WebEval [JsWrap 11; JsSetHtml 1 "<br>"];
         Tooltip ("Not enough cloze fields.  Missing: "
                  ++ "ExpressionCloze2, ExpressionCloze10, ExpressionCloze11") ].
Proof.
  split; [|split; [by vm_compute|split; [|by vm_compute]]].
  - intros mungeHTML cloze_nums base model w Hr Hdot. unfold update_cloze_fields.
    destruct (update_loop_ok mungeHTML cloze_nums base (flds model) [] ∅ w Hr)
      as (w' & cmds & found & E & _).
    exists w', cmds, found. split; [done|]. intros n.
    rewrite (update_loop_found _ _ _ _ _ _ _ _ _ _ E n), <- numbered_single_line by done.
    split; [intros [?|?]; [set_solver|done]|by right].
  - intros mungeHTML self nid model w qfmt tl content f Hnote Htm Hq Hcur Hne Hf Hend Hr.
    destruct (onCloze_insert mungeHTML self nid model w qfmt tl content f)
      as (cloze_nums & w1 & cmds & found & Hnums & Hupd & Hrun); [done..|].
    set (next := next_cloze_num cloze_nums (alt_modifier self)) in *.
    set (X := (cloze_nums ∪ {[next]}) ∖ found) in *.
    destruct (sorted_ascending X) as (Hs & Hnd & Hin).
    exists cloze_nums, next, w1, cmds, found, (sorted X).
    split; [done|]. split; [done|]. split; [done|]. split; [done|]. split; [done|].
    split.
    { intros n. rewrite Hin. unfold X.
      rewrite elem_of_difference, elem_of_union, elem_of_singleton. done. }
    rewrite Hrun. cbn [fst w_trace]. f_equal. f_equal. unfold missing_message.
    destruct (decide (X = ∅)) as [HX|HX].
    + rewrite bool_decide_eq_false_2 by (by intros []).
      destruct (sorted X) as [|n l]; [done|].
      assert (n ∈ X) as Hn by (apply Hin, list_elem_of_here).
      rewrite HX in Hn. by apply not_elem_of_empty in Hn.
    + rewrite bool_decide_eq_true_2 by done.
      destruct (sorted X) as [|n l]; [|done].
      destruct HX. apply leibniz_equiv. intros n. rewrite <- Hin.
      split; [by intros ?%not_elem_of_nil|by intros ?%not_elem_of_empty].
Qed.

Lemma found_identifiers_of_numbered_fields_witness :
  let model := {| flds := [ {| name := "Field1"; ord := 0 |};
                            {| name := "Field02"; ord := 1 |} ];
                  tmpls := [] |} in
  let w := {| w_fields := ["1"; "custom"]; w_col := ∅; w_trace := [] |} in
  exists w' cmds (found : gset N),
    update_cloze_fields anki_mungeHTML {[1%N; 2%N; 3%N]} "Field" model w
      = (w', Ok (cmds, found))
    /\ forall n, n ∈ found <->
         exists f d, f ∈ flds model /\ d <> "" /\ Str.all Str.is_digit d = true
           /\ name f = "Field" ++ d /\ Str.int_of_digits d = Ok n.
Proof.
  intros model w.
  apply (proj1 found_identifiers_of_numbered_fields anki_mungeHTML
           {[1%N; 2%N; 3%N]} "Field" model w).
  - intros f0 Hf0. simpl in Hf0.
    repeat (apply elem_of_cons in Hf0 as [->|Hf0]; [simpl; lia|]).
    by apply not_elem_of_nil in Hf0.
  - intros f0 Hf0. simpl in Hf0.
    repeat (apply elem_of_cons in Hf0 as [->|Hf0]; [reflexivity|]).
    by apply not_elem_of_nil in Hf0.
Defined.

(** ** Names of cloze fields and of their numbered fields *)

Lemma rtrim_all p x : Str.all p x = true -> rtrim p x = "".
Proof.
  induction x as [|c x IH]; [done|]. simpl.
  intros [Hc Hx]%andb_true_iff. by rewrite IH, Hc.
Qed.

Lemma rtrim_app p s x : Str.all p x = true -> rtrim p (s ++ x) = rtrim p s.
Proof.
  intros Hx. induction s as [|c s IH].
  - rewrite sapp_nil_l. by apply rtrim_all.
  - rewrite sapp_cons. simpl. by rewrite IH.
Qed.

Lemma rtrim_length p s : (String.length (rtrim p s) <= String.length s)%nat.
Proof.
  induction s as [|c s IH]; [done|]. simpl.
  destruct (rtrim p s) as [|c' r'].
  - destruct (p c); simpl; lia.
  - simpl in *. lia.
Qed.

Lemma rtrim_suffix_fixed p pre t :
  t <> "" -> rtrim p t = t -> rtrim p (pre ++ t) = pre ++ t.
Proof.
  intros Ht Hfix. induction pre as [|c pre IH]; [done|].
  rewrite sapp_cons. simpl. rewrite IH.
  destruct (pre ++ t) as [|c' r'] eqn:E; [|done].
  destruct pre; [|discriminate E]. by rewrite sapp_nil_l in E.
Qed.

Lemma endswith_unfold s p :
  Str.endswith s p =
  String.eqb s p || match s with EmptyString => false | String _ r => Str.endswith r p end.
Proof. by destruct s. Qed.

Lemma endswith_app s p : Str.endswith s p = true -> exists pre, s = pre ++ p.
Proof.
  induction s as [|c s IH]; rewrite endswith_unfold.
  - rewrite orb_false_r. intros ->%String.eqb_eq. by exists "".
  - intros [->%String.eqb_eq|H]%orb_true_iff; [by exists ""|].
    destruct (IH H) as [pre ->]. by exists (String c pre).
Qed.

Lemma cloze_name_fixed s : Str.endswith s "Cloze" = true -> rtrim is_tail_char s = s.
Proof. intros [pre ->]%endswith_app. by apply rtrim_suffix_fixed. Qed.

Lemma numbered_name_rtrim base nm g :
  cloze_field_regex base nm = Some g -> rtrim is_tail_char nm = rtrim is_tail_char base.
Proof.
  intros (Hg1 & Hg2 & Hnm)%cloze_field_regex_Some.
  assert (Str.all is_tail_char g = true) as Hg.
  { clear -Hg2. induction g as [|c g IH]; [done|]. simpl in *.
    apply andb_true_iff in Hg2 as [Hc Hg]. unfold is_tail_char at 1.
    by rewrite Hc, IH. }
  destruct Hnm as [-> | ->]; apply rtrim_app; [done|].
  by rewrite all_app, Hg.
Qed.

(** A numbered field belongs to one cloze field only. *)
Lemma numbered_base_unique b1 b2 nm g1 g2 :
  cloze_field_regex b1 nm = Some g1 -> cloze_field_regex b2 nm = Some g2 ->
  Str.endswith b1 "Cloze" = true -> Str.endswith b2 "Cloze" = true -> b1 = b2.
Proof.
  intros H1%numbered_name_rtrim H2%numbered_name_rtrim E1%cloze_name_fixed
    E2%cloze_name_fixed. congruence.
Qed.

(** A cloze field is nobody's numbered field. *)
Lemma cloze_name_not_numbered base nm :
  Str.endswith nm "Cloze" = true -> cloze_field_regex base nm = None.
Proof.
  intros Hfix%cloze_name_fixed.
  destruct (cloze_field_regex base nm) as [g|] eqn:Hg; [|done]. exfalso.
  pose proof (numbered_name_rtrim _ _ _ Hg) as Hr. rewrite Hfix in Hr.
  pose proof (rtrim_length is_tail_char base) as Hlen. rewrite <- Hr in Hlen.
  apply cloze_field_regex_Some in Hg as (Hg1 & _ & Hnm).
  assert (0 < String.length g)%nat by (destruct g; [done|simpl; lia]).
  destruct Hnm as [-> | ->]; rewrite !slength_app in Hlen; lia.
Qed.

(** ** The reconciler of [create_missing] *)

Section ForceFacts.

Variable cloze_nums : gset N.
Variable base : string.

(** One round of the inner loop over [model["flds"]]. *)
Lemma create_missing_loop_step f fl updated w :
  create_missing_loop cloze_nums base (f :: fl) updated w =
  match cloze_field_regex base (name f) with
  | None => create_missing_loop cloze_nums base fl updated w
  | Some g =>
      match Str.int_of_digits g with
      | Raise e => (w, Raise e)
      | Ok n =>
          match w_fields w !! ord f with
          | None => (w, Raise IndexError)
          | Some cur =>
              if negb (String.eqb cur (force_content cloze_nums n))
              then create_missing_loop cloze_nums base fl true
                     (set_field w (ord f) (force_content cloze_nums n))
              else create_missing_loop cloze_nums base fl updated w
          end
      end
  end.
Proof.
  simpl. destruct (cloze_field_regex base (name f)) as [g|]; [|done].
  unfold bind at 1, lift. destruct (Str.int_of_digits g) as [n|e]; [|done].
  unfold bind at 1, read_field.
  destruct (w_fields w !! ord f) as [cur|] eqn:Hcur; [|done].
  fold (force_content cloze_nums n).
  destruct (negb (String.eqb cur (force_content cloze_nums n))); [|done].
  unfold bind at 1, write_field.
  apply lookup_lt_Some in Hcur. by rewrite decide_True.
Qed.

Lemma create_missing_loop_ok fl updated w :
  (forall f, f ∈ fl -> (ord f < length (w_fields w))%nat) ->
  exists w' u,
    create_missing_loop cloze_nums base fl updated w = (w', Ok u)
    /\ w_trace w' = w_trace w /\ w_col w' = w_col w
    /\ length (w_fields w') = length (w_fields w).
Proof.
  revert updated w. induction fl as [|f fl IH]; intros updated w Hr.
  - by exists w, updated.
  - rewrite create_missing_loop_step.
    assert (forall w0, length (w_fields w0) = length (w_fields w) ->
              forall f0, f0 ∈ fl -> (ord f0 < length (w_fields w0))%nat) as Hr'.
    { intros w0 -> f0 Hf0. by apply Hr, list_elem_of_further. }
    destruct (cloze_field_regex base (name f)) as [g|] eqn:Hg; [|by apply IH, Hr'].
    destruct (cloze_field_regex_int _ _ _ Hg) as [n ->].
    destruct (lookup_lt_is_Some_2 (w_fields w) (ord f)) as [cur ->].
    { apply Hr, list_elem_of_here. }
    destruct (negb _); [|by apply IH, Hr'].
    edestruct IH as (w' & u & -> & Ht & Hc & Hl).
    { apply Hr'. simpl. apply length_insert. }
    exists w', u. split; [done|]. split; [done|]. split; [done|].
    rewrite Hl. simpl. apply length_insert.
Qed.

(** Only numbered fields of [base] are written. *)
Lemma create_missing_loop_frame fl updated w w' r i :
  create_missing_loop cloze_nums base fl updated w = (w', r) ->
  (forall f, f ∈ fl -> cloze_field_regex base (name f) <> None -> ord f <> i) ->
  w_fields w' !! i = w_fields w !! i.
Proof.
  revert updated w. induction fl as [|f fl IH]; intros updated w.
  - by intros [= <- <-].
  - rewrite create_missing_loop_step. intros H Hi.
    assert (forall f0, f0 ∈ fl -> cloze_field_regex base (name f0) <> None
              -> ord f0 <> i) as Hi'.
    { intros f0 Hf0. by apply Hi, list_elem_of_further. }
    destruct (cloze_field_regex base (name f)) as [g|] eqn:Hg; [|by eapply IH].
    destruct (Str.int_of_digits g) as [n0|e]; [|by injection H as <- <-].
    destruct (w_fields w !! ord f) as [cur|]; [|by injection H as <- <-].
    destruct (negb _); [|by eapply IH].
    rewrite (IH _ _ H Hi'). simpl. apply list_lookup_insert_ne.
    apply Hi; [apply list_elem_of_here|by rewrite Hg].
Qed.

(** After the loop every numbered field holds what is wanted. *)
Lemma create_missing_loop_sets fl updated w w' u f g n :
  NoDup (ord <$> fl) -> f ∈ fl ->
  cloze_field_regex base (name f) = Some g -> Str.int_of_digits g = Ok n ->
  create_missing_loop cloze_nums base fl updated w = (w', Ok u) ->
  w_fields w' !! ord f = Some (force_content cloze_nums n).
Proof.
  intros Hnd Hf Hg Hn. revert updated w Hnd Hf.
  induction fl as [|f0 fl IH]; intros updated w Hnd Hf.
  - by apply not_elem_of_nil in Hf.
  - rewrite fmap_cons in Hnd. apply NoDup_cons in Hnd as [Hnotin Hnd].
    rewrite create_missing_loop_step.
    apply elem_of_cons in Hf as [<-|Hf].
    + rewrite Hg, Hn.
      assert (forall f0, f0 ∈ fl -> cloze_field_regex base (name f0) <> None
                -> ord f0 <> ord f) as Hfr.
      { intros f0 Hf0 _ Heq. apply Hnotin. rewrite <- Heq.
        apply list_elem_of_fmap. eauto. }
      destruct (w_fields w !! ord f) as [cur|] eqn:Hcur; [|discriminate].
      destruct (String.eqb_spec cur (force_content cloze_nums n)) as [->|_];
        simpl negb; cbv iota; intros H.
      * by rewrite (create_missing_loop_frame _ _ _ _ _ _ H Hfr).
      * rewrite (create_missing_loop_frame _ _ _ _ _ _ H Hfr). simpl.
        apply list_lookup_insert_eq. by eapply lookup_lt_Some.
    + destruct (cloze_field_regex base (name f0)) as [g0|]; [|by apply IH].
      destruct (Str.int_of_digits g0) as [n0|e]; [|discriminate].
      destruct (w_fields w !! ord f0) as [cur|]; [|discriminate].
      destruct (negb _); by apply IH.
Qed.

(** Where every numbered field holds what is wanted, the loop changes
    nothing and reports no update. *)
Lemma create_missing_loop_settled fl updated w :
  (forall f g n, f ∈ fl -> cloze_field_regex base (name f) = Some g ->
     Str.int_of_digits g = Ok n ->
     w_fields w !! ord f = Some (force_content cloze_nums n)) ->
  create_missing_loop cloze_nums base fl updated w = (w, Ok updated).
Proof.
  induction fl as [|f fl IH]; intros Hs; [done|].
  rewrite create_missing_loop_step.
  assert (create_missing_loop cloze_nums base fl updated w = (w, Ok updated)) as Hrest.
  { apply IH. intros f0 g n Hf0. by apply Hs, list_elem_of_further. }
  destruct (cloze_field_regex base (name f)) as [g|] eqn:Hg; [|done].
  destruct (cloze_field_regex_int _ _ _ Hg) as [n Hn]. rewrite Hn.
  rewrite (Hs f g n (list_elem_of_here _ _) Hg Hn).
  by rewrite String.eqb_refl.
Qed.

(** The loop reports an update exactly when it changed a field. *)
Lemma create_missing_loop_updated fl updated w w' u :
  create_missing_loop cloze_nums base fl updated w = (w', Ok u) ->
  (updated = true -> u = true) /\ (u = false -> w' = w).
Proof.
  revert updated w. induction fl as [|f fl IH]; intros updated w.
  - by intros [= <- <-].
  - rewrite create_missing_loop_step.
    destruct (cloze_field_regex base (name f)) as [g|]; [|by apply IH].
    destruct (Str.int_of_digits g) as [n0|e]; [|discriminate].
    destruct (w_fields w !! ord f) as [cur|]; [|discriminate].
    destruct (negb _); [|by apply IH].
    intros [H1 H2]%IH. specialize (H1 eq_refl). split; [done|]. intros ->. done.
Qed.

(** The loop calls nothing of the host and leaves the collection alone. *)
Lemma create_missing_loop_col fl updated w w' r :
  create_missing_loop cloze_nums base fl updated w = (w', r) ->
  w_col w' = w_col w /\ w_trace w' = w_trace w.
Proof.
  revert updated w. induction fl as [|f fl IH]; intros updated w.
  - by intros [= <- <-].
  - rewrite create_missing_loop_step.
    destruct (cloze_field_regex base (name f)) as [g|]; [|by apply IH].
    destruct (Str.int_of_digits g) as [n0|e]; [|by intros [= <- <-]].
    destruct (w_fields w !! ord f) as [cur|]; [|by intros [= <- <-]].
    destruct (negb _); [|by apply IH].
    by intros [-> ->]%IH.
Qed.

End ForceFacts.

(** C6: on a note whose field ordinals are distinct and in range, the
    force-mode reconciliation of [create_missing] run a second time with
    the same identifier set, right after a first run, writes no field and
    reports no update. *)
Theorem create_missing_loop_idempotent
    (cloze_nums : gset N) (base : string) (fl : list field) (w : world) :
  NoDup (ord <$> fl) ->
  (forall f, f ∈ fl -> (ord f < length (w_fields w))%nat) ->
  exists w' u,
    create_missing_loop cloze_nums base fl false w = (w', Ok u)
    /\ create_missing_loop cloze_nums base fl false w' = (w', Ok false).
Proof.
  intros Hnd Hr.
  destruct (create_missing_loop_ok cloze_nums base fl false w Hr) as (w' & u & E & _).
  exists w', u. split; [done|]. apply create_missing_loop_settled.
  intros f g n Hf Hg Hn. by eapply create_missing_loop_sets.
Qed.

Lemma create_missing_loop_idempotent_witness :
  let fl := [ {| name := "ExpressionCloze"; ord := 0 |};
              {| name := "ExpressionCloze1"; ord := 1 |};
              {| name := "ExpressionCloze2"; ord := 2 |} ] in
  let w := {| w_fields := ["((c1::foo))"; ""; "custom"]; w_col := ∅; w_trace := [] |} in
  exists w' u,
    create_missing_loop {[1%N]} "ExpressionCloze" fl false w = (w', Ok u)
    /\ create_missing_loop {[1%N]} "ExpressionCloze" fl false w' = (w', Ok false).
Proof.
  intros fl w.
  apply (create_missing_loop_idempotent {[1%N]} "ExpressionCloze" fl w).
  - apply (bool_decide_unpack _). vm_compute. exact I.
  - intros f Hf. simpl in Hf.
    repeat (apply elem_of_cons in Hf as [->|Hf]; [simpl; lia|]).
    by apply not_elem_of_nil in Hf.
Defined.

(** ** [create_missing] on one note *)

Lemma ord_inj (fl : list field) x y :
  NoDup (ord <$> fl) -> x ∈ fl -> y ∈ fl -> ord x = ord y -> x = y.
Proof.
  induction fl as [|f fl IH]; [by intros _ ?%not_elem_of_nil|].
  rewrite fmap_cons. intros [Hnotin Hnd]%NoDup_cons Hx Hy Heq.
  assert (forall z, z ∈ fl -> ord z <> ord f) as Hne.
  { intros z Hz Hzf. apply Hnotin. rewrite <- Hzf. apply list_elem_of_fmap. eauto. }
  apply elem_of_cons in Hx as [->|Hx]; apply elem_of_cons in Hy as [->|Hy].
  - done.
  - by destruct (Hne y Hy).
  - by destruct (Hne x Hx).
  - by apply IH.
Qed.

(** One round of the loop of [create_missing] over the fields of a note. *)
Lemma create_missing_fields_step model nid f fl c w :
  create_missing_fields model nid (f :: fl) c w =
  if Str.endswith (name f) "Cloze" then
    match w_fields w !! ord f with
    | None => (w, Raise IndexError)
    | Some content =>
        match get_cloze_nums content with
        | Raise e => (w, Raise e)
        | Ok nums =>
            match create_missing_loop nums (name f) (flds model) false w with
            | (w1, Raise e) => (w1, Raise e)
            | (w1, Ok true) =>
                create_missing_fields model nid fl (c + 1)%N (flushed nid model w1)
            | (w1, Ok false) => create_missing_fields model nid fl c w1
            end
        end
    end
  else create_missing_fields model nid fl c w.
Proof.
  simpl. destruct (Str.endswith (name f) "Cloze"); [|done].
  unfold bind at 1, read_field. destruct (w_fields w !! ord f) as [content|]; [|done].
  unfold bind at 1, lift. destruct (get_cloze_nums content) as [nums|e]; [|done].
  unfold bind at 1.
  destruct (create_missing_loop nums (name f) (flds model) false w) as [w1 [[]|e]]; done.
Qed.

Lemma create_missing_fields_spec model nid rest c w :
  NoDup (ord <$> flds model) ->
  (forall f, f ∈ flds model -> (ord f < length (w_fields w))%nat) ->
  NoDup (name <$> rest) ->
  (forall f, f ∈ rest -> f ∈ flds model) ->
  exists w' c',
    create_missing_fields model nid rest c w = (w', Ok c')
    /\ length (w_fields w') = length (w_fields w)
    /\ (forall i,
          (forall fb fa, fb ∈ rest -> Str.endswith (name fb) "Cloze" = true ->
             fa ∈ flds model -> cloze_field_regex (name fb) (name fa) <> None ->
             ord fa <> i) ->
          w_fields w' !! i = w_fields w !! i)
    /\ (forall fb fa g n,
          fb ∈ rest -> Str.endswith (name fb) "Cloze" = true ->
          fa ∈ flds model -> cloze_field_regex (name fb) (name fa) = Some g ->
          Str.int_of_digits g = Ok n ->
          exists content nums,
            w_fields w !! ord fb = Some content
            /\ get_cloze_nums content = Ok nums
            /\ w_fields w' !! ord fa = Some (force_content nums n)).
Proof.
  intros Hords. revert c w.
  induction rest as [|f rest IH]; intros c w Hr Hnames Hsub.
  - exists w, c. split; [done|]. split; [done|]. split; [done|].
    intros fb fa g n Hfb. by apply not_elem_of_nil in Hfb.
  - rewrite fmap_cons in Hnames. apply NoDup_cons in Hnames as [Hfresh Hnames].
    assert (forall f0, f0 ∈ rest -> f0 ∈ flds model) as Hsub'.
    { intros f0 Hf0. by apply Hsub, list_elem_of_further. }
    rewrite create_missing_fields_step.
    destruct (Str.endswith (name f) "Cloze") eqn:Hcloze.
    2:{ destruct (IH c w Hr Hnames Hsub') as (w' & c' & E & Hlen & Hframe & Hres).
        exists w', c'. split; [done|]. split; [done|]. split.
        - intros i Hi. apply Hframe. intros fb fa Hfb. by apply Hi, list_elem_of_further.
        - intros fb fa g n [->|Hfb]%elem_of_cons Hc; [congruence|]. by apply Hres. }
    destruct (lookup_lt_is_Some_2 (w_fields w) (ord f)) as [content Hcontent].
    { apply Hr, Hsub, list_elem_of_here. }
    rewrite Hcontent.
    destruct (get_cloze_nums_total content) as [nums Hnums]. rewrite Hnums.
    destruct (create_missing_loop_ok nums (name f) (flds model) false w Hr)
      as (w1 & u & E1 & _ & _ & Hlen1).
    rewrite E1.
    set (w2 := if u then flushed nid model w1 else w1).
    assert (w_fields w2 = w_fields w1) as Hw2 by (by destruct u).
    assert (forall f0, f0 ∈ flds model -> (ord f0 < length (w_fields w2))%nat) as Hr2.
    { intros f0 Hf0. rewrite Hw2, Hlen1. by apply Hr. }
    destruct (IH (if u then (c + 1)%N else c) w2 Hr2 Hnames Hsub')
      as (w' & c' & E & Hlen & Hframe & Hres).
    exists w', c'. split; [by destruct u|]. split; [by rewrite Hlen, Hw2|].
    assert (forall i,
      (forall fa, fa ∈ flds model -> cloze_field_regex (name f) (name fa) <> None ->
         ord fa <> i) ->
      w_fields w2 !! i = w_fields w !! i) as Hinner.
    { intros i Hi. rewrite Hw2. by eapply create_missing_loop_frame. }
    split.
    + intros i Hi. rewrite Hframe.
      * apply Hinner. intros fa. by apply Hi; [apply list_elem_of_here|].
      * intros fb fa Hfb. by apply Hi, list_elem_of_further.
    + intros fb fa g n [->|Hfb]%elem_of_cons Hc Hfa Hg Hn.
      * exists content, nums. split; [done|]. split; [done|].
        rewrite Hframe, Hw2; [by eapply create_missing_loop_sets|].
        intros fb' fa' Hfb' Hc' Hfa' Hg' Heq.
        assert (fa' = fa) as -> by by eapply ord_inj.
        destruct (cloze_field_regex (name fb') (name fa)) as [g'|] eqn:Hg''; [|done].
        apply Hfresh. rewrite (numbered_base_unique _ _ _ _ _ Hg Hg'' Hc Hc').
        apply list_elem_of_fmap. eauto.
      * destruct (Hres fb fa g n Hfb Hc Hfa Hg Hn) as (content' & nums' & H1 & H2 & H3).
        exists content', nums'. split; [|done]. rewrite <- H1. symmetry.
        apply Hinner. intros fa' Hfa' Hg' Heq.
        assert (fa' = fb) as -> by (eapply ord_inj; eauto).
        by rewrite cloze_name_not_numbered in Hg'.
Qed.

(** The note the collection holds is the note object as it stands: a
    change is flushed in the round that makes it. *)
Lemma create_missing_fields_persisted model nid rest c w w' c' :
  w_col w !! nid = Some {| note_model := model; note_fields := w_fields w |} ->
  create_missing_fields model nid rest c w = (w', Ok c') ->
  w_col w' !! nid = Some {| note_model := model; note_fields := w_fields w' |}.
Proof.
  revert c w. induction rest as [|f rest IH]; intros c w Hcol.
  - by intros [= <- <-].
  - rewrite create_missing_fields_step.
    destruct (Str.endswith (name f) "Cloze"); [|by apply IH].
    destruct (w_fields w !! ord f) as [content|]; [|discriminate].
    destruct (get_cloze_nums content) as [nums|e]; [|discriminate].
    destruct (create_missing_loop nums (name f) (flds model) false w)
      as [w1 [[]|e]] eqn:E1; [| |discriminate].
    + apply IH. unfold flushed, flush. simpl. apply lookup_insert_eq.
    + apply create_missing_loop_updated in E1 as [_ ->]; [|done]. by apply IH.
Qed.

(** On a note that is in order, nothing is written, flushed or counted. *)
Lemma create_missing_fields_settled model nid rest c w :
  (forall fb, fb ∈ rest -> Str.endswith (name fb) "Cloze" = true ->
     exists content nums,
       w_fields w !! ord fb = Some content /\ get_cloze_nums content = Ok nums
       /\ forall fa g n, fa ∈ flds model ->
            cloze_field_regex (name fb) (name fa) = Some g ->
            Str.int_of_digits g = Ok n ->
            w_fields w !! ord fa = Some (force_content nums n)) ->
  create_missing_fields model nid rest c w = (w, Ok c).
Proof.
  induction rest as [|f rest IH]; intros Hs; [done|].
  rewrite create_missing_fields_step.
  assert (create_missing_fields model nid rest c w = (w, Ok c)) as Hrest.
  { apply IH. intros fb Hfb. by apply Hs, list_elem_of_further. }
  destruct (Str.endswith (name f) "Cloze") eqn:Hc; [|done].
  destruct (Hs f (list_elem_of_here _ _) Hc) as (content & nums & -> & -> & Hok).
  by rewrite (create_missing_loop_settled nums (name f) (flds model) false w Hok).
Qed.

(** Running [create_missing] on a note again changes nothing. *)
Lemma create_missing_fields_idempotent model nid c w :
  NoDup (name <$> flds model) ->
  NoDup (ord <$> flds model) ->
  (forall f, f ∈ flds model -> (ord f < length (w_fields w))%nat) ->
  exists w' c',
    create_missing_fields model nid (flds model) c w = (w', Ok c')
    /\ forall c2, create_missing_fields model nid (flds model) c2 w' = (w', Ok c2).
Proof.
  intros Hnames Hords Hr.
  destruct (create_missing_fields_spec model nid (flds model) c w)
    as (w' & c' & E & _ & Hframe & Hres); [done..|].
  exists w', c'. split; [done|]. intros c2.
  apply create_missing_fields_settled. intros fb Hfb Hc.
  destruct (lookup_lt_is_Some_2 (w_fields w) (ord fb)) as [content Hcontent];
    [by apply Hr|].
  destruct (get_cloze_nums_total content) as [nums Hnums].
  exists content, nums. split; [|split; [done|]].
  - rewrite Hframe; [done|]. intros fb' fa _ _ Hfa Hg Heq.
    assert (fa = fb) as -> by (eapply ord_inj; eauto).
    by rewrite cloze_name_not_numbered in Hg.
  - intros fa g n Hfa Hg Hn.
    destruct (Hres fb fa g n Hfb Hc Hfa Hg Hn) as (content' & nums' & H1 & H2 & H3).
    congruence.
Qed.

(** C1: on a note type whose fields have distinct names and distinct
    ordinals within the note, [create_missing] runs to the end of the note
    and leaves every numbered field [<Base>Cloze<N>] with ["1"] when [N] is
    among the identifiers scanned from the content of [<Base>Cloze], and
    with the empty string otherwise; the note the collection holds is the
    note so reconciled. *)
Theorem create_missing_reconciles_note
    (model : model_t) (nid : Z) (c : N) (w : world) :
  NoDup (name <$> flds model) ->
  NoDup (ord <$> flds model) ->
  (forall f, f ∈ flds model -> (ord f < length (w_fields w))%nat) ->
  exists w' c',
    create_missing_fields model nid (flds model) c w = (w', Ok c')
    /\ (w_col w !! nid = Some {| note_model := model; note_fields := w_fields w |} ->
        w_col w' !! nid = Some {| note_model := model; note_fields := w_fields w' |})
    /\ forall fb fa d,
         fb ∈ flds model -> fa ∈ flds model ->
         Str.endswith (name fb) "Cloze" = true ->
         d <> "" -> Str.all Str.is_digit d = true -> name fa = name fb ++ d ->
         exists content (nums : gset N) n,
           w_fields w !! ord fb = Some content
           /\ get_cloze_nums content = Ok nums
           /\ Str.int_of_digits d = Ok n
           /\ w_fields w' !! ord fa = Some (if decide (n ∈ nums) then "1" else "").
Proof.
  intros Hnames Hords Hr.
  destruct (create_missing_fields_spec model nid (flds model) c w)
    as (w' & c' & E & _ & _ & Hres); [done..|].
  exists w', c'. split; [done|]. split; [intros Hcol; by eapply create_missing_fields_persisted|].
  intros fb fa d Hfb Hfa Hc Hd1 Hd2 Hnm.
  destruct (int_of_digits_ok d Hd1 Hd2) as [n Hn].
  assert (cloze_field_regex (name fb) (name fa) = Some d) as Hg.
  { rewrite Hnm, <- (sapp_nil_r d) at 1. apply cloze_field_regex_complete; auto. }
  destruct (Hres fb fa d n Hfb Hc Hfa Hg Hn) as (content & nums & H1 & H2 & H3).
  by exists content, nums, n.
Qed.

Lemma create_missing_reconciles_note_witness :
  let model := {| flds := [ {| name := "ExpressionCloze"; ord := 0 |};
                            {| name := "ExpressionCloze1"; ord := 1 |};
                            {| name := "ExpressionCloze2"; ord := 2 |} ];
                  tmpls := [] |} in
  let w := {| w_fields := ["((c1::foo))"; ""; "stale"];
              w_col := {[ 7%Z := {| note_model := model;
                                    note_fields := ["((c1::foo))"; ""; "stale"] |} ]};
              w_trace := [] |} in
  exists w' c',
    create_missing_fields model 7%Z (flds model) 0%N w = (w', Ok c')
    /\ (w_col w !! 7%Z = Some {| note_model := model; note_fields := w_fields w |} ->
        w_col w' !! 7%Z = Some {| note_model := model; note_fields := w_fields w' |})
    /\ forall fb fa d,
         fb ∈ flds model -> fa ∈ flds model ->
         Str.endswith (name fb) "Cloze" = true ->
         d <> "" -> Str.all Str.is_digit d = true -> name fa = name fb ++ d ->
         exists content (nums : gset N) n,
           w_fields w !! ord fb = Some content
           /\ get_cloze_nums content = Ok nums
           /\ Str.int_of_digits d = Ok n
           /\ w_fields w' !! ord fa = Some (if decide (n ∈ nums) then "1" else "").
Proof.
  intros model w. apply (create_missing_reconciles_note model 7%Z 0%N w).
  - apply (bool_decide_unpack _). vm_compute. exact I.
  - apply (bool_decide_unpack _). vm_compute. exact I.
  - apply (Forall_forall (fun f => ord f < 3)%nat). repeat constructor.
Defined.

(** ** The live text-change handler *)

(** The reconciler calls nothing of the host and leaves the collection
    alone, also when it raises. *)
Lemma update_loop_trace mungeHTML cloze_nums base fl cmds found w w' r :
  update_loop mungeHTML cloze_nums base fl cmds found w = (w', r) ->
  w_trace w' = w_trace w /\ w_col w' = w_col w.
Proof.
  revert cmds found w. induction fl as [|f fl IH]; intros cmds found w.
  - by intros [= <- <-].
  - rewrite update_loop_step.
    destruct (cloze_field_regex base (name f)) as [g|]; [|by apply IH].
    destruct (Str.int_of_digits g) as [n0|e]; [|by intros [= <- <-]].
    destruct (w_fields w !! ord f) as [cur|]; [|by intros [= <- <-]].
    destruct (in_one_or_empty (Str.strip cur)); [|by apply IH].
    by intros [-> ->]%IH.
Qed.

(** The only host call the [try] block makes is one [web.eval], and the
    collection is not touched. *)
Lemma onBridgeCmd_try_trace mungeHTML self cmd w w1 r :
  onBridgeCmd_try mungeHTML self cmd w = (w1, r) ->
  w_col w1 = w_col w
  /\ exists evs, w_trace w1 = (w_trace w ++ evs)%list
                 /\ (evs = [] \/ exists cmds, evs = [WebEval cmds]).
Proof.
  assert (w_col w = w_col w /\ exists evs, w_trace w = (w_trace w ++ evs)%list
            /\ (evs = [] \/ exists cmds, evs = [WebEval cmds])) as Hsame.
  { split; [done|]. exists []. split; [by rewrite List.app_nil_r|by left]. }
  unfold onBridgeCmd_try. intros E.
  destruct (ed_note self) as [[note_id model]|]; [|by injection E as <- <-].
  destruct (_ || _); [|by injection E as <- <-].
  destruct (Str.split_colon 3 cmd) as [|x0 [|x1 [|x2 [|x3 [|x4 l]]]]];
    try by injection E as <- <-.
  unfold bind at 1, lift at 1 in E.
  destruct (Str.int x1) as [field_idx|e]; [|by injection E as <- <-].
  destruct (match Str.int x2 with Ok n => Some n | Raise _ => None end) as [n|];
    [|by injection E as <- <-].
  destruct (negb (n =? 0)%Z && (n =? note_id)%Z); [|by injection E as <- <-].
  unfold bind at 1, lift at 1 in E.
  destruct (py_index (flds model) field_idx) as [f|e]; [|by injection E as <- <-].
  destruct (Str.endswith (name f) "Cloze"); [|by injection E as <- <-].
  unfold bind at 1, lift at 1 in E.
  destruct (get_cloze_nums x3) as [nums|e]; [|by injection E as <- <-].
  unfold bind, update_cloze_fields in E.
  destruct (update_loop mungeHTML nums (name f) (flds model) [] ∅ w) as [w' [x|e]] eqn:E';
    apply update_loop_trace in E' as [Ht Hc]; injection E as <- <-; simpl.
  - split; [done|]. exists [WebEval x.1]. rewrite Ht. split; [done|]. right. eauto.
  - rewrite Ht, Hc. exact Hsame.
Qed.

(** C8: [onBridgeCmd] never raises.  Whatever the [try] block does, also
    when it raises after it has changed the note, the handler goes on from
    the state the block reached, calls the host's own handler with the
    same command as its last step, once, and returns. *)
Theorem onBridgeCmd_always_calls_old
    (mungeHTML : string -> string) (self : editor) (cmd : string) (w : world) :
  let w1 := (onBridgeCmd_try mungeHTML self cmd w).1 in
  onBridgeCmd mungeHTML self cmd w = (add_event w1 (OldBridgeCmd cmd), Ok tt)
  /\ exists evs, w_trace (onBridgeCmd mungeHTML self cmd w).1
                 = (w_trace w ++ evs ++ [OldBridgeCmd cmd])%list
                 /\ OldBridgeCmd cmd ∉ evs.
Proof.
  intros w1.
  assert (onBridgeCmd mungeHTML self cmd w = (add_event w1 (OldBridgeCmd cmd), Ok tt)) as E.
  { unfold onBridgeCmd, bind, suppress. subst w1.
    by destruct (onBridgeCmd_try mungeHTML self cmd w) as [w' r]. }
  split; [done|]. rewrite E. simpl.
  destruct (onBridgeCmd_try_trace mungeHTML self cmd w w1
              (onBridgeCmd_try mungeHTML self cmd w).2) as (_ & evs & Ht & Hevs).
  { subst w1. by destruct (onBridgeCmd_try mungeHTML self cmd w). }
  exists evs. rewrite Ht, List.app_assoc. split; [done|].
  destruct Hevs as [->|[cmds ->]]; [apply not_elem_of_nil|].
  by intros [=]%list_elem_of_singleton.
Qed.

(** A failure while the event is parsed: [int("x")] raises, the handler
    does not. *)
Example onBridgeCmd_swallows_ValueError :
  let model := {| flds := [ {| name := "ExpressionCloze"; ord := 0 |};
                            {| name := "ExpressionCloze1"; ord := 1 |} ];
                  tmpls := [] |} in
  let self := {| ed_note := Some (7%Z, model); currentField := 0; alt_modifier := false |} in
  let w := {| w_fields := ["text"; ""]; w_col := ∅; w_trace := [] |} in
  (onBridgeCmd_try anki_mungeHTML self "blur:x:7:((c1::text))" w).2 = Raise ValueError
  /\ onBridgeCmd anki_mungeHTML self "blur:x:7:((c1::text))" w
     = ({| w_fields := ["text"; ""]; w_col := ∅;
           w_trace := [OldBridgeCmd "blur:x:7:((c1::text))"] |}, Ok tt).
Proof. by vm_compute. Qed.

(** A failure while the fields are reconciled: the second numbered field
    has no value in the note, the first one has been written by then. *)
Example onBridgeCmd_swallows_IndexError :
  let model := {| flds := [ {| name := "ExpressionCloze"; ord := 0 |};
                            {| name := "ExpressionCloze1"; ord := 1 |};
                            {| name := "ExpressionCloze2"; ord := 2 |} ];
                  tmpls := [] |} in
  let self := {| ed_note := Some (7%Z, model); currentField := 0; alt_modifier := false |} in
  let w := {| w_fields := ["text"; ""]; w_col := ∅; w_trace := [] |} in
  (onBridgeCmd_try anki_mungeHTML self "key:0:7:((c1::text))" w).2 = Raise IndexError
  /\ onBridgeCmd anki_mungeHTML self "key:0:7:((c1::text))" w
     = ({| w_fields := ["text"; "1"]; w_col := ∅;
           w_trace := [OldBridgeCmd "key:0:7:((c1::text))"] |}, Ok tt).
Proof. by vm_compute. Qed.

(** The event is for the open note and all goes well. *)
Example onBridgeCmd_reconciles :
  let model := {| flds := [ {| name := "ExpressionCloze"; ord := 0 |};
                            {| name := "ExpressionCloze1"; ord := 1 |};
                            {| name := "ExpressionCloze2"; ord := 2 |} ];
                  tmpls := [] |} in
  let self := {| ed_note := Some (7%Z, model); currentField := 0; alt_modifier := false |} in
  let w := {| w_fields := ["text"; ""; "1"]; w_col := ∅; w_trace := [] |} in
  onBridgeCmd anki_mungeHTML self "key:0:7:((c1::text))" w
  = ({| w_fields := ["text"; "1"; ""]; w_col := ∅;
        w_trace := [ WebEval [JsSetHtml 1 "1"; JsSetHtml 2 "<br>"];
                     OldBridgeCmd "key:0:7:((c1::text))" ] |}, Ok tt).
Proof. by vm_compute. Qed.

(** ** The batch operations *)

(** The end-to-end scenario: one note to repair, one note in order. *)
Example create_missing_scenario :
  let model := {| flds := [ {| name := "ExpressionCloze"; ord := 0 |};
                            {| name := "ExpressionCloze1"; ord := 1 |};
                            {| name := "ExpressionCloze2"; ord := 2 |} ];
                  tmpls := [] |} in
  let col : gmap Z note_t :=
    {[ 7%Z := {| note_model := model; note_fields := ["((c1::foo))"; ""; "x"] |};
       8%Z := {| note_model := model; note_fields := ["((c2::foo))"; ""; "1"] |} ]} in
  let w' := (create_missing [7%Z; 8%Z] {| w_fields := []; w_col := col; w_trace := [] |}).1 in
  w_trace w' = [ Checkpoint "Create Missing Cloze Cards (2 notes)"; BeginReset;
                 Flush 7; RequireReset; Tooltip "Updated 1 note"; EndReset ]
  /\ note_fields <$> (w_col w' !! 7%Z) = Some ["((c1::foo))"; "1"; ""]
  /\ note_fields <$> (w_col w' !! 8%Z) = Some ["((c2::foo))"; ""; "1"].
Proof. by vm_compute. Qed.

Example auto_cloze_scenario :
  let model := {| flds := [ {| name := "Expression"; ord := 0 |};
                            {| name := "ExpressionCloze"; ord := 1 |};
                            {| name := "ExpressionCloze1"; ord := 2 |} ];
                  tmpls := [] |} in
  let col : gmap Z note_t :=
    {[ 7%Z := {| note_model := model; note_fields := ["bonjour"; ""; ""] |};
       8%Z := {| note_model := model; note_fields := ["salut"; "((c1::sal))ut"; "1"] |} ]} in
  let w' := (auto_cloze [7%Z; 8%Z] {| w_fields := []; w_col := col; w_trace := [] |}).1 in
  w_trace w' = [ Checkpoint "Auto-cloze (2 notes)"; BeginReset;
                 Flush 7; RequireReset; Tooltip "Updated 1 note"; EndReset ]
  /\ note_fields <$> (w_col w' !! 7%Z) = Some ["bonjour"; "((c1::bonjour))"; "1"]
  /\ note_fields <$> (w_col w' !! 8%Z) = Some ["salut"; "((c1::sal))ut"; "1"].
Proof. by vm_compute. Qed.

Example batch_nothing_selected :
  forall w, w_trace (auto_cloze [] w).1 = (w_trace w ++ [Tooltip "You must select some cards first"])%list
            /\ w_trace (create_missing [] w).1
               = (w_trace w ++ [Tooltip "You must select some cards first"])%list.
Proof. done. Qed.

(** C9, where the code departs from it: one selected note with two cloze
    fields to repair is flushed twice and reported as two notes, by
    [create_missing] and by [auto_cloze] alike: [update_count] is advanced
    once for each cloze field, not once for each note. *)
Theorem batch_counts_cloze_fields_not_notes :
  let repair := {| flds := [ {| name := "FrontCloze"; ord := 0 |};
                             {| name := "FrontCloze1"; ord := 1 |};
                             {| name := "BackCloze"; ord := 2 |};
                             {| name := "BackCloze1"; ord := 3 |} ];
                   tmpls := [] |} in
  let fill := {| flds := [ {| name := "Front"; ord := 0 |};
                           {| name := "FrontCloze"; ord := 1 |};
                           {| name := "FrontCloze1"; ord := 2 |};
                           {| name := "Back"; ord := 3 |};
                           {| name := "BackCloze"; ord := 4 |};
                           {| name := "BackCloze1"; ord := 5 |} ];
                 tmpls := [] |} in
  let col1 : gmap Z note_t :=
    {[ 7%Z := {| note_model := repair;
                 note_fields := ["((c1::x))"; ""; "((c1::y))"; ""] |} ]} in
  let col2 : gmap Z note_t :=
    {[ 7%Z := {| note_model := fill;
                 note_fields := ["bonjour"; ""; ""; "hello"; ""; ""] |} ]} in
  w_trace (create_missing [7%Z] {| w_fields := []; w_col := col1; w_trace := [] |}).1
  = [ Checkpoint "Create Missing Cloze Cards (1 note)"; BeginReset;
      Flush 7; Flush 7; RequireReset; Tooltip "Updated 2 notes"; EndReset ]
  /\ w_trace (auto_cloze [7%Z] {| w_fields := []; w_col := col2; w_trace := [] |}).1
     = [ Checkpoint "Auto-cloze (1 note)"; BeginReset;
         Flush 7; Flush 7; RequireReset; Tooltip "Updated 2 notes"; EndReset ].
Proof. by vm_compute. Qed.


(** * Further properties of the code *)

(** ** The scanner and the text around a marker *)

Lemma cloze_re_not_open c s : not_open_paren c = true -> cloze_re (String c s) = [].
Proof.
  intros Hc. destruct c as [[] [] [] [] [] [] [] []]; try discriminate Hc; reflexivity.
Qed.

Lemma findall_skip_prefix pre s :
  Str.all not_open_paren pre = true -> findall (pre ++ s) = findall s.
Proof.
  induction pre as [|c pre IH]; [done|]. simpl.
  intros [Hc Hpre]%andb_true_iff. rewrite sapp_cons. unfold findall. simpl.
  rewrite (cloze_re_not_open c _ Hc). simpl. by apply IH.
Qed.

(** A marker is scanned whatever follows it, and whatever text without an
    opening parenthesis comes before it. *)
Theorem get_cloze_nums_finds_marker (pre : string) (n : N) (p post : string) :
  Str.all not_open_paren pre = true ->
  p <> "" -> Str.all Str.is_dot p = true ->
  exists nums : gset N,
    get_cloze_nums (pre ++ wrapped n p ++ post) = Ok nums /\ n ∈ nums.
Proof.
  intros Hpre Hp1 Hp2.
  destruct (get_cloze_nums_spec (pre ++ wrapped n p ++ post)) as (nums & Hnums & Hin).
  exists nums. split; [done|]. apply Hin. exists (Str.of_N n).
  split; [|apply int_of_N]. rewrite findall_skip_prefix by done.
  destruct (cloze_re_head (Str.of_N n) p post) as [rest Hhd];
    [apply of_N_nonempty|apply of_N_digits|done..|].
  unfold wrapped. rewrite !sapp_assoc. by eapply findall_head.
Qed.

Lemma get_cloze_nums_finds_marker_witness :
  exists nums : gset N,
    get_cloze_nums ("I " ++ wrapped 2 "am" ++ " ((c1::hungry))") = Ok nums /\ 2%N ∈ nums.
Proof.
  apply (get_cloze_nums_finds_marker "I " 2 "am" " ((c1::hungry))");
    [reflexivity|discriminate|reflexivity].
Defined.

(** ** What the editor's reconciler writes, says and raises *)

Section ReconcilerFacts.

Variable mungeHTML : string -> string.
Variable cloze_nums : gset N.
Variable base : string.

(** The loop stops at the first numbered field whose ordinal is outside
    the note, with [IndexError]; otherwise it runs to its end. *)
Lemma update_loop_outcome fl cmds found w :
  ((forall f, f ∈ fl -> cloze_field_regex base (name f) <> None ->
      (ord f < length (w_fields w))%nat)
   /\ exists w' x, update_loop mungeHTML cloze_nums base fl cmds found w = (w', Ok x))
  \/ ((exists f, f ∈ fl /\ cloze_field_regex base (name f) <> None
                 /\ (length (w_fields w) <= ord f)%nat)
      /\ exists w', update_loop mungeHTML cloze_nums base fl cmds found w
                    = (w', Raise IndexError)).
Proof.
  revert cmds found w. induction fl as [|f fl IH]; intros cmds found w.
  - left. split; [by intros f ?%not_elem_of_nil|]. by exists w, (cmds, found).
  - rewrite update_loop_step.
    assert (forall cmds0 found0 w0,
      length (w_fields w0) = length (w_fields w) ->
      (cloze_field_regex base (name f) <> None -> (ord f < length (w_fields w))%nat) ->
      ((forall f0, f0 ∈ f :: fl -> cloze_field_regex base (name f0) <> None ->
          (ord f0 < length (w_fields w))%nat)
       /\ exists w' x, update_loop mungeHTML cloze_nums base fl cmds0 found0 w0 = (w', Ok x))
      \/ ((exists f0, f0 ∈ f :: fl /\ cloze_field_regex base (name f0) <> None
                      /\ (length (w_fields w) <= ord f0)%nat)
          /\ exists w', update_loop mungeHTML cloze_nums base fl cmds0 found0 w0
                        = (w', Raise IndexError))) as Hgo.
    { intros cmds0 found0 w0 Hlen Hf.
      destruct (IH cmds0 found0 w0) as [[Hr Hok]|[(f0 & Hf0 & Hm & Hbad) Hraise]].
      - left. split; [|done]. intros f0 [->|Hf0]%elem_of_cons; [done|].
        rewrite <- Hlen. by apply Hr.
      - right. split; [|done]. exists f0. rewrite <- Hlen.
        split; [by apply list_elem_of_further|done]. }
    destruct (cloze_field_regex base (name f)) as [g|] eqn:Hg; [|by apply Hgo].
    destruct (cloze_field_regex_int _ _ _ Hg) as [n ->].
    destruct (w_fields w !! ord f) as [cur|] eqn:Hcur.
    + apply lookup_lt_Some in Hcur.
      destruct (in_one_or_empty (Str.strip cur)); apply Hgo; try done.
      simpl. apply length_insert.
    + apply lookup_ge_None in Hcur. right. split; [|by exists w].
      exists f. split; [apply list_elem_of_here|]. by rewrite Hg.
Qed.

(** Only numbered fields of [base] are written, whatever the outcome. *)
Lemma update_loop_frame_numbered fl cmds found w w' r i :
  update_loop mungeHTML cloze_nums base fl cmds found w = (w', r) ->
  (forall f, f ∈ fl -> cloze_field_regex base (name f) <> None -> ord f <> i) ->
  w_fields w' !! i = w_fields w !! i.
Proof.
  revert cmds found w. induction fl as [|f fl IH]; intros cmds found w.
  - by intros [= <- <-].
  - rewrite update_loop_step. intros H Hi.
    assert (forall f0, f0 ∈ fl -> cloze_field_regex base (name f0) <> None
              -> ord f0 <> i) as Hi'.
    { intros f0 Hf0. by apply Hi, list_elem_of_further. }
    destruct (cloze_field_regex base (name f)) as [g|] eqn:Hg; [|by eapply IH].
    destruct (Str.int_of_digits g) as [n0|e]; [|by injection H as <- <-].
    destruct (w_fields w !! ord f) as [cur|]; [|by injection H as <- <-].
    destruct (in_one_or_empty (Str.strip cur)); [|by eapply IH].
    rewrite (IH _ _ _ H Hi'). simpl. apply list_lookup_insert_ne.
    apply Hi; [apply list_elem_of_here|by rewrite Hg].
Qed.

Lemma update_loop_length fl cmds found w w' r :
  update_loop mungeHTML cloze_nums base fl cmds found w = (w', r) ->
  length (w_fields w') = length (w_fields w).
Proof.
  revert cmds found w. induction fl as [|f fl IH]; intros cmds found w.
  - by intros [= <- <-].
  - rewrite update_loop_step.
    destruct (cloze_field_regex base (name f)) as [g|]; [|by apply IH].
    destruct (Str.int_of_digits g) as [n0|e]; [|by intros [= <- <-]].
    destruct (w_fields w !! ord f) as [cur|]; [|by intros [= <- <-]].
    destruct (in_one_or_empty (Str.strip cur)); [|by apply IH].
    intros ->%IH. simpl. apply length_insert.
Qed.

Lemma managed_command_insert (fields : list string) i v (fl : list field) :
  i ∉ ord <$> fl ->
  omap (managed_command cloze_nums base (<[i := v]> fields)) fl
  = omap (managed_command cloze_nums base fields) fl.
Proof.
  induction fl as [|f fl IH]; [done|].
  rewrite fmap_cons, not_elem_of_cons. intros [Hne Hnotin].
  assert (managed_command cloze_nums base (<[i := v]> fields) f
          = managed_command cloze_nums base fields f) as Hf.
  { unfold managed_command. by rewrite list_lookup_insert_ne. }
  change (omap ?h (f :: fl)) with
    (match h f with Some y => y :: omap h fl | None => omap h fl end).
  by rewrite Hf, (IH Hnotin).
Qed.

(** The commands are those of the managed fields, in the order of the
    schema. *)
Lemma update_loop_commands fl cmds found w w' cmds' found' :
  NoDup (ord <$> fl) ->
  update_loop mungeHTML cloze_nums base fl cmds found w = (w', Ok (cmds', found')) ->
  cmds' = (cmds ++ omap (managed_command cloze_nums base (w_fields w)) fl)%list.
Proof.
  revert cmds found w. induction fl as [|f fl IH]; intros cmds found w Hnd.
  - intros [= <- <- <-]. by rewrite List.app_nil_r.
  - rewrite fmap_cons in Hnd. apply NoDup_cons in Hnd as [Hnotin Hnd].
    rewrite update_loop_step. simpl omap. unfold managed_command at 1.
    destruct (cloze_field_regex base (name f)) as [g|]; [|by apply IH].
    destruct (Str.int_of_digits g) as [n0|e]; [|discriminate].
    destruct (w_fields w !! ord f) as [cur|] eqn:Hcur; [|discriminate].
    destruct (in_one_or_empty (Str.strip cur)); [|by apply IH].
    intros ->%IH; [|done]. rewrite <- List.app_assoc. simpl.
    by rewrite managed_command_insert.
Qed.

End ReconcilerFacts.

(** Where the digits after the cloze field's name in the names of the
    note type are within the limit of [int()], [update_cloze_fields]
    returns exactly when the ordinal of every numbered field of the cloze
    field is inside the note, and the only exception it raises is
    [IndexError]. *)
Theorem update_cloze_fields_raises_iff_out_of_range
    (mungeHTML : string -> string) (cloze_nums : gset N) (base : string)
    (model : model_t) (w : world) :
  (forall f g, f ∈ flds model -> cloze_field_regex base (name f) = Some g ->
     within_int_limit g) ->
  ((exists w' x, update_cloze_fields mungeHTML cloze_nums base model w = (w', Ok x))
   <-> forall f, f ∈ flds model -> cloze_field_regex base (name f) <> None ->
         (ord f < length (w_fields w))%nat)
  /\ forall w' e, update_cloze_fields mungeHTML cloze_nums base model w = (w', Raise e) ->
       e = IndexError.
Proof.
  intros _. unfold update_cloze_fields.
  destruct (update_loop_outcome mungeHTML cloze_nums base (flds model) [] ∅ w)
    as [[Hr (w1 & x & E)]|[(f & Hf & Hm & Hbad) (w1 & E)]]; rewrite E.
  - split; [split; [done|by eauto]|]. intros w' e. discriminate.
  - split; [|by intros w' e [= _ <-]]. split.
    + intros (w' & x & Hx). discriminate.
    + intros Hr. specialize (Hr f Hf Hm). lia.
Qed.

Lemma update_cloze_fields_raises_iff_out_of_range_witness :
  let model := {| flds := [ {| name := "Field1"; ord := 0 |};
                            {| name := "Field2"; ord := 5 |} ];
                  tmpls := [] |} in
  let w := {| w_fields := ["1"]; w_col := ∅; w_trace := [] |} in
  ((exists w' x, update_cloze_fields anki_mungeHTML {[1%N]} "Field" model w = (w', Ok x))
   <-> forall f, f ∈ flds model -> cloze_field_regex "Field" (name f) <> None ->
         (ord f < length (w_fields w))%nat)
  /\ forall w' e, update_cloze_fields anki_mungeHTML {[1%N]} "Field" model w = (w', Raise e) ->
       e = IndexError.
Proof.
  intros model w.
  apply (update_cloze_fields_raises_iff_out_of_range anki_mungeHTML {[1%N]} "Field" model w).
  intros f g Hf Hg. simpl in Hf.
  repeat (apply elem_of_cons in Hf as [->|Hf];
          [vm_compute in Hg; injection Hg as <-; by vm_compute|]).
  by apply not_elem_of_nil in Hf.
Defined.

(** [update_cloze_fields] touches nothing but numbered fields of the cloze
    field: every other field keeps its value, the note keeps its number of
    fields, no host call is made and the collection is left alone, also
    when it raises. *)
Theorem update_cloze_fields_frame
    (mungeHTML : string -> string) (cloze_nums : gset N) (base : string)
    (model : model_t) (w : world) :
  let w' := (update_cloze_fields mungeHTML cloze_nums base model w).1 in
  (forall i, (forall f, f ∈ flds model -> cloze_field_regex base (name f) <> None ->
                ord f <> i) ->
     w_fields w' !! i = w_fields w !! i)
  /\ length (w_fields w') = length (w_fields w)
  /\ w_trace w' = w_trace w /\ w_col w' = w_col w.
Proof.
  unfold update_cloze_fields.
  destruct (update_loop mungeHTML cloze_nums base (flds model) [] ∅ w) as [w' r] eqn:E.
  simpl. split; [|split].
  - intros i Hi. by eapply update_loop_frame_numbered.
  - by eapply update_loop_length.
  - by eapply update_loop_trace.
Qed.

(** With distinct ordinals inside the note, [update_cloze_fields] issues
    one command for each numbered field whose stripped value is ["1"] or
    empty, in the order of the schema, whether or not the value changes. *)
Theorem update_cloze_fields_commands
    (mungeHTML : string -> string) (cloze_nums : gset N) (base : string)
    (model : model_t) (w : world) :
  NoDup (ord <$> flds model) ->
  (forall f, f ∈ flds model -> (ord f < length (w_fields w))%nat) ->
  exists w' found,
    update_cloze_fields mungeHTML cloze_nums base model w
    = (w', Ok (omap (managed_command cloze_nums base (w_fields w)) (flds model), found)).
Proof.
  intros Hnd Hr. unfold update_cloze_fields.
  destruct (update_loop_ok mungeHTML cloze_nums base (flds model) [] ∅ w Hr)
    as (w' & cmds & found & E & _).
  exists w', found. rewrite E. do 3 f_equal.
  by apply update_loop_commands in E.
Qed.

Lemma update_cloze_fields_commands_witness :
  let model := {| flds := [ {| name := "ExpressionCloze"; ord := 0 |};
                            {| name := "ExpressionCloze1"; ord := 1 |};
                            {| name := "ExpressionCloze2"; ord := 2 |};
                            {| name := "ExpressionCloze3"; ord := 3 |} ];
                  tmpls := [] |} in
  let w := {| w_fields := ["((c1::a))"; "1"; "note to self"; " "];
              w_col := ∅; w_trace := [] |} in
  exists w' found,
    update_cloze_fields anki_mungeHTML {[1%N]} "ExpressionCloze" model w
    = (w', Ok (omap (managed_command {[1%N]} "ExpressionCloze" (w_fields w)) (flds model),
               found)).
Proof.
  intros model w.
  apply (update_cloze_fields_commands anki_mungeHTML {[1%N]} "ExpressionCloze" model w).
  - apply (bool_decide_unpack _). vm_compute. exact I.
  - apply (Forall_forall (fun f => ord f < 4)%nat). repeat constructor.
Defined.

Lemma omap_ext_elem {A B} (h1 h2 : A -> option B) (l : list A) :
  (forall x, x ∈ l -> h1 x = h2 x) -> omap h1 l = omap h2 l.
Proof.
  induction l as [|x l IH]; intros H; [done|].
  change (omap ?h (x :: l)) with
    (match h x with Some y => y :: omap h l | None => omap h l end).
  rewrite (H x (list_elem_of_here _ _)), IH; [done|].
  intros y Hy. by apply H, list_elem_of_further.
Qed.

Lemma set_field_same w i v : w_fields w !! i = Some v -> set_field w i v = w.
Proof.
  intros H. destruct w as [fs col tr]. unfold set_field. simpl in *.
  by rewrite list_insert_id.
Qed.

(** Where every managed numbered field already shows what is wanted, the
    reconciler leaves the note as it is. *)
Lemma update_loop_settled mungeHTML cloze_nums base fl cmds found w :
  (forall f, f ∈ fl -> (ord f < length (w_fields w))%nat) ->
  (forall f g n v, f ∈ fl -> cloze_field_regex base (name f) = Some g ->
     Str.int_of_digits g = Ok n -> w_fields w !! ord f = Some v ->
     in_one_or_empty (Str.strip v) = true ->
     v = mungeHTML (field_content cloze_nums n)) ->
  exists r, update_loop mungeHTML cloze_nums base fl cmds found w = (w, Ok r).
Proof.
  revert cmds found. induction fl as [|f fl IH]; intros cmds found Hr Hs.
  - by eexists.
  - rewrite update_loop_step.
    assert (forall cmds0 found0, exists r,
      update_loop mungeHTML cloze_nums base fl cmds0 found0 w = (w, Ok r)) as Hrest.
    { intros cmds0 found0. apply IH.
      - intros f0 Hf0. by apply Hr, list_elem_of_further.
      - intros f0 g n v Hf0. by apply Hs, list_elem_of_further. }
    destruct (cloze_field_regex base (name f)) as [g|] eqn:Hg; [|done].
    destruct (cloze_field_regex_int _ _ _ Hg) as [n Hn]. rewrite Hn.
    destruct (lookup_lt_is_Some_2 (w_fields w) (ord f)) as [cur Hcur].
    { apply Hr, list_elem_of_here. }
    rewrite Hcur. destruct (in_one_or_empty (Str.strip cur)) eqn:Hguard; [|done].
    rewrite <- (Hs f g n cur (list_elem_of_here _ _) Hg Hn Hcur Hguard).
    by rewrite (set_field_same w (ord f) cur Hcur).
Qed.

(** When what [mungeHTML] makes of ["1"] and of the placeholder is itself
    taken for a managed value, as with the host's own [mungeHTML], running
    [update_cloze_fields] a second time leaves the note as the first run
    left it, and issues the same commands again. *)
Theorem update_cloze_fields_twice
    (mungeHTML : string -> string) (cloze_nums : gset N) (base : string)
    (model : model_t) (w : world) :
  in_one_or_empty (Str.strip (mungeHTML "1")) = true ->
  in_one_or_empty (Str.strip (mungeHTML "<br>")) = true ->
  NoDup (ord <$> flds model) ->
  (forall f, f ∈ flds model -> (ord f < length (w_fields w))%nat) ->
  exists w1 r,
    update_cloze_fields mungeHTML cloze_nums base model w = (w1, Ok r)
    /\ update_cloze_fields mungeHTML cloze_nums base model w1 = (w1, Ok r).
Proof.
  intros Hm1 Hm2 Hnd Hr. unfold update_cloze_fields.
  destruct (update_loop_ok mungeHTML cloze_nums base (flds model) [] ∅ w Hr)
    as (w1 & cmds & found & E & _ & _ & Hlen).
  simpl in E. exists w1, (cmds, found). split; [done|].
  assert (forall f, f ∈ flds model -> (ord f < length (w_fields w1))%nat) as Hr1.
  { intros f Hf. rewrite Hlen. by apply Hr. }
  assert (forall n, in_one_or_empty
            (Str.strip (mungeHTML (field_content cloze_nums n))) = true) as Hm.
  { intros n. unfold field_content. by destruct (decide _). }
  assert (forall f g n, f ∈ flds model -> cloze_field_regex base (name f) = Some g ->
            Str.int_of_digits g = Ok n ->
            exists v, w_fields w !! ord f = Some v
              /\ w_fields w1 !! ord f
                 = Some (if in_one_or_empty (Str.strip v)
                         then mungeHTML (field_content cloze_nums n) else v)) as Hval.
  { intros f g n Hf Hg Hn.
    destruct (lookup_lt_is_Some_2 (w_fields w) (ord f)) as [v Hv]; [by apply Hr|].
    exists v. split; [done|].
    destruct (in_one_or_empty (Str.strip v)) eqn:Hguard.
    - by eapply update_loop_overwrites.
    - by eapply update_loop_protected. }
  destruct (update_loop_settled mungeHTML cloze_nums base (flds model) [] ∅ w1 Hr1)
    as [[cmds2 found2] E2].
  { intros f g n v1 Hf Hg Hn Hv1 Hguard1.
    destruct (Hval f g n Hf Hg Hn) as (v & Hv & Hw1). rewrite Hw1 in Hv1.
    injection Hv1 as <-. destruct (in_one_or_empty (Str.strip v)) eqn:Hguard; [done|].
    congruence. }
  rewrite E2. do 3 f_equal.
  - rewrite (update_loop_commands _ _ _ _ _ _ _ _ _ _ Hnd E2),
      (update_loop_commands _ _ _ _ _ _ _ _ _ _ Hnd E).
    f_equal. apply omap_ext_elem. intros f Hf. unfold managed_command.
    destruct (cloze_field_regex base (name f)) as [g|] eqn:Hg; [|done].
    destruct (cloze_field_regex_int _ _ _ Hg) as [n Hn]. rewrite Hn.
    destruct (Hval f g n Hf Hg Hn) as (v & -> & ->).
    destruct (in_one_or_empty (Str.strip v)) eqn:Hguard; [by rewrite Hm|by rewrite Hguard].
  - apply set_eq. intros n.
    rewrite (update_loop_found _ _ _ _ _ _ _ _ _ _ E2 n),
      (update_loop_found _ _ _ _ _ _ _ _ _ _ E n). done.
Qed.

Lemma update_cloze_fields_twice_witness :
  let model := {| flds := [ {| name := "ExpressionCloze"; ord := 0 |};
                            {| name := "ExpressionCloze1"; ord := 1 |};
                            {| name := "ExpressionCloze2"; ord := 2 |} ];
                  tmpls := [] |} in
  let w := {| w_fields := ["((c2::a))"; "1"; ""]; w_col := ∅; w_trace := [] |} in
  exists w1 r,
    update_cloze_fields anki_mungeHTML {[2%N]} "ExpressionCloze" model w = (w1, Ok r)
    /\ update_cloze_fields anki_mungeHTML {[2%N]} "ExpressionCloze" model w1 = (w1, Ok r).
Proof.
  intros model w.
  apply (update_cloze_fields_twice anki_mungeHTML {[2%N]} "ExpressionCloze" model w).
  - reflexivity.
  - reflexivity.
  - apply (bool_decide_unpack _). vm_compute. exact I.
  - apply (Forall_forall (fun f => ord f < 3)%nat). repeat constructor.
Defined.

(** ** The insert-marker request, path by path *)

Lemma startswith_app p r : Str.startswith (p ++ r) p = true.
Proof. unfold Str.startswith. by rewrite strip_prefix_app. Qed.

Lemma search_cloze_tmpl_unfold s :
  search_cloze_tmpl s =
  cloze_tmpl_at s || match s with EmptyString => false | String _ r => search_cloze_tmpl r end.
Proof. by destruct s. Qed.

Lemma search_cloze_tmpl_app pre s :
  search_cloze_tmpl s = true -> search_cloze_tmpl (pre ++ s) = true.
Proof.
  intros Hs. induction pre as [|c pre IH]; [done|].
  rewrite sapp_cons, search_cloze_tmpl_unfold, IH. apply orb_true_r.
Qed.

Lemma colon_then_cloze_cons c r :
  colon_then_cloze (String c r) =
  if Ascii.eqb c Str.newline then false
  else (Ascii.eqb c ":" && Str.startswith r "cloze:") || colon_then_cloze r.
Proof. reflexivity. Qed.

Lemma colon_then_cloze_filters y post :
  Str.all Str.is_dot y = true -> colon_then_cloze (y ++ ":cloze:" ++ post) = true.
Proof.
  induction y as [|c y IH].
  - intros _. change ("" ++ ":cloze:" ++ post) with (String ":" ("cloze:" ++ post)).
    rewrite colon_then_cloze_cons, (startswith_app "cloze:" post). reflexivity.
  - intros [Hc Hy]%andb_true_iff. rewrite sapp_cons, colon_then_cloze_cons.
    unfold Str.is_dot in Hc.
    destruct (Ascii.eqb c Str.newline); [done|]. rewrite (IH Hy). apply orb_true_r.
Qed.

(** A question template that uses the cloze filter, alone or after other
    filters, marks a native cloze note type. *)
Lemma search_cloze_tmpl_filter pre y post :
  Str.all Str.is_dot y = true ->
  search_cloze_tmpl (pre ++ "{{cloze:" ++ post) = true
  /\ search_cloze_tmpl (pre ++ "{{" ++ y ++ ":cloze:" ++ post) = true.
Proof.
  intros Hy. split; apply search_cloze_tmpl_app; rewrite search_cloze_tmpl_unfold.
  - unfold cloze_tmpl_at. change ("{{cloze:" ++ post) with ("{{" ++ "cloze:" ++ post).
    rewrite (strip_prefix_app "{{" ("cloze:" ++ post)).
    by rewrite (startswith_app "cloze:" post).
  - unfold cloze_tmpl_at. rewrite (strip_prefix_app "{{" (y ++ ":cloze:" ++ post)).
    rewrite colon_then_cloze_filters by done. by rewrite orb_true_r.
Qed.

(** On a note type whose first question template uses the cloze filter,
    alone or after other filters on the same line, [onCloze] hands over to
    the host's own handler and does nothing else. *)
Theorem onCloze_defers_to_native
    (mungeHTML : string -> string) (self : editor) (nid : Z) (model : model_t)
    (w : world) (qfmt pre y post : string) (tl : list string) :
  ed_note self = Some (nid, model) ->
  tmpls model = qfmt :: tl ->
  Str.all Str.is_dot y = true ->
  qfmt = pre ++ "{{cloze:" ++ post \/ qfmt = pre ++ "{{" ++ y ++ ":cloze:" ++ post ->
  onCloze mungeHTML self w = (add_event w OldOnCloze, Ok tt).
Proof.
  intros Hnote Htm Hy Hq. unfold onCloze. rewrite Hnote, Htm.
  rewrite (bind_run _ _ w w qfmt) by reflexivity.
  destruct (search_cloze_tmpl_filter pre y post Hy) as [H1 H2].
  by destruct Hq as [-> | ->]; rewrite ?H1, ?H2.
Qed.

Lemma onCloze_defers_to_native_witness :
  let model := {| flds := [ {| name := "Text"; ord := 0 |} ];
                  tmpls := ["<b>{{type:cloze:Text}}</b>"] |} in
  let self := {| ed_note := Some (7%Z, model); currentField := 0; alt_modifier := false |} in
  let w := {| w_fields := ["{{c1::a}}"]; w_col := ∅; w_trace := [] |} in
  onCloze anki_mungeHTML self w = (add_event w OldOnCloze, Ok tt).
Proof.
  intros model self w.
  apply (onCloze_defers_to_native anki_mungeHTML self 7%Z model w
           "<b>{{type:cloze:Text}}</b>" "<b>" "type" "Text}}</b>" []);
    [reflexivity|reflexivity|reflexivity|by right].
Defined.

(** Asked to cloze in a field whose name does not end in [Cloze],
    [onCloze] only shows a notice, one for an empty field and another for a
    non-empty one; the note is not changed and nothing is sent to the web
    view. *)
Theorem onCloze_rejects_other_fields
    (mungeHTML : string -> string) (self : editor) (nid : Z) (model : model_t)
    (w : world) (qfmt : string) (tl : list string) (content : string) (f : field) :
  ed_note self = Some (nid, model) ->
  tmpls model = qfmt :: tl -> search_cloze_tmpl qfmt = false ->
  w_fields w !! currentField self = Some content ->
  flds model !! currentField self = Some f ->
  Str.endswith (name f) "Cloze" = false ->
  onCloze mungeHTML self w
  = (add_event w (Tooltip
       (if String.eqb content ""
        then "Cannot populate empty field " ++ name f
               ++ " because name does not end in Cloze"
        else "Cannot cloze unless field ends in name Cloze")), Ok tt).
Proof.
  intros Hnote Htm Hq Hcur Hf Hend. unfold onCloze. rewrite Hnote, Htm.
  rewrite (bind_run _ _ w w qfmt) by reflexivity. rewrite Hq.
  rewrite (bind_run _ _ w w content) by by apply read_field_run.
  rewrite (bind_run _ _ w w f) by (unfold lift; by rewrite py_index_nat, Hf).
  rewrite Hend. by destruct (String.eqb content "").
Qed.

Lemma onCloze_rejects_other_fields_witness :
  let model := {| flds := [ {| name := "Expression"; ord := 0 |};
                            {| name := "ExpressionCloze"; ord := 1 |} ];
                  tmpls := ["{{Expression}}"] |} in
  let self := {| ed_note := Some (7%Z, model); currentField := 0; alt_modifier := false |} in
  let w := {| w_fields := ["bonjour"; ""]; w_col := ∅; w_trace := [] |} in
  onCloze anki_mungeHTML self w
  = (add_event w (Tooltip
       (if String.eqb "bonjour" ""
        then "Cannot populate empty field " ++ "Expression"
               ++ " because name does not end in Cloze"
        else "Cannot cloze unless field ends in name Cloze")), Ok tt).
Proof.
  intros model self w.
  apply (onCloze_rejects_other_fields anki_mungeHTML self 7%Z model w
           "{{Expression}}" [] "bonjour" {| name := "Expression"; ord := 0 |});
    reflexivity.
Defined.

Lemma endswith_app_r pre p : Str.endswith (pre ++ p) p = true.
Proof.
  induction pre as [|c pre IH]; rewrite endswith_unfold.
  - by rewrite sapp_nil_l, String.eqb_refl.
  - rewrite sapp_cons, IH. apply orb_true_r.
Qed.

Lemma substring_app_l x y : substring 0 (String.length x) (x ++ y) = x.
Proof.
  induction x as [|c x IH]; [by destruct y|].
  rewrite sapp_cons. simpl. by rewrite IH.
Qed.

(** [name[:-len("Cloze")]] of a cloze field is the name of its source
    field. *)
Lemma drop_last_cloze x : Str.drop_last 5 (x ++ "Cloze") = x.
Proof.
  unfold Str.drop_last. rewrite slength_app.
  change (String.length "Cloze") with 5%nat. rewrite Nat.add_sub.
  apply substring_app_l.
Qed.

Lemma find_ord_Some (fl : list field) fs :
  NoDup (name <$> fl) -> fs ∈ fl -> find_ord fl (name fs) = Some (ord fs).
Proof.
  unfold find_ord. induction fl as [|f fl IH]; [by intros _ ?%not_elem_of_nil|].
  rewrite fmap_cons. intros [Hnotin Hnd]%NoDup_cons Hfs. simpl.
  destruct (String.eqb_spec (name f) (name fs)) as [Heq|Hne].
  - apply elem_of_cons in Hfs as [->|Hfs]; [done|].
    destruct Hnotin. rewrite Heq. apply list_elem_of_fmap. eauto.
  - apply elem_of_cons in Hfs as [->|Hfs]; [done|]. by apply IH.
Qed.

Lemma find_ord_None (fl : list field) x :
  (forall f, f ∈ fl -> name f <> x) -> find_ord fl x = None.
Proof.
  unfold find_ord. induction fl as [|f fl IH]; [done|]. intros H. simpl.
  destruct (String.eqb_spec (name f) x) as [Heq|_].
  - by destruct (H f (list_elem_of_here _ _)).
  - apply IH. intros f0 Hf0. by apply H, list_elem_of_further.
Qed.

(** Asked to cloze in an empty field [<Name>Cloze], [onCloze] inserts the
    content of the field [<Name>] through the web view when the note type
    has that field, and shows a notice when it has not; the note itself is
    not changed and no marker is proposed. *)
Theorem onCloze_fills_empty_field_from_source
    (mungeHTML : string -> string) (self : editor) (nid : Z) (model : model_t)
    (w : world) (qfmt : string) (tl : list string) (f : field) (x : string) :
  ed_note self = Some (nid, model) ->
  tmpls model = qfmt :: tl -> search_cloze_tmpl qfmt = false ->
  w_fields w !! currentField self = Some "" ->
  flds model !! currentField self = Some f ->
  name f = x ++ "Cloze" ->
  (forall fs src,
     NoDup (name <$> flds model) -> fs ∈ flds model -> name fs = x ->
     w_fields w !! ord fs = Some src ->
     onCloze mungeHTML self w = (add_event w (WebEval [JsInsertHtml src]), Ok tt))
  /\ ((forall f0, f0 ∈ flds model -> name f0 <> x) ->
      onCloze mungeHTML self w
      = (add_event w (Tooltip ("Cannot populate empty field " ++ name f
                                ++ " because other field " ++ x
                                ++ " was not found to copy from")), Ok tt)).
Proof.
  intros Hnote Htm Hq Hcur Hf Hname.
  assert (onCloze mungeHTML self w =
          match find_ord (flds model) x with
          | Some o => (let* content := read_field o in
                       emit (WebEval [JsInsertHtml content])) w
          | None => emit (Tooltip ("Cannot populate empty field " ++ name f
                                   ++ " because other field " ++ x
                                   ++ " was not found to copy from")) w
          end) as ->.
  { unfold onCloze. rewrite Hnote, Htm.
    rewrite (bind_run _ _ w w qfmt) by reflexivity. rewrite Hq.
    rewrite (bind_run _ _ w w "") by by apply read_field_run.
    rewrite (bind_run _ _ w w f) by (unfold lift; by rewrite py_index_nat, Hf).
    cbn [String.eqb negb]. rewrite Hname, endswith_app_r, drop_last_cloze.
    by destruct (find_ord (flds model) x). }
  split.
  - intros fs src Hnd Hfs <- Hsrc. rewrite (find_ord_Some _ _ Hnd Hfs).
    by rewrite (bind_run _ _ w w src) by by apply read_field_run.
  - intros Hnone. by rewrite (find_ord_None _ _ Hnone).
Qed.

Lemma onCloze_fills_empty_field_from_source_witness :
  let model := {| flds := [ {| name := "Expression"; ord := 0 |};
                            {| name := "ExpressionCloze"; ord := 1 |};
                            {| name := "MeaningCloze"; ord := 2 |} ];
                  tmpls := ["{{Expression}}"] |} in
  let self := {| ed_note := Some (7%Z, model); currentField := 1; alt_modifier := false |} in
  let w := {| w_fields := ["bonjour"; ""; ""]; w_col := ∅; w_trace := [] |} in
  (forall fs src,
     NoDup (name <$> flds model) -> fs ∈ flds model -> name fs = "Expression" ->
     w_fields w !! ord fs = Some src ->
     onCloze anki_mungeHTML self w = (add_event w (WebEval [JsInsertHtml src]), Ok tt))
  /\ ((forall f0, f0 ∈ flds model -> name f0 <> "Expression") ->
      onCloze anki_mungeHTML self w
      = (add_event w (Tooltip ("Cannot populate empty field "
                                ++ name {| name := "ExpressionCloze"; ord := 1 |}
                                ++ " because other field " ++ "Expression"
                                ++ " was not found to copy from")), Ok tt)).
Proof.
  intros model self w.
  apply (onCloze_fills_empty_field_from_source anki_mungeHTML self 7%Z model w
           "{{Expression}}" [] {| name := "ExpressionCloze"; ord := 1 |} "Expression");
    reflexivity.
Defined.

(** After [onCloze] has proposed an identifier, the note is reconciled
    with the identifiers of the field together with the new one: a
    numbered field whose stripped value is ["1"] or empty is switched on
    when its number is the new identifier or one of the field's, and
    switched off otherwise; a numbered field with other content and every
    other field, the cloze field itself included, keep their values. *)
Theorem onCloze_reconciles_with_new_identifier
    (mungeHTML : string -> string) (self : editor) (nid : Z) (model : model_t)
    (w : world) (qfmt : string) (tl : list string) (content : string) (f : field) :
  ed_note self = Some (nid, model) ->
  tmpls model = qfmt :: tl -> search_cloze_tmpl qfmt = false ->
  w_fields w !! currentField self = Some content -> content <> "" ->
  flds model !! currentField self = Some f ->
  Str.endswith (name f) "Cloze" = true ->
  NoDup (ord <$> flds model) ->
  (forall f0, f0 ∈ flds model -> (ord f0 < length (w_fields w))%nat) ->
  exists (cloze_nums : gset N) w',
    get_cloze_nums content = Ok cloze_nums
    /\ onCloze mungeHTML self w = (w', Ok tt)
    /\ (forall f1 g n v,
          f1 ∈ flds model -> cloze_field_regex (name f) (name f1) = Some g ->
          Str.int_of_digits g = Ok n -> w_fields w !! ord f1 = Some v ->
          w_fields w' !! ord f1
          = Some (if in_one_or_empty (Str.strip v)
                  then mungeHTML
                         (if decide (n = next_cloze_num cloze_nums (alt_modifier self)
                                     \/ n ∈ cloze_nums)
                          then "1" else "<br>")
                  else v))
    /\ (forall i,
          (forall f1, f1 ∈ flds model ->
             cloze_field_regex (name f) (name f1) <> None -> ord f1 <> i) ->
          w_fields w' !! i = w_fields w !! i).
Proof.
  intros Hnote Htm Hq Hcur Hne Hf Hend Hnd Hr.
  destruct (onCloze_insert mungeHTML self nid model w qfmt tl content f)
    as (cloze_nums & w1 & cmds & found & Hnums & Hupd & Hrun); [done..|].
  simpl in Hupd, Hrun. unfold update_cloze_fields in Hupd.
  eexists cloze_nums, _. split; [done|]. split; [exact Hrun|]. simpl. split.
  - intros f1 g n v Hf1 Hg Hn Hv.
    destruct (in_one_or_empty (Str.strip v)) eqn:Hguard.
    + destruct (update_loop_overwrites _ _ _ _ _ _ _ _ _ _ _ _ _ _
                  Hnd Hf1 Hg Hn Hv Hguard Hupd) as [-> _].
      unfold field_content. do 2 f_equal.
      destruct (decide (n ∈ _)) as [Hin|Hin]; destruct (decide (_ \/ _)) as [Ho|Ho];
        try done.
      * destruct Ho. apply elem_of_union in Hin as [?|Hin]; [by right|].
        apply elem_of_singleton in Hin. by left.
      * destruct Hin. apply elem_of_union.
        destruct Ho as [->|?]; [right; by apply elem_of_singleton|by left].
    + by destruct (update_loop_protected _ _ _ _ _ _ _ _ _ _ _ Hv Hguard Hupd).
  - intros i Hi. by eapply update_loop_frame_numbered.
Qed.

Lemma onCloze_reconciles_with_new_identifier_witness :
  let model := {| flds := [ {| name := "ExpressionCloze"; ord := 0 |};
                            {| name := "ExpressionCloze1"; ord := 1 |};
                            {| name := "ExpressionCloze2"; ord := 2 |};
                            {| name := "ExpressionCloze3"; ord := 3 |} ];
                  tmpls := ["{{Expression}}"] |} in
  let self := {| ed_note := Some (7%Z, model); currentField := 0; alt_modifier := false |} in
  let w := {| w_fields := ["((c1::a)) b"; "1"; ""; "1"]; w_col := ∅; w_trace := [] |} in
  exists (cloze_nums : gset N) w',
    get_cloze_nums "((c1::a)) b" = Ok cloze_nums
    /\ onCloze anki_mungeHTML self w = (w', Ok tt)
    /\ (forall f1 g n v,
          f1 ∈ flds model ->
          cloze_field_regex "ExpressionCloze" (name f1) = Some g ->
          Str.int_of_digits g = Ok n -> w_fields w !! ord f1 = Some v ->
          w_fields w' !! ord f1
          = Some (if in_one_or_empty (Str.strip v)
                  then anki_mungeHTML
                         (if decide (n = next_cloze_num cloze_nums (alt_modifier self)
                                     \/ n ∈ cloze_nums)
                          then "1" else "<br>")
                  else v))
    /\ (forall i,
          (forall f1, f1 ∈ flds model ->
             cloze_field_regex "ExpressionCloze" (name f1) <> None -> ord f1 <> i) ->
          w_fields w' !! i = w_fields w !! i).
Proof.
  intros model self w.
  apply (onCloze_reconciles_with_new_identifier anki_mungeHTML self 7%Z model w
           "{{Expression}}" [] "((c1::a)) b" {| name := "ExpressionCloze"; ord := 0 |}).
  - reflexivity.
  - reflexivity.
  - reflexivity.
  - reflexivity.
  - discriminate.
  - reflexivity.
  - reflexivity.
  - apply (bool_decide_unpack _). vm_compute. exact I.
  - apply (Forall_forall (fun f => ord f < 4)%nat). repeat constructor.
Defined.


(** ** The live text-change handler, event by event *)

Lemma cut_colon_app a r :
  Str.all not_colon a = true -> Str.cut_colon (a ++ ":" ++ r) = Some (a, r).
Proof.
  induction a as [|c a IH]; [done|].
  intros [Hc Ha]%andb_true_iff. rewrite sapp_cons.
  change (Str.cut_colon (String c ?s)) with
    (if Ascii.eqb c ":" then Some (EmptyString, s)
     else option_map (fun ab => (String c (fst ab), snd ab)) (Str.cut_colon s)).
  unfold not_colon in Hc. destruct (Ascii.eqb c ":"); [done|].
  by rewrite (IH Ha).
Qed.

(** The event text [kind:ord:nid:content] splits into its four parts, with
    the content whole, colons and all. *)
Lemma split_colon_event a b c d :
  Str.all not_colon a = true -> Str.all not_colon b = true ->
  Str.all not_colon c = true ->
  Str.split_colon 3 (a ++ ":" ++ b ++ ":" ++ c ++ ":" ++ d) = [a; b; c; d].
Proof.
  intros Ha Hb Hc. cbn [Str.split_colon].
  rewrite (cut_colon_app a _ Ha), (cut_colon_app b _ Hb), (cut_colon_app c _ Hc). done.
Qed.

(** Events that are not for a cloze field of the open note change nothing:
    with no note open, for a command that is neither [blur:] nor [key:],
    for an event that carries another note's id (or none, or 0), and for a
    field whose name does not end in [Cloze], [onBridgeCmd] only calls the
    host's handler. *)
Theorem onBridgeCmd_ignores_other_events
    (mungeHTML : string -> string) (self : editor) (cmd : string) (w : world) :
  ed_note self = None
  \/ (Str.startswith cmd "blur:" = false /\ Str.startswith cmd "key:" = false)
  \/ (exists note_id model kind idx nid content,
        ed_note self = Some (note_id, model)
        /\ cmd = kind ++ ":" ++ idx ++ ":" ++ nid ++ ":" ++ content
        /\ Str.all not_colon kind = true /\ Str.all not_colon idx = true
        /\ Str.all not_colon nid = true
        /\ (Str.int nid <> Ok note_id \/ note_id = 0%Z
            \/ exists i f, Str.int idx = Ok i /\ py_index (flds model) i = Ok f
                           /\ Str.endswith (name f) "Cloze" = false)) ->
  onBridgeCmd mungeHTML self cmd w = (add_event w (OldBridgeCmd cmd), Ok tt).
Proof.
  intros H.
  assert ((onBridgeCmd_try mungeHTML self cmd w).1 = w) as Htry.
  { unfold onBridgeCmd_try.
    destruct H as [->|[[H1 H2]|H]]; [done| |].
    - rewrite H1, H2. by destruct (ed_note self) as [[]|].
    - destruct H as (note_id & model & kind & idx & nid & content
                     & -> & -> & Hk & Hi & Hn & Hcase).
      destruct (_ || _); [|done].
      rewrite (split_colon_event kind idx nid content Hk Hi Hn).
      unfold bind at 1, lift at 1.
      destruct (Str.int idx) as [i|e] eqn:Hidx; [|done].
      destruct (Str.int nid) as [n|e] eqn:Hnid; [|done].
      destruct (Z.eqb_spec n 0) as [->|Hn0]; [done|]. cbn [negb andb].
      destruct (Z.eqb_spec n note_id) as [->|Hne]; [|done].
      destruct Hcase as [Hbad|[->|(i' & f & [= <-] & Hf & Hend)]]; [done..|].
      unfold bind at 1, lift at 1. rewrite Hf. by rewrite Hend. }
  unfold onBridgeCmd, bind, suppress.
  destruct (onBridgeCmd_try mungeHTML self cmd w) as [w' r]. simpl in Htry. by subst w'.
Qed.

Lemma onBridgeCmd_ignores_other_events_witness :
  let model := {| flds := [ {| name := "ExpressionCloze"; ord := 0 |};
                            {| name := "ExpressionCloze1"; ord := 1 |} ];
                  tmpls := [] |} in
  let self := {| ed_note := Some (7%Z, model); currentField := 0; alt_modifier := false |} in
  let w := {| w_fields := ["text"; ""]; w_col := ∅; w_trace := [] |} in
  onBridgeCmd anki_mungeHTML self "key:0:8:((c1::text))" w
  = (add_event w (OldBridgeCmd "key:0:8:((c1::text))"), Ok tt).
Proof.
  intros model self w.
  apply (onBridgeCmd_ignores_other_events anki_mungeHTML self "key:0:8:((c1::text))" w).
  right. right. exists 7%Z, model, "key", "0", "8", "((c1::text))".
  repeat split. left. vm_compute. discriminate.
Defined.




(** ** [auto_cloze] on one note *)

Lemma set_field_length w i v : length (w_fields (set_field w i v)) = length (w_fields w).
Proof. apply length_insert. Qed.

(** One round of the loop of [auto_cloze] over the fields of a note. *)
Lemma auto_cloze_fields_step model nid f fl c w :
  auto_cloze_fields model nid (f :: fl) c w =
  let rest := auto_cloze_fields model nid fl c w in
  if Str.endswith (name f) "Cloze" then
    match w_fields w !! ord f with
    | None => (w, Raise IndexError)
    | Some cur =>
        if blank cur then
          match find_ord (flds model) (Str.drop_last 5 (name f)),
                find_ord (flds model) (name f ++ "1") with
          | Some o, Some o1 =>
              match w_fields w !! o1 with
              | None => (w, Raise IndexError)
              | Some v1 =>
                  if blank v1 then
                    match w_fields w !! o with
                    | None => (w, Raise IndexError)
                    | Some content =>
                        auto_cloze_fields model nid fl (c + 1)%N
                          (flushed nid model
                             (set_field
                                (set_field w (ord f) ("((c1::" ++ content ++ "))"))
                                o1 "1"))
                    end
                  else rest
              end
          | _, _ => rest
          end
        else rest
    end
  else rest.
Proof.
  cbv zeta. unfold blank.
  change (auto_cloze_fields model nid (f :: fl) c w) with
    ((if Str.endswith (name f) "Cloze" then
        let* cur := read_field (ord f) in
        if String.eqb (Str.strip cur) "" then
          match find_ord (flds model) (Str.drop_last 5 (name f)),
                find_ord (flds model) (name f ++ "1") with
          | Some o, Some o1 =>
              let* v1 := read_field o1 in
              if String.eqb (Str.strip v1) "" then
                let* content := read_field o in
                let* _ := write_field (ord f) ("((c1::" ++ content ++ "))") in
                let* _ := write_field o1 "1" in
                let* _ := flush nid model in
                auto_cloze_fields model nid fl (c + 1)%N
              else auto_cloze_fields model nid fl c
          | _, _ => auto_cloze_fields model nid fl c
          end
        else auto_cloze_fields model nid fl c
      else auto_cloze_fields model nid fl c) w).
  destruct (Str.endswith (name f) "Cloze"); [|done].
  unfold bind at 1, read_field at 1.
  destruct (w_fields w !! ord f) as [cur|] eqn:Hcur; [|done].
  destruct (String.eqb (Str.strip cur) ""); [|done].
  destruct (find_ord (flds model) (Str.drop_last 5 (name f))) as [o|]; [|done].
  destruct (find_ord (flds model) (name f ++ "1")) as [o1|]; [|done].
  unfold bind at 1, read_field at 1.
  destruct (w_fields w !! o1) as [v1|] eqn:Hv1; [|done].
  destruct (String.eqb (Str.strip v1) ""); [|done].
  unfold bind at 1, read_field at 1.
  destruct (w_fields w !! o) as [content|]; [|done].
  apply lookup_lt_Some in Hcur, Hv1.
  unfold bind at 1, write_field at 1. rewrite decide_True by done.
  unfold bind at 1, write_field at 1.
  rewrite decide_True by (simpl; by rewrite length_insert).
  unfold bind at 1. done.
Qed.

(** [auto_cloze] overwrites blank fields only: a field that holds more
    than white space keeps its value, whatever else happens. *)
Lemma auto_cloze_fields_keeps_text model nid fl c w w' r i v :
  auto_cloze_fields model nid fl c w = (w', r) ->
  w_fields w !! i = Some v -> blank v = false ->
  w_fields w' !! i = Some v.
Proof.
  intros H Hv Hnb. revert c w H Hv.
  induction fl as [|f fl IH]; intros c w H Hv; [by injection H as <- <-|].
  rewrite auto_cloze_fields_step in H. cbv zeta in H.
  destruct (Str.endswith (name f) "Cloze"); [|by eapply IH].
  destruct (w_fields w !! ord f) as [cur|] eqn:Hcur; [|by injection H as <- <-].
  destruct (blank cur) eqn:Hbc; [|by eapply IH].
  destruct (find_ord (flds model) (Str.drop_last 5 (name f))) as [o|]; [|by eapply IH].
  destruct (find_ord (flds model) (name f ++ "1")) as [o1|]; [|by eapply IH].
  destruct (w_fields w !! o1) as [v1|] eqn:Hv1; [|by injection H as <- <-].
  destruct (blank v1) eqn:Hb1; [|by eapply IH].
  destruct (w_fields w !! o) as [content|]; [|by injection H as <- <-].
  eapply IH; [exact H|]. simpl.
  rewrite !list_lookup_insert_ne; [done| |]; intros <-; congruence.
Qed.

(** What the loop does to the collection and to the trace: it flushes the
    note object as it stands, once for each field it fills, and counts the
    flushes. *)
Lemma auto_cloze_fields_effects model nid fl c w w' r :
  auto_cloze_fields model nid fl c w = (w', r) ->
  length (w_fields w') = length (w_fields w)
  /\ (exists k, w_trace w' = (w_trace w ++ replicate k (Flush nid))%list
                /\ forall c', r = Ok c' -> c' = (c + N.of_nat k)%N)
  /\ ((w_col w' = w_col w /\ w_fields w' = w_fields w)
      \/ w_col w'
         = <[nid := {| note_model := model; note_fields := w_fields w' |}]> (w_col w)).
Proof.
  revert c w. induction fl as [|f fl IH]; intros c w H.
  - injection H as <- <-. split; [done|]. split; [|by left].
    exists 0%nat. split; [by rewrite List.app_nil_r|]. intros c' [= <-]. lia.
  - rewrite auto_cloze_fields_step in H. cbv zeta in H.
    assert (forall e, (w, @Raise N e) = (w', r) ->
      length (w_fields w') = length (w_fields w)
      /\ (exists k, w_trace w' = (w_trace w ++ replicate k (Flush nid))%list
                    /\ forall c', r = Ok c' -> c' = (c + N.of_nat k)%N)
      /\ ((w_col w' = w_col w /\ w_fields w' = w_fields w)
          \/ w_col w'
             = <[nid := {| note_model := model; note_fields := w_fields w' |}]>
                 (w_col w))) as Hraise.
    { intros e [= <- <-]. split; [done|]. split; [|by left].
      exists 0%nat. split; [by rewrite List.app_nil_r|]. discriminate. }
    destruct (Str.endswith (name f) "Cloze"); [|by apply IH].
    destruct (w_fields w !! ord f) as [cur|]; [|by eapply Hraise].
    destruct (blank cur); [|by apply IH].
    destruct (find_ord (flds model) (Str.drop_last 5 (name f))) as [o|]; [|by apply IH].
    destruct (find_ord (flds model) (name f ++ "1")) as [o1|]; [|by apply IH].
    destruct (w_fields w !! o1) as [v1|]; [|by eapply Hraise].
    destruct (blank v1); [|by apply IH].
    destruct (w_fields w !! o) as [content|]; [|by eapply Hraise].
    apply IH in H as (Hlen & (k & Ht & Hc) & Hcol). simpl in *.
    split; [by rewrite Hlen, !length_insert|]. split.
    + exists (S k). rewrite Ht, <- List.app_assoc. split; [done|].
      intros c' Hc'. rewrite (Hc c' Hc'). lia.
    + right. destruct Hcol as [[Hc1 Hc2]|Hc1]; rewrite Hc1; [by rewrite Hc2|].
      by rewrite insert_insert_eq.
Qed.


(** ** The loop over the selected notes *)

Lemma auto_cloze_notes_loop nids c w :
  auto_cloze_notes nids c w = notes_loop auto_cloze_fields nids c w.
Proof.
  revert c w. induction nids as [|nid nids IH]; intros c w; [done|].
  simpl. unfold bind. destruct (get_note nid w) as [w1 [note|e]]; [|done].
  destruct (auto_cloze_fields _ _ _ _ _) as [w2 [c2|e]]; [|done]. apply IH.
Qed.

Lemma create_missing_notes_loop nids c w :
  create_missing_notes nids c w = notes_loop create_missing_fields nids c w.
Proof.
  revert c w. induction nids as [|nid nids IH]; intros c w; [done|].
  simpl. unfold bind. destruct (get_note nid w) as [w1 [note|e]]; [|done].
  destruct (create_missing_fields _ _ _ _ _) as [w2 [c2|e]]; [|done]. apply IH.
Qed.

Lemma auto_cloze_batch nids w :
  auto_cloze nids w = batch "Auto-cloze" auto_cloze_notes nids w.
Proof. by destruct nids. Qed.

Lemma create_missing_batch nids w :
  create_missing nids w = batch "Create Missing Cloze Cards" create_missing_notes nids w.
Proof. by destruct nids. Qed.

Lemma batch_ext title loop1 loop2 nids w :
  (forall l c w0, loop1 l c w0 = loop2 l c w0) ->
  batch title loop1 nids w = batch title loop2 nids w.
Proof.
  intros Hext. destruct nids as [|nid nids]; [done|].
  unfold batch, bind. destruct (emit _ w) as [w1 [[]|e]]; [|done].
  destruct (emit _ w1) as [w2 [[]|e]]; [|done]. by rewrite Hext.
Qed.

(** A batch operation on a selection that is not empty, unfolded. *)
Lemma batch_run title loop nids w :
  nids <> [] ->
  batch title loop nids w =
  match loop nids 0%N
          (add_event (add_event w (Checkpoint (checkpoint_message title (length nids))))
             BeginReset) with
  | (w1, Ok c) =>
      (add_event
         (add_event (if (c =? 0)%N then w1 else add_event w1 RequireReset)
            (Tooltip (report_message c)))
         EndReset, Ok tt)
  | (w1, Raise e) => (w1, Raise e)
  end.
Proof.
  destruct nids as [|nid nids]; [done|]. intros _.
  unfold batch, bind, emit, add_event, checkpoint_message, report_message.
  destruct (loop _ _ _) as [w1 [c|e]]; [|done].
  by destruct (c =? 0)%N.
Qed.

Section NotesLoop.

Variable body : model_t -> Z -> list field -> N -> M N.

(** How the fields a flush stores relate to the fields the note had. *)
Variable keeps : model_t -> list string -> list string -> Prop.
Hypothesis keeps_refl : forall m fs, keeps m fs fs.
Hypothesis keeps_trans : forall m fs1 fs2 fs3,
  keeps m fs1 fs2 -> keeps m fs2 fs3 -> keeps m fs1 fs3.
Hypothesis keeps_length : forall m fs fs', keeps m fs fs' -> length fs' = length fs.

(** What the loop over the fields of one note does. *)
Hypothesis body_effects : forall model nid c w w' r,
  body model nid (flds model) c w = (w', r) ->
  (exists k, w_trace w' = (w_trace w ++ replicate k (Flush nid))%list
             /\ forall c', r = Ok c' -> c' = (c + N.of_nat k)%N)
  /\ (w_col w' = w_col w
      \/ exists fs, w_col w' = <[nid := {| note_model := model; note_fields := fs |}]> (w_col w)
                    /\ keeps model (w_fields w) fs).

Lemma notes_loop_effects nids c w w' r :
  notes_loop body nids c w = (w', r) ->
  (exists flushes, w_trace w' = (w_trace w ++ (Flush <$> flushes))%list
                   /\ (forall x, x ∈ flushes -> x ∈ nids)
                   /\ forall c', r = Ok c' -> c' = (c + N.of_nat (length flushes))%N)
  /\ (forall nid, nid ∉ nids -> w_col w' !! nid = w_col w !! nid)
  /\ (forall nid note, w_col w !! nid = Some note ->
        exists note', w_col w' !! nid = Some note'
                      /\ note_model note' = note_model note
                      /\ keeps (note_model note) (note_fields note) (note_fields note')).
Proof.
  revert c w. induction nids as [|nid nids IH]; intros c w H.
  - injection H as <- <-. split; [|split; [done|]].
    + exists []. split; [by rewrite List.app_nil_r|].
      split; [by intros x ?%not_elem_of_nil|]. intros c' [= <-]. simpl. lia.
    + intros nid note Hn. by exists note.
  - simpl in H. unfold bind at 1, get_note in H.
    destruct (w_col w !! nid) as [n|] eqn:Hn.
    2:{ injection H as <- <-. split; [|split; [done|]].
        - exists []. split; [by rewrite List.app_nil_r|].
          split; [by intros x ?%not_elem_of_nil|]. discriminate.
        - intros nid' note Hn'. by exists note. }
    unfold bind at 1 in H.
    destruct (body (note_model n) nid (flds (note_model n)) c _) as [w2 r2] eqn:E2.
    apply body_effects in E2 as [(k & Ht & Hc) Hcol]. simpl in Ht, Hcol.
    assert (forall nid', nid' <> nid -> w_col w2 !! nid' = w_col w !! nid') as Hother.
    { intros nid' Hne. destruct Hcol as [->|(fs & -> & _)]; [done|].
      by rewrite lookup_insert_ne. }
    assert (forall nid' note, w_col w !! nid' = Some note ->
              exists note', w_col w2 !! nid' = Some note'
                            /\ note_model note' = note_model note
                            /\ keeps (note_model note) (note_fields note)
                                 (note_fields note')) as Hrel.
    { intros nid' note Hn'. destruct Hcol as [->|(fs & -> & Hk)]; [by exists note|].
      destruct (decide (nid' = nid)) as [->|Hne].
      - rewrite lookup_insert_eq. eexists. split; [done|]. simpl.
        rewrite Hn in Hn'. by injection Hn' as <-.
      - rewrite lookup_insert_ne by done. by exists note. }
    destruct r2 as [c2|e].
    + apply IH in H as ((fl & Ht' & Hin & Hc') & Ho & Hr). split; [|split].
      * exists (replicate k nid ++ fl)%list.
        rewrite Ht', Ht, fmap_app, fmap_replicate, <- List.app_assoc.
        split; [done|]. split.
        -- intros x [[-> _]%elem_of_replicate|Hx]%elem_of_app;
             [apply list_elem_of_here|by apply list_elem_of_further, Hin].
        -- intros c' Hr'. rewrite (Hc' c' Hr'), (Hc c2 eq_refl).
           rewrite length_app, length_replicate. lia.
      * intros nid' [Hne Hnotin]%not_elem_of_cons. rewrite (Ho nid' Hnotin).
        by apply Hother.
      * intros nid' note Hn'.
        destruct (Hrel nid' note Hn') as (note1 & Hn1 & Hm1 & Hk1).
        destruct (Hr nid' note1 Hn1) as (note2 & Hn2 & Hm2 & Hk2).
        exists note2. split; [done|]. split; [congruence|].
        rewrite Hm1 in Hk2. by eapply keeps_trans.
    + injection H as <- <-. split; [|split].
      * exists (replicate k nid). rewrite Ht, fmap_replicate. split; [done|].
        split; [|discriminate]. intros x [-> _]%elem_of_replicate. apply list_elem_of_here.
      * intros nid' [Hne _]%not_elem_of_cons. by apply Hother.
      * done.
Qed.

(** The loop over the fields returns on a note whose ordinals are in
    range. *)
Hypothesis body_ok : forall model nid c w,
  (forall f, f ∈ flds model -> (ord f < length (w_fields w))%nat) ->
  exists w' c', body model nid (flds model) c w = (w', Ok c').

Lemma notes_loop_ok nids c w :
  (forall nid, nid ∈ nids ->
     exists note, w_col w !! nid = Some note /\ note_in_range note) ->
  exists w' c', notes_loop body nids c w = (w', Ok c').
Proof.
  revert c w. induction nids as [|nid nids IH]; intros c w Hsel; [by eexists _, _|].
  destruct (Hsel nid (list_elem_of_here _ _)) as (n & Hn & Hrange).
  simpl. unfold bind at 1, get_note. rewrite Hn. unfold bind at 1.
  destruct (body_ok (note_model n) nid c
              {| w_fields := note_fields n; w_col := w_col w; w_trace := w_trace w |})
    as (w2 & c2 & E2); [exact Hrange|].
  rewrite E2. apply IH. intros nid' Hin.
  destruct (Hsel nid' (list_elem_of_further _ _ _ Hin)) as (n' & Hn' & Hrange').
  apply body_effects in E2 as [_ Hcol]. simpl in Hcol.
  destruct Hcol as [->|(fs & -> & Hk)]; [by exists n'|].
  destruct (decide (nid' = nid)) as [->|Hne].
  - rewrite lookup_insert_eq. eexists. split; [done|].
    unfold note_in_range. simpl. intros f Hf. rewrite (keeps_length _ _ _ Hk).
    by apply Hrange.
  - rewrite lookup_insert_ne by done. by exists n'.
Qed.

(** What a batch operation adds to the trace and does to the collection,
    whether it returns or raises. *)
Lemma batch_effects title nids w w' r :
  nids <> [] ->
  batch title (notes_loop body) nids w = (w', r) ->
  (exists flushes,
     (forall x, x ∈ flushes -> x ∈ nids)
     /\ w_trace w'
        = (w_trace w ++ batch_start title (length nids) ++ (Flush <$> flushes)
             ++ match r with Ok _ => batch_end flushes | Raise _ => [] end)%list)
  /\ (forall nid, nid ∉ nids -> w_col w' !! nid = w_col w !! nid)
  /\ (forall nid note, w_col w !! nid = Some note ->
        exists note', w_col w' !! nid = Some note'
                      /\ note_model note' = note_model note
                      /\ keeps (note_model note) (note_fields note) (note_fields note')).
Proof.
  intros Hne H. rewrite batch_run in H by done.
  destruct (notes_loop body nids 0%N _) as [w1 r1] eqn:E.
  apply notes_loop_effects in E as ((fl & Ht & Hin & Hc) & Ho & Hr). simpl in Ht, Ho, Hr.
  destruct r1 as [c|e]; injection H as <- <-.
  - split; [|split].
    + exists fl. split; [done|]. rewrite (Hc c eq_refl). unfold batch_start, batch_end.
      rewrite N.add_0_l.
      destruct fl as [|x fl]; simpl; rewrite Ht; simpl;
        rewrite <- ?List.app_assoc; simpl; rewrite ?List.app_nil_r; [done|].
      by rewrite <- ?List.app_assoc.
    + intros nid Hnid. rewrite <- (Ho nid Hnid). by destruct (c =? 0)%N.
    + intros nid note Hn. destruct (Hr nid note Hn) as (note' & Hn' & Hrest).
      exists note'. split; [|done]. rewrite <- Hn'. by destruct (c =? 0)%N.
  - split; [|split; [done|done]].
    exists fl. split; [done|]. rewrite Ht, List.app_nil_r, <- !List.app_assoc. done.
Qed.

(** A batch operation returns when every selected note is in the
    collection with its ordinals in range. *)
Lemma batch_ok title nids w :
  (forall nid, nid ∈ nids ->
     exists note, w_col w !! nid = Some note /\ note_in_range note) ->
  exists w', batch title (notes_loop body) nids w = (w', Ok tt).
Proof.
  intros Hsel. destruct nids as [|nid nids]; [by eexists|].
  rewrite batch_run by done.
  edestruct (notes_loop_ok (nid :: nids) 0%N) as (w1 & c & ->); [|by eexists].
  exact Hsel.
Qed.

End NotesLoop.

(** ** The two loops over the fields, as the loop over the notes sees them *)

Lemma find_ord_elem (fl : list field) x o :
  find_ord fl x = Some o -> exists f, f ∈ fl /\ name f = x /\ ord f = o.
Proof.
  unfold find_ord. intros H. apply fmap_Some in H as (f & Hf & ->).
  apply find_some in Hf as [Hin Hnm]. exists f. split; [by apply list_elem_of_In|].
  split; [|done]. by apply String.eqb_eq.
Qed.

Lemma auto_cloze_fields_ok model nid fl c w :
  (forall f, f ∈ flds model -> (ord f < length (w_fields w))%nat) ->
  (forall f, f ∈ fl -> f ∈ flds model) ->
  exists w' c', auto_cloze_fields model nid fl c w = (w', Ok c').
Proof.
  revert c w. induction fl as [|f fl IH]; intros c w Hr Hsub; [by eexists _, _|].
  assert (forall f0, f0 ∈ fl -> f0 ∈ flds model) as Hsub'.
  { intros f0 Hf0. by apply Hsub, list_elem_of_further. }
  assert (forall o x, find_ord (flds model) x = Some o ->
            exists v, w_fields w !! o = Some v) as Hlook.
  { intros o x (f0 & Hf0 & _ & <-)%find_ord_elem. by apply lookup_lt_is_Some_2, Hr. }
  rewrite auto_cloze_fields_step. cbv zeta.
  destruct (Str.endswith (name f) "Cloze"); [|by apply IH].
  destruct (lookup_lt_is_Some_2 (w_fields w) (ord f)) as [cur ->];
    [apply Hr, Hsub, list_elem_of_here|].
  destruct (blank cur); [|by apply IH].
  destruct (find_ord (flds model) (Str.drop_last 5 (name f))) as [o|] eqn:Ho;
    [|by apply IH].
  destruct (find_ord (flds model) (name f ++ "1")) as [o1|] eqn:Ho1; [|by apply IH].
  destruct (Hlook o1 _ Ho1) as [v1 ->].
  destruct (blank v1); [|by apply IH].
  destruct (Hlook o _ Ho) as [content ->].
  apply IH; [|done]. intros f0 Hf0. simpl. rewrite !length_insert. by apply Hr.
Qed.

Lemma keeps_text_refl fs : keeps_text fs fs.
Proof. by split. Qed.

Lemma keeps_text_trans fs1 fs2 fs3 :
  keeps_text fs1 fs2 -> keeps_text fs2 fs3 -> keeps_text fs1 fs3.
Proof.
  intros [Hl1 H1] [Hl2 H2]. split; [congruence|].
  intros i v Hv Hb. apply H2; [|done]. by apply H1.
Qed.

Lemma auto_cloze_fields_body model nid c w w' r :
  auto_cloze_fields model nid (flds model) c w = (w', r) ->
  (exists k, w_trace w' = (w_trace w ++ replicate k (Flush nid))%list
             /\ forall c', r = Ok c' -> c' = (c + N.of_nat k)%N)
  /\ (w_col w' = w_col w
      \/ exists fs, w_col w' = <[nid := {| note_model := model; note_fields := fs |}]> (w_col w)
                    /\ keeps_text (w_fields w) fs).
Proof.
  intros H. destruct (auto_cloze_fields_effects _ _ _ _ _ _ _ H) as (Hlen & Hk & Hcol).
  split; [done|]. destruct Hcol as [[Hc _]|Hc]; [by left|]. right.
  exists (w_fields w'). split; [done|]. split; [done|].
  intros i v Hv Hb. by eapply auto_cloze_fields_keeps_text.
Qed.

Lemma create_missing_loop_length cloze_nums base fl updated w w' r :
  create_missing_loop cloze_nums base fl updated w = (w', r) ->
  length (w_fields w') = length (w_fields w).
Proof.
  revert updated w. induction fl as [|f fl IH]; intros updated w.
  - by intros [= <- <-].
  - rewrite create_missing_loop_step.
    destruct (cloze_field_regex base (name f)) as [g|]; [|by apply IH].
    destruct (Str.int_of_digits g) as [n0|e]; [|by intros [= <- <-]].
    destruct (w_fields w !! ord f) as [cur|]; [|by intros [= <- <-]].
    destruct (negb _); [|by apply IH].
    intros ->%IH. apply length_insert.
Qed.

Lemma keeps_unnumbered_refl model fs : keeps_unnumbered model fs fs.
Proof. by split. Qed.

Lemma keeps_unnumbered_trans model fs1 fs2 fs3 :
  keeps_unnumbered model fs1 fs2 -> keeps_unnumbered model fs2 fs3 ->
  keeps_unnumbered model fs1 fs3.
Proof.
  intros [Hl1 H1] [Hl2 H2]. split; [congruence|].
  intros i Hi. by rewrite H2, H1.
Qed.

(** The numbered fields are all [create_missing] writes, and what it
    flushes is the note object as it stands by then. *)
Lemma create_missing_fields_body_gen model nid fl c w w' r :
  (forall f, f ∈ fl -> f ∈ flds model) ->
  create_missing_fields model nid fl c w = (w', r) ->
  keeps_unnumbered model (w_fields w) (w_fields w')
  /\ (exists k, w_trace w' = (w_trace w ++ replicate k (Flush nid))%list
                /\ forall c', r = Ok c' -> c' = (c + N.of_nat k)%N)
  /\ (w_col w' = w_col w
      \/ exists fs, w_col w' = <[nid := {| note_model := model; note_fields := fs |}]> (w_col w)
                    /\ keeps_unnumbered model (w_fields w) fs).
Proof.
  revert c w. induction fl as [|f fl IH]; intros c w Hsub H.
  - injection H as <- <-. split; [apply keeps_unnumbered_refl|]. split; [|by left].
    exists 0%nat. split; [by rewrite List.app_nil_r|]. intros c' [= <-]. lia.
  - assert (forall f0, f0 ∈ fl -> f0 ∈ flds model) as Hsub'.
    { intros f0 Hf0. by apply Hsub, list_elem_of_further. }
    rewrite create_missing_fields_step in H.
    assert (forall w0 e, w_col w0 = w_col w -> w_trace w0 = w_trace w ->
      keeps_unnumbered model (w_fields w) (w_fields w0) -> (w0, @Raise N e) = (w', r) ->
      keeps_unnumbered model (w_fields w) (w_fields w')
      /\ (exists k, w_trace w' = (w_trace w ++ replicate k (Flush nid))%list
                    /\ forall c', r = Ok c' -> c' = (c + N.of_nat k)%N)
      /\ (w_col w' = w_col w
          \/ exists fs, w_col w'
                        = <[nid := {| note_model := model; note_fields := fs |}]> (w_col w)
                        /\ keeps_unnumbered model (w_fields w) fs)) as Hraise.
    { intros w0 e Hc Ht Hl [= <- <-]. split; [done|]. split; [|by left].
      exists 0%nat. split; [by rewrite Ht, List.app_nil_r|]. discriminate. }
    destruct (Str.endswith (name f) "Cloze") eqn:Hcloze; [|by apply IH].
    destruct (w_fields w !! ord f) as [content|];
      [|by eapply Hraise; [| |apply keeps_unnumbered_refl|]].
    destruct (get_cloze_nums content) as [nums|e];
      [|by eapply Hraise; [| |apply keeps_unnumbered_refl|]].
    destruct (create_missing_loop nums (name f) (flds model) false w)
      as [w1 r1] eqn:E1.
    assert (keeps_unnumbered model (w_fields w) (w_fields w1)) as K1.
    { split; [by eapply create_missing_loop_length|]. intros i Hi.
      eapply create_missing_loop_frame; [exact E1|]. intros fa Hfa Hg.
      apply (Hi f fa); [apply Hsub, list_elem_of_here|done..]. }
    apply create_missing_loop_col in E1 as [Hcol1 Htr1].
    destruct r1 as [[]|e]; [| |by eapply Hraise].
    + apply IH in H as (K2 & (k & Ht & Hc) & Hcol); [|done]. simpl in *.
      split; [by eapply keeps_unnumbered_trans|]. split.
      * exists (S k). rewrite Ht, Htr1, <- List.app_assoc. split; [done|].
        intros c' Hc'. rewrite (Hc c' Hc'). lia.
      * right. destruct Hcol as [Hc1|(fs & Hc1 & Hk)]; rewrite Hc1, Hcol1.
        -- eexists. split; [done|]. done.
        -- exists fs. rewrite insert_insert_eq. split; [done|].
           by eapply keeps_unnumbered_trans.
    + apply IH in H as (K2 & (k & Ht & Hc) & Hcol); [|done].
      split; [by eapply keeps_unnumbered_trans|]. split.
      * exists k. by rewrite Ht, Htr1.
      * destruct Hcol as [Hc1|(fs & Hc1 & Hk)]; rewrite Hc1, Hcol1; [by left|].
        right. exists fs. split; [done|]. by eapply keeps_unnumbered_trans.
Qed.

Lemma create_missing_fields_body model nid c w w' r :
  create_missing_fields model nid (flds model) c w = (w', r) ->
  (exists k, w_trace w' = (w_trace w ++ replicate k (Flush nid))%list
             /\ forall c', r = Ok c' -> c' = (c + N.of_nat k)%N)
  /\ (w_col w' = w_col w
      \/ exists fs, w_col w' = <[nid := {| note_model := model; note_fields := fs |}]> (w_col w)
                    /\ keeps_unnumbered model (w_fields w) fs).
Proof.
  intros H.
  by destruct (create_missing_fields_body_gen _ _ _ _ _ _ _ (fun _ Hf => Hf) H) as (_ & ? & ?).
Qed.

Lemma create_missing_fields_ok model nid fl c w :
  (forall f, f ∈ flds model -> (ord f < length (w_fields w))%nat) ->
  (forall f, f ∈ fl -> f ∈ flds model) ->
  exists w' c', create_missing_fields model nid fl c w = (w', Ok c').
Proof.
  revert c w. induction fl as [|f fl IH]; intros c w Hr Hsub; [by eexists _, _|].
  assert (forall f0, f0 ∈ fl -> f0 ∈ flds model) as Hsub'.
  { intros f0 Hf0. by apply Hsub, list_elem_of_further. }
  rewrite create_missing_fields_step.
  destruct (Str.endswith (name f) "Cloze"); [|by apply IH].
  destruct (lookup_lt_is_Some_2 (w_fields w) (ord f)) as [content ->].
  { apply Hr, Hsub, list_elem_of_here. }
  destruct (get_cloze_nums_total content) as [nums ->].
  destruct (create_missing_loop_ok nums (name f) (flds model) false w Hr)
    as (w1 & u & -> & _ & _ & Hlen1).
  destruct u; apply IH; try done; intros f0 Hf0; simpl; rewrite Hlen1; by apply Hr.
Qed.

(** ** The batch operations, from the selection to the last host call *)

Lemma auto_cloze_unfold nids w :
  auto_cloze nids w = batch "Auto-cloze" (notes_loop auto_cloze_fields) nids w.
Proof. rewrite auto_cloze_batch. apply batch_ext, auto_cloze_notes_loop. Qed.

Lemma create_missing_unfold nids w :
  create_missing nids w
  = batch "Create Missing Cloze Cards" (notes_loop create_missing_fields) nids w.
Proof. rewrite create_missing_batch. apply batch_ext, create_missing_notes_loop. Qed.

Lemma auto_cloze_effects nids w w' r :
  nids <> [] ->
  auto_cloze nids w = (w', r) ->
  (exists flushes,
     (forall x, x ∈ flushes -> x ∈ nids)
     /\ w_trace w'
        = (w_trace w ++ batch_start "Auto-cloze" (length nids) ++ (Flush <$> flushes)
             ++ match r with Ok _ => batch_end flushes | Raise _ => [] end)%list)
  /\ (forall nid, nid ∉ nids -> w_col w' !! nid = w_col w !! nid)
  /\ (forall nid note, w_col w !! nid = Some note ->
        exists note', w_col w' !! nid = Some note'
                      /\ note_model note' = note_model note
                      /\ keeps_text (note_fields note) (note_fields note')).
Proof.
  intros Hne H. rewrite auto_cloze_unfold in H.
  eapply (batch_effects auto_cloze_fields (fun _ => keeps_text)); [..|exact Hne|exact H].
  - intros _. apply keeps_text_refl.
  - intros _. apply keeps_text_trans.
  - intros. by apply auto_cloze_fields_body.
Qed.

Lemma auto_cloze_ok nids w :
  (forall nid, nid ∈ nids ->
     exists note, w_col w !! nid = Some note /\ note_in_range note) ->
  exists w', auto_cloze nids w = (w', Ok tt).
Proof.
  intros Hsel. rewrite auto_cloze_unfold.
  eapply (batch_ok auto_cloze_fields (fun _ => keeps_text)); [..|exact Hsel].
  - by intros _ fs fs' [Hl _].
  - intros. by apply auto_cloze_fields_body.
  - intros. by apply auto_cloze_fields_ok.
Qed.

Lemma create_missing_notes_effects nids c w w' r :
  notes_loop create_missing_fields nids c w = (w', r) ->
  (exists flushes, w_trace w' = (w_trace w ++ (Flush <$> flushes))%list
                   /\ (forall x, x ∈ flushes -> x ∈ nids)
                   /\ forall c', r = Ok c' -> c' = (c + N.of_nat (length flushes))%N)
  /\ (forall nid, nid ∉ nids -> w_col w' !! nid = w_col w !! nid)
  /\ (forall nid note, w_col w !! nid = Some note ->
        exists note', w_col w' !! nid = Some note'
                      /\ note_model note' = note_model note
                      /\ keeps_unnumbered (note_model note) (note_fields note)
                           (note_fields note')).
Proof.
  apply (notes_loop_effects create_missing_fields keeps_unnumbered).
  - apply keeps_unnumbered_refl.
  - apply keeps_unnumbered_trans.
  - intros. by apply create_missing_fields_body.
Qed.

Lemma create_missing_effects nids w w' r :
  nids <> [] ->
  create_missing nids w = (w', r) ->
  (exists flushes,
     (forall x, x ∈ flushes -> x ∈ nids)
     /\ w_trace w'
        = (w_trace w ++ batch_start "Create Missing Cloze Cards" (length nids)
             ++ (Flush <$> flushes)
             ++ match r with Ok _ => batch_end flushes | Raise _ => [] end)%list)
  /\ (forall nid, nid ∉ nids -> w_col w' !! nid = w_col w !! nid)
  /\ (forall nid note, w_col w !! nid = Some note ->
        exists note', w_col w' !! nid = Some note'
                      /\ note_model note' = note_model note
                      /\ keeps_unnumbered (note_model note) (note_fields note)
                           (note_fields note')).
Proof.
  intros Hne H. rewrite create_missing_unfold in H.
  eapply (batch_effects create_missing_fields keeps_unnumbered); [..|exact Hne|exact H].
  - apply keeps_unnumbered_refl.
  - apply keeps_unnumbered_trans.
  - intros. by apply create_missing_fields_body.
Qed.

Lemma create_missing_ok nids w :
  (forall nid, nid ∈ nids ->
     exists note, w_col w !! nid = Some note /\ note_in_range note) ->
  exists w', create_missing nids w = (w', Ok tt).
Proof.
  intros Hsel. rewrite create_missing_unfold.
  eapply (batch_ok create_missing_fields keeps_unnumbered); [..|exact Hsel].
  - by intros m fs fs' [Hl _].
  - intros. by apply create_missing_fields_body.
  - intros. by apply create_missing_fields_ok.
Qed.

(** A cloze field is not written by [create_missing] when the ordinals of
    the note type are distinct. *)
Lemma unnumbered_cloze model f :
  NoDup (ord <$> flds model) -> f ∈ flds model ->
  Str.endswith (name f) "Cloze" = true -> unnumbered model (ord f).
Proof.
  intros Hords Hf Hc fb fa Hfb Hcb Hfa Hg Heq.
  assert (fa = f) as -> by (eapply ord_inj; eauto).
  by rewrite cloze_name_not_numbered in Hg.
Qed.

(** When [auto_cloze] raises, the host has seen the checkpoint, the start
    of the reset and the flushes made so far, and nothing after them: no
    notice, and the reset that was begun is not ended. *)
Theorem auto_cloze_raise_leaves_reset_open
    (nids : list Z) (w w' : world) (e : exn) :
  auto_cloze nids w = (w', Raise e) ->
  exists flushes,
    (forall x, x ∈ flushes -> x ∈ nids)
    /\ w_trace w'
       = (w_trace w ++ batch_start "Auto-cloze" (length nids) ++ (Flush <$> flushes))%list.
Proof.
  intros H. destruct nids as [|nid nids]; [discriminate|].
  apply auto_cloze_effects in H as ((fl & Hin & Ht) & _); [|done].
  exists fl. split; [done|]. by rewrite Ht, List.app_nil_r.
Qed.

Lemma auto_cloze_raise_leaves_reset_open_witness :
  let model := {| flds := [ {| name := "Front"; ord := 0 |};
                            {| name := "FrontCloze"; ord := 1 |};
                            {| name := "FrontCloze1"; ord := 2 |} ];
                  tmpls := [] |} in
  let w := {| w_fields := [];
              w_col := {[ 7%Z := {| note_model := model;
                                    note_fields := ["bonjour"; ""; ""] |};
                          8%Z := {| note_model := model;
                                    note_fields := ["hello"] |} ]};
              w_trace := [] |} in
  exists flushes,
    (forall x, x ∈ flushes -> x ∈ [7%Z; 8%Z])
    /\ w_trace (auto_cloze [7%Z; 8%Z] w).1
       = (w_trace w ++ batch_start "Auto-cloze" 2 ++ (Flush <$> flushes))%list.
Proof.
  intros model w.
  apply (auto_cloze_raise_leaves_reset_open [7%Z; 8%Z] w _ IndexError).
  by vm_compute.
Defined.

(** Whatever the selection and however it ends, [auto_cloze] leaves the
    notes that are not selected as the collection has them, and of every
    note it keeps the note type, the number of fields and every value that
    is more than white space. *)
Theorem auto_cloze_keeps_text (nids : list Z) (w : world) :
  let w' := (auto_cloze nids w).1 in
  (forall nid, nid ∉ nids -> w_col w' !! nid = w_col w !! nid)
  /\ (forall nid note, w_col w !! nid = Some note ->
        exists note', w_col w' !! nid = Some note'
                      /\ note_model note' = note_model note
                      /\ keeps_text (note_fields note) (note_fields note')).
Proof.
  destruct nids as [|nid0 nids].
  - simpl. split; [done|]. intros nid note Hn. exists note.
    split; [done|]. split; [done|]. apply keeps_text_refl.
  - destruct (auto_cloze (nid0 :: nids) w) as [w' r] eqn:E.
    by apply auto_cloze_effects in E as (_ & Ho & Hr).
Qed.

(** When [create_missing] raises, the host has seen the checkpoint, the
    start of the reset and the flushes made so far, and nothing after
    them: no notice, and the reset that was begun is not ended. *)
Theorem create_missing_raise_leaves_reset_open
    (nids : list Z) (w w' : world) (e : exn) :
  create_missing nids w = (w', Raise e) ->
  exists flushes,
    (forall x, x ∈ flushes -> x ∈ nids)
    /\ w_trace w'
       = (w_trace w ++ batch_start "Create Missing Cloze Cards" (length nids)
            ++ (Flush <$> flushes))%list.
Proof.
  intros H. destruct nids as [|nid nids]; [discriminate|].
  apply create_missing_effects in H as ((fl & Hin & Ht) & _); [|done].
  exists fl. split; [done|]. by rewrite Ht, List.app_nil_r.
Qed.

Lemma create_missing_raise_leaves_reset_open_witness :
  let model := {| flds := [ {| name := "FrontCloze"; ord := 0 |};
                            {| name := "FrontCloze1"; ord := 1 |} ];
                  tmpls := [] |} in
  let w := {| w_fields := [];
              w_col := {[ 7%Z := {| note_model := model;
                                    note_fields := ["((c1::x))"; ""] |};
                          8%Z := {| note_model := model;
                                    note_fields := ["((c1::y))"] |} ]};
              w_trace := [] |} in
  exists flushes,
    (forall x, x ∈ flushes -> x ∈ [7%Z; 8%Z])
    /\ w_trace (create_missing [7%Z; 8%Z] w).1
       = (w_trace w ++ batch_start "Create Missing Cloze Cards" 2
            ++ (Flush <$> flushes))%list.
Proof.
  intros model w.
  apply (create_missing_raise_leaves_reset_open [7%Z; 8%Z] w _ IndexError).
  by vm_compute.
Defined.

(** Whatever the selection and however it ends, [create_missing] leaves
    the notes that are not selected as the collection has them, and of
    every note it keeps the note type, the number of fields and every
    value but those of the numbered fields; where the ordinals of the note
    type are distinct, that covers the text of every cloze field. *)
Theorem create_missing_writes_numbered_fields_only (nids : list Z) (w : world) :
  let w' := (create_missing nids w).1 in
  (forall nid, nid ∉ nids -> w_col w' !! nid = w_col w !! nid)
  /\ (forall nid note, w_col w !! nid = Some note ->
        exists note',
          w_col w' !! nid = Some note'
          /\ note_model note' = note_model note
          /\ keeps_unnumbered (note_model note) (note_fields note) (note_fields note')
          /\ (NoDup (ord <$> flds (note_model note)) ->
              forall f, f ∈ flds (note_model note) ->
                Str.endswith (name f) "Cloze" = true ->
                note_fields note' !! ord f = note_fields note !! ord f)).
Proof.
  assert (forall w1,
    (forall nid note, w_col w !! nid = Some note ->
       exists note', w_col w1 !! nid = Some note'
                     /\ note_model note' = note_model note
                     /\ keeps_unnumbered (note_model note) (note_fields note)
                          (note_fields note')) ->
    forall nid note, w_col w !! nid = Some note ->
      exists note',
        w_col w1 !! nid = Some note'
        /\ note_model note' = note_model note
        /\ keeps_unnumbered (note_model note) (note_fields note) (note_fields note')
        /\ (NoDup (ord <$> flds (note_model note)) ->
            forall f, f ∈ flds (note_model note) ->
              Str.endswith (name f) "Cloze" = true ->
              note_fields note' !! ord f = note_fields note !! ord f)) as Hadd.
  { intros w1 Hr nid note Hn. destruct (Hr nid note Hn) as (note' & Hn' & Hm & Hk).
    exists note'. split; [done|]. split; [done|]. split; [done|].
    intros Hords f Hf Hc. apply Hk. by apply unnumbered_cloze. }
  destruct nids as [|nid0 nids].
  - simpl. split; [done|]. apply Hadd. intros nid note Hn. exists note.
    split; [done|]. split; [done|]. apply keeps_unnumbered_refl.
  - destruct (create_missing (nid0 :: nids) w) as [w' r] eqn:E.
    apply create_missing_effects in E as (_ & Ho & Hr); [|done].
    split; [done|]. by apply Hadd.
Qed.

(** ** [create_missing] on a whole selection *)

Lemma create_missing_fields_reconciles n nid c w :
  well_formed n -> w_fields w = note_fields n -> w_col w !! nid = Some n ->
  exists w' c' n',
    create_missing_fields (note_model n) nid (flds (note_model n)) c w = (w', Ok c')
    /\ w_col w' !! nid = Some n' /\ note_model n' = note_model n
    /\ length (note_fields n') = length (note_fields n)
    /\ reconciled n'.
Proof.
  intros (Hnames & Hords & Hrange) Hf Hcol.
  destruct (create_missing_fields_spec (note_model n) nid (flds (note_model n)) c w)
    as (w' & c' & E & Hlen & Hframe & Hres); [done|by rewrite Hf|done|done|].
  exists w', c', {| note_model := note_model n; note_fields := w_fields w' |}.
  split; [done|]. split.
  { eapply create_missing_fields_persisted; [|exact E]. rewrite Hcol, Hf. by destruct n. }
  split; [done|]. split; [simpl; by rewrite Hlen, Hf|].
  intros fb fa g k Hfb Hc Hfa Hg Hk. simpl in *.
  destruct (Hres fb fa g k Hfb Hc Hfa Hg Hk) as (content & nums & H1 & H2 & H3).
  exists content, nums. split; [|done]. rewrite Hframe; [done|].
  intros fb' fa' _ _ Hfa' Hg' Heq.
  assert (fa' = fb) as -> by (eapply ord_inj; eauto).
  by rewrite cloze_name_not_numbered in Hg'.
Qed.

Lemma create_missing_notes_reconciles nids c w :
  (forall nid, nid ∈ nids ->
     exists note, w_col w !! nid = Some note /\ well_formed note) ->
  exists w' c',
    notes_loop create_missing_fields nids c w = (w', Ok c')
    /\ forall nid, nid ∈ nids ->
         exists note', w_col w' !! nid = Some note' /\ reconciled note'.
Proof.
  revert c w. induction nids as [|nid nids IH]; intros c w Hsel.
  - exists w, c. split; [done|]. by intros nid ?%not_elem_of_nil.
  - destruct (Hsel nid (list_elem_of_here _ _)) as (n & Hn & Hwf).
    simpl. unfold bind at 1, get_note. rewrite Hn. unfold bind at 1.
    destruct (create_missing_fields_reconciles n nid c
                {| w_fields := note_fields n; w_col := w_col w; w_trace := w_trace w |}
                Hwf eq_refl Hn)
      as (w2 & c2 & n2 & E & Hn2 & Hm2 & Hl2 & Hrec).
    rewrite E.
    assert (forall nid', nid' <> nid -> w_col w2 !! nid' = w_col w !! nid') as Hother.
    { intros nid' Hne.
      apply create_missing_fields_body in E as [_ [Hc|(fs & Hc & _)]]; rewrite Hc; [done|].
      by rewrite lookup_insert_ne. }
    destruct (IH c2 w2) as (w' & c' & E' & Hall).
    { intros nid' Hin. destruct (decide (nid' = nid)) as [->|Hne].
      - exists n2. split; [done|]. destruct Hwf as (H1 & H2 & H3).
        unfold well_formed, note_in_range. by rewrite Hm2, Hl2.
      - rewrite (Hother nid' Hne). by apply Hsel, list_elem_of_further. }
    exists w', c'. split; [done|].
    intros nid' [->|Hin]%elem_of_cons; [|by apply Hall].
    destruct (decide (nid ∈ nids)) as [Hin|Hnotin]; [by apply Hall|].
    exists n2. split; [|done]. rewrite <- Hn2.
    by apply create_missing_notes_effects in E' as (_ & Ho & _); apply Ho.
Qed.

(** [create_missing] on a selection of notes that are in the collection,
    each with a note type of distinct names and distinct ordinals inside
    the note, returns and leaves every selected note reconciled in the
    collection, with its note type and the text of its cloze fields as
    they were; a note selected twice is no exception. *)
Theorem create_missing_reconciles_selection (nids : list Z) (w : world) :
  (forall nid, nid ∈ nids ->
     exists note, w_col w !! nid = Some note /\ well_formed note) ->
  exists w',
    create_missing nids w = (w', Ok tt)
    /\ forall nid note, nid ∈ nids -> w_col w !! nid = Some note ->
         exists note',
           w_col w' !! nid = Some note'
           /\ note_model note' = note_model note
           /\ (forall f, f ∈ flds (note_model note) ->
                 Str.endswith (name f) "Cloze" = true ->
                 note_fields note' !! ord f = note_fields note !! ord f)
           /\ reconciled note'.
Proof.
  intros Hsel. destruct nids as [|nid0 nids].
  - eexists. split; [done|]. by intros nid note ?%not_elem_of_nil.
  - rewrite create_missing_unfold, batch_run by done.
    set (w0 := add_event (add_event w _) BeginReset).
    destruct (create_missing_notes_reconciles (nid0 :: nids) 0%N w0 Hsel)
      as (w1 & c & E & Hall).
    rewrite E. eexists. split; [done|]. intros nid note Hin Hn.
    destruct (Hall nid Hin) as (note' & Hn' & Hrec).
    apply create_missing_notes_effects in E as (_ & _ & Hr).
    destruct (Hr nid note Hn) as (note'' & Hn'' & Hm & Hk).
    assert (note'' = note') as -> by congruence.
    exists note'. split; [by destruct (c =? 0)%N|]. split; [done|]. split; [|done].
    intros f Hf Hc. apply Hk. apply unnumbered_cloze; [|done..].
    destruct (Hsel nid Hin) as (note0 & Hn0 & _ & Hords & _).
    assert (note0 = note) as -> by congruence. done.
Qed.

Lemma create_missing_reconciles_selection_witness :
  let model := {| flds := [ {| name := "FrontCloze"; ord := 0 |};
                            {| name := "FrontCloze1"; ord := 1 |};
                            {| name := "FrontCloze2"; ord := 2 |} ];
                  tmpls := [] |} in
  let w := {| w_fields := [];
              w_col := {[ 7%Z := {| note_model := model;
                                    note_fields := ["((c2::x))"; "1"; "stale"] |} ]};
              w_trace := [] |} in
  exists w',
    create_missing [7%Z; 7%Z] w = (w', Ok tt)
    /\ forall nid note, nid ∈ [7%Z; 7%Z] -> w_col w !! nid = Some note ->
         exists note',
           w_col w' !! nid = Some note'
           /\ note_model note' = note_model note
           /\ (forall f, f ∈ flds (note_model note) ->
                 Str.endswith (name f) "Cloze" = true ->
                 note_fields note' !! ord f = note_fields note !! ord f)
           /\ reconciled note'.
Proof.
  intros model w. apply (create_missing_reconciles_selection [7%Z; 7%Z] w).
  intros nid Hin.
  assert (nid = 7%Z) as ->.
  { repeat (apply elem_of_cons in Hin as [->|Hin]; [done|]).
    by apply not_elem_of_nil in Hin. }
  exists {| note_model := model; note_fields := ["((c2::x))"; "1"; "stale"] |}.
  split; [by vm_compute|]. split; [|split].
  - apply (bool_decide_unpack _). vm_compute. exact I.
  - apply (bool_decide_unpack _). vm_compute. exact I.
  - unfold note_in_range.
    apply (Forall_forall (fun f => ord f < 3)%nat). repeat constructor.
Defined.

(** ** What [auto_cloze] fills *)

Lemma name_inj (fl : list field) x y :
  NoDup (name <$> fl) -> x ∈ fl -> y ∈ fl -> name x = name y -> x = y.
Proof.
  induction fl as [|f fl IH]; [by intros _ ?%not_elem_of_nil|].
  rewrite fmap_cons. intros [Hnotin Hnd]%NoDup_cons Hx Hy Heq.
  assert (forall z, z ∈ fl -> name z <> name f) as Hne.
  { intros z Hz Hzf. apply Hnotin. rewrite <- Hzf. apply list_elem_of_fmap. eauto. }
  apply elem_of_cons in Hx as [->|Hx]; apply elem_of_cons in Hy as [->|Hy].
  - done.
  - by destruct (Hne y Hy).
  - by destruct (Hne x Hx).
  - by apply IH.
Qed.

Lemma app_last_inj s t a b :
  s ++ String a "" = t ++ String b "" -> s = t /\ a = b.
Proof.
  revert t. induction s as [|c s IH]; intros [|d t]; rewrite ?sapp_nil_l, ?sapp_cons.
  - by intros [= ->].
  - intros [= -> H]. by destruct t.
  - intros [= -> H]. by destruct s.
  - intros [= -> H]. destruct (IH t H) as [-> ->]. done.
Qed.

(** A name that ends in [1] does not end in [Cloze]. *)
Lemma endswith_one s : Str.endswith (s ++ "1") "Cloze" = false.
Proof.
  destruct (Str.endswith (s ++ "1") "Cloze") eqn:H; [|done].
  apply endswith_app in H as [pre H].
  change "Cloze" with ("Cloz" ++ "e") in H. rewrite <- sapp_assoc in H.
  by apply app_last_inj in H as [_ [=]].
Qed.

Lemma blank_cons c r : Str.is_space c = false -> blank (String c r) = false.
Proof.
  intros Hc. unfold blank, Str.strip.
  change (Str.lstrip (String c r)) with (if Str.is_space c then Str.lstrip r else String c r).
  rewrite Hc.
  change (Str.rstrip (String c r)) with
    (match Str.rstrip r with
     | EmptyString => if Str.is_space c then EmptyString else String c EmptyString
     | r' => String c r'
     end).
  rewrite Hc. by destruct (Str.rstrip r).
Qed.

Lemma auto_cloze_fields_fills model nid f fsrc f1 content rest c w :
  NoDup (name <$> flds model) -> NoDup (ord <$> flds model) ->
  f ∈ flds model -> fsrc ∈ flds model -> f1 ∈ flds model ->
  Str.endswith (name f) "Cloze" = true ->
  name fsrc = Str.drop_last 5 (name f) -> name f1 = name f ++ "1" ->
  blank content = false ->
  (forall f0, f0 ∈ flds model -> (ord f0 < length (w_fields w))%nat) ->
  (forall f0, f0 ∈ rest -> f0 ∈ flds model) ->
  f ∈ rest ->
  (exists cur, w_fields w !! ord f = Some cur /\ blank cur = true) ->
  (exists v1, w_fields w !! ord f1 = Some v1 /\ blank v1 = true) ->
  w_fields w !! ord fsrc = Some content ->
  exists w' c',
    auto_cloze_fields model nid rest c w = (w', Ok c')
    /\ w_fields w' !! ord f = Some ("((c1::" ++ content ++ "))")
    /\ w_fields w' !! ord f1 = Some "1".
Proof.
  intros Hnames Hords Hf Hfsrc Hf1 Hc Hsrc Hone Hbc. revert c w.
  induction rest as [|f0 rest IH]; intros c w Hr Hsub Hin Hcur Hv1 Hcontent.
  { by apply not_elem_of_nil in Hin. }
  assert (forall f', f' ∈ rest -> f' ∈ flds model) as Hsub'.
  { intros f' Hf'. by apply Hsub, list_elem_of_further. }
  assert (f0 ∈ flds model) as Hf0 by apply Hsub, list_elem_of_here.
  rewrite auto_cloze_fields_step. cbv zeta.
  destruct (decide (name f0 = name f)) as [Hnm|Hnm].
  - assert (f0 = f) as -> by by eapply name_inj.
    destruct Hcur as (cur & Hcur & Hbcur). destruct Hv1 as (v1 & Hv1 & Hbv1).
    rewrite Hc, Hcur, Hbcur, <- Hsrc, (find_ord_Some _ fsrc Hnames Hfsrc).
    rewrite <- Hone, (find_ord_Some _ f1 Hnames Hf1), Hv1, Hbv1, Hcontent.
    assert (ord f1 <> ord f) as Hne.
    { intros Heq. assert (f1 = f) as Hff by by eapply ord_inj.
      rewrite Hff in Hone. by rewrite Hone, endswith_one in Hc. }
    edestruct (auto_cloze_fields_ok model nid rest (c + 1)%N) as (w' & c' & E);
      [|exact Hsub'|].
    2:{ exists w', c'. split; [exact E|]. split.
        - eapply auto_cloze_fields_keeps_text; [exact E| |by apply blank_cons].
          simpl. rewrite list_lookup_insert_ne by done.
          apply list_lookup_insert_eq. by eapply lookup_lt_Some.
        - eapply auto_cloze_fields_keeps_text; [exact E| |done].
          simpl. apply list_lookup_insert_eq. rewrite length_insert.
          by eapply lookup_lt_Some. }
    intros f' Hf'. simpl. rewrite !length_insert. by apply Hr.
  - apply elem_of_cons in Hin as [Heq|Hin]; [by rewrite Heq in Hnm|].
    destruct (Str.endswith (name f0) "Cloze") eqn:Hc0; [|by apply IH].
    destruct (lookup_lt_is_Some_2 (w_fields w) (ord f0) (Hr f0 Hf0)) as [cur0 Hcur0].
    rewrite Hcur0. destruct (blank cur0) eqn:Hb0; [|by apply IH].
    destruct (find_ord (flds model) (Str.drop_last 5 (name f0))) as [o|] eqn:Ho;
      [|by apply IH].
    destruct (find_ord (flds model) (name f0 ++ "1")) as [o1|] eqn:Ho1; [|by apply IH].
    apply find_ord_elem in Ho as (g & Hg & _ & <-).
    apply find_ord_elem in Ho1 as (g1 & Hg1 & Hg1n & <-).
    destruct (lookup_lt_is_Some_2 (w_fields w) (ord g1) (Hr g1 Hg1)) as [v1' Hv1'].
    rewrite Hv1'. destruct (blank v1') eqn:Hb1; [|by apply IH].
    destruct (lookup_lt_is_Some_2 (w_fields w) (ord g) (Hr g Hg)) as [content' Hcontent'].
    rewrite Hcontent'.
    assert (ord f0 <> ord f) as Hn1.
    { intros Heq. apply Hnm. f_equal. by eapply ord_inj. }
    assert (ord g1 <> ord f) as Hn2.
    { intros Heq. assert (g1 = f) as Hgf by by eapply ord_inj.
      rewrite Hgf in Hg1n. by rewrite Hg1n, endswith_one in Hc. }
    assert (ord f0 <> ord f1) as Hn3.
    { intros Heq. assert (f0 = f1) as Hff by by eapply ord_inj.
      rewrite Hff, Hone in Hc0. by rewrite endswith_one in Hc0. }
    assert (ord g1 <> ord f1) as Hn4.
    { intros Heq. assert (g1 = f1) as Hgf by by eapply ord_inj.
      rewrite Hgf, Hone in Hg1n. apply Hnm.
      change "1" with (String "1" "") in Hg1n. by apply app_last_inj in Hg1n as [-> _]. }
    assert (ord f0 <> ord fsrc) as Hn5.
    { intros Heq. rewrite Heq in Hcur0. congruence. }
    assert (ord g1 <> ord fsrc) as Hn6.
    { intros Heq. rewrite Heq in Hv1'. congruence. }
    apply IH; [|done|done|..]; simpl.
    + intros f' Hf'. rewrite !length_insert. by apply Hr.
    + by rewrite !list_lookup_insert_ne.
    + by rewrite !list_lookup_insert_ne.
    + by rewrite !list_lookup_insert_ne.
Qed.

(** On a note type of distinct names and distinct ordinals inside the
    note, [auto_cloze] fills a blank field [<X>Cloze] when the note type
    has the fields [<X>] and [<X>Cloze1], [<X>Cloze1] is blank too and
    [<X>] holds more than white space: the loop over the fields returns,
    [<X>Cloze] holds the content of [<X>] as one marker with identifier 1,
    [<X>Cloze1] holds ["1"], and the note so filled is the one the
    collection holds. *)
Theorem auto_cloze_fills_blank_cloze_field
    (model : model_t) (nid : Z) (c : N) (w : world)
    (f fsrc f1 : field) (cur v1 content : string) :
  NoDup (name <$> flds model) -> NoDup (ord <$> flds model) ->
  (forall f0, f0 ∈ flds model -> (ord f0 < length (w_fields w))%nat) ->
  f ∈ flds model -> fsrc ∈ flds model -> f1 ∈ flds model ->
  Str.endswith (name f) "Cloze" = true ->
  name fsrc = Str.drop_last 5 (name f) -> name f1 = name f ++ "1" ->
  w_fields w !! ord f = Some cur -> blank cur = true ->
  w_fields w !! ord f1 = Some v1 -> blank v1 = true ->
  w_fields w !! ord fsrc = Some content -> blank content = false ->
  exists w' c',
    auto_cloze_fields model nid (flds model) c w = (w', Ok c')
    /\ w_fields w' !! ord f = Some ("((c1::" ++ content ++ "))")
    /\ w_fields w' !! ord f1 = Some "1"
    /\ w_col w' !! nid = Some {| note_model := model; note_fields := w_fields w' |}.
Proof.
  intros Hnames Hords Hr Hf Hfsrc Hf1 Hc Hsrc Hone Hcur Hbcur Hv1 Hbv1 Hcontent Hbc.
  destruct (auto_cloze_fields_fills model nid f fsrc f1 content (flds model) c w)
    as (w' & c' & E & Hfill & Hmark); eauto.
  exists w', c'. split; [done|]. split; [done|]. split; [done|].
  apply auto_cloze_fields_effects in E as (_ & _ & [[_ Hsame]|Hcol]).
  - rewrite Hsame, Hcur in Hfill. injection Hfill as ->.
    assert (blank ("((c1::" ++ content ++ "))") = false) as Hnb by by apply blank_cons.
    congruence.
  - rewrite Hcol. apply lookup_insert_eq.
Qed.

Lemma auto_cloze_fills_blank_cloze_field_witness :
  let model := {| flds := [ {| name := "Front"; ord := 0 |};
                            {| name := "FrontCloze"; ord := 1 |};
                            {| name := "FrontCloze1"; ord := 2 |} ];
                  tmpls := [] |} in
  let w := {| w_fields := ["bonjour"; " "; ""]; w_col := ∅; w_trace := [] |} in
  exists w' c',
    auto_cloze_fields model 7%Z (flds model) 0%N w = (w', Ok c')
    /\ w_fields w' !! 1%nat = Some "((c1::bonjour))"
    /\ w_fields w' !! 2%nat = Some "1"
    /\ w_col w' !! 7%Z = Some {| note_model := model; note_fields := w_fields w' |}.
Proof.
  intros model w.
  apply (auto_cloze_fills_blank_cloze_field model 7%Z 0%N w
           {| name := "FrontCloze"; ord := 1 |} {| name := "Front"; ord := 0 |}
           {| name := "FrontCloze1"; ord := 2 |} " " "" "bonjour").
  - apply (bool_decide_unpack _). vm_compute. exact I.
  - apply (bool_decide_unpack _). vm_compute. exact I.
  - apply (Forall_forall (fun f => ord f < 3)%nat). repeat constructor.
  - repeat constructor.
  - repeat constructor.
  - repeat constructor.
  - reflexivity.
  - reflexivity.
  - reflexivity.
  - reflexivity.
  - reflexivity.
  - reflexivity.
  - reflexivity.
  - reflexivity.
  - reflexivity.
Defined.

(** ** [create_missing] run again *)

(** On notes that are reconciled the loop over the selection writes
    nothing, flushes nothing and counts nothing. *)
Lemma create_missing_notes_settled nids c w :
  (forall nid, nid ∈ nids ->
     exists note, w_col w !! nid = Some note /\ note_in_range note /\ reconciled note) ->
  exists w', notes_loop create_missing_fields nids c w = (w', Ok c)
             /\ w_col w' = w_col w /\ w_trace w' = w_trace w.
Proof.
  revert w. induction nids as [|nid nids IH]; intros w Hsel; [by exists w|].
  destruct (Hsel nid (list_elem_of_here _ _)) as (n & Hn & Hrange & Hrec).
  simpl. unfold bind at 1, get_note. rewrite Hn. unfold bind at 1.
  rewrite create_missing_fields_settled.
  - apply (IH {| w_fields := note_fields n; w_col := w_col w; w_trace := w_trace w |}).
    intros nid' Hin. by apply Hsel, list_elem_of_further.
  - simpl. intros fb Hfb Hc.
    destruct (lookup_lt_is_Some_2 (note_fields n) (ord fb) (Hrange fb Hfb))
      as [content Hcontent].
    destruct (get_cloze_nums_total content) as [nums Hnums].
    exists content, nums. split; [done|]. split; [done|].
    intros fa g k Hfa Hg Hk.
    destruct (Hrec fb fa g k Hfb Hc Hfa Hg Hk) as (content' & nums' & H1 & H2 & H3).
    congruence.
Qed.

(** [create_missing] run a second time on the same selection, not empty
    and of notes with note types of distinct names and distinct ordinals
    inside the note, changes nothing in the collection, flushes nothing
    and reports no update: the host sees the checkpoint, the start of the
    reset, the notice for zero notes and the end of the reset. *)
Theorem create_missing_twice (nids : list Z) (w : world) :
  nids <> [] ->
  (forall nid, nid ∈ nids ->
     exists note, w_col w !! nid = Some note /\ well_formed note) ->
  exists w1 w2,
    create_missing nids w = (w1, Ok tt)
    /\ create_missing nids w1 = (w2, Ok tt)
    /\ w_col w2 = w_col w1
    /\ w_trace w2
       = (w_trace w1 ++ batch_start "Create Missing Cloze Cards" (length nids)
            ++ batch_end [])%list.
Proof.
  intros Hne Hsel. rewrite create_missing_unfold, batch_run by done.
  set (w0 := add_event (add_event w _) BeginReset).
  destruct (create_missing_notes_reconciles nids 0%N w0 Hsel) as (w1 & c & E & Hall).
  rewrite E.
  set (wA := add_event (add_event (if (c =? 0)%N then w1 else add_event w1 RequireReset) _)
               EndReset).
  assert (w_col wA = w_col w1) as HcolA by (subst wA; by destruct (c =? 0)%N).
  exists wA. rewrite create_missing_unfold, batch_run by done.
  set (wB := add_event (add_event wA _) BeginReset).
  destruct (create_missing_notes_settled nids 0%N wB) as (w2 & E2 & Hc2 & Ht2).
  { intros nid Hin. change (w_col wB) with (w_col wA). rewrite HcolA.
    destruct (Hall nid Hin) as (note' & Hn' & Hrec). exists note'. split; [done|].
    split; [|done].
    destruct (Hsel nid Hin) as (note & Hn & _ & _ & Hrange).
    apply create_missing_notes_effects in E as (_ & _ & Hr).
    destruct (Hr nid note Hn) as (note'' & Hn'' & Hm & Hl & _).
    assert (note'' = note') as -> by congruence.
    unfold note_in_range. rewrite Hm, Hl. exact Hrange. }
  rewrite E2. eexists. split; [reflexivity|]. split; [reflexivity|].
  split; [exact Hc2|]. simpl. rewrite Ht2. simpl.
  by rewrite <- !List.app_assoc.
Qed.

Lemma create_missing_twice_witness :
  let model := {| flds := [ {| name := "FrontCloze"; ord := 0 |};
                            {| name := "FrontCloze1"; ord := 1 |};
                            {| name := "FrontCloze2"; ord := 2 |} ];
                  tmpls := [] |} in
  let w := {| w_fields := [];
              w_col := {[ 7%Z := {| note_model := model;
                                    note_fields := ["((c2::x))"; "1"; "stale"] |} ]};
              w_trace := [] |} in
  exists w1 w2,
    create_missing [7%Z] w = (w1, Ok tt)
    /\ create_missing [7%Z] w1 = (w2, Ok tt)
    /\ w_col w2 = w_col w1
    /\ w_trace w2
       = (w_trace w1 ++ batch_start "Create Missing Cloze Cards" 1 ++ batch_end [])%list.
Proof.
  intros model w. apply (create_missing_twice [7%Z] w); [discriminate|].
  intros nid Hin. apply list_elem_of_singleton in Hin as ->.
  exists {| note_model := model; note_fields := ["((c2::x))"; "1"; "stale"] |}.
  split; [by vm_compute|]. split; [|split].
  - apply (bool_decide_unpack _). vm_compute. exact I.
  - apply (bool_decide_unpack _). vm_compute. exact I.
  - unfold note_in_range.
    apply (Forall_forall (fun f => ord f < 3)%nat). repeat constructor.
Defined.

(** ** The scanner, marker by marker *)

Lemma lit_not_close c s : not_close_paren c = true -> Re.lit "))" (String c s) = [].
Proof.
  intros Hc. destruct c as [[] [] [] [] [] [] [] []]; try discriminate Hc; reflexivity.
Qed.

Lemma lazy_payload_head (d p post : string) :
  p <> "" -> Str.all Str.is_dot p = true -> Str.all not_close_paren p = true ->
  head (Re.plus_lazy Str.is_dot (p ++ "))" ++ post)
          ≫= fun s4 : string * string => Re.lit "))" s4.2 ≫= fun s5 : string * string => [(d, s5.2)])
  = Some (d, post).
Proof.
  induction p as [|c p IH]; [done|]. intros _ [Hc Hp]%andb_true_iff [_ Hq]%andb_true_iff.
  rewrite sapp_cons, plus_lazy_cons, bind_cons by done.
  destruct p as [|c' p'].
  - rewrite sapp_nil_l. cbn [snd]. by rewrite lit_app.
  - cbn [snd]. rewrite sapp_cons, lit_not_close by (by apply andb_true_iff in Hq as [? _]).
    rewrite <- sapp_cons.
    rewrite (bind_map_snd c (fun r => Re.lit "))" r ≫= fun s5 : string * string => [(d, s5.2)])).
    by apply IH.
Qed.

Lemma cloze_re_marker d p post :
  d <> "" -> Str.all Str.is_digit d = true ->
  p <> "" -> Str.all Str.is_dot p = true -> Str.all not_close_paren p = true ->
  head (cloze_re ("((c" ++ d ++ "::" ++ p ++ "))" ++ post)) = Some (d, post).
Proof.
  intros Hd1 Hd2 Hp1 Hp2 Hp3. unfold cloze_re. rewrite lit_app. simpl mbind.
  destruct (plus_greedy_head Str.is_digit d ("::" ++ p ++ "))" ++ post)) as [tl ->];
    [done..|].
  simpl. rewrite ?List.app_nil_r, sapp_nil_l.
  pose proof (lazy_payload_head d p post Hp1 Hp2 Hp3) as H.
  destruct (Re.plus_lazy _ _ ≫= _) as [|x L]; [done|]. exact H.
Qed.

Lemma findall_marker d p post :
  d <> "" -> Str.all Str.is_digit d = true ->
  p <> "" -> Str.all Str.is_dot p = true -> Str.all not_close_paren p = true ->
  findall ("((c" ++ d ++ "::" ++ p ++ "))" ++ post) = d :: findall post.
Proof.
  intros Hd1 Hd2 Hp1 Hp2 Hp3.
  pose proof (cloze_re_marker d p post Hd1 Hd2 Hp1 Hp2 Hp3) as H.
  unfold findall.
  change ("((c" ++ d ++ "::" ++ p ++ "))" ++ post)
    with (String "(" ("(c" ++ d ++ "::" ++ p ++ "))" ++ post)) in *.
  cbn [findall_from]. rewrite H. f_equal.
  replace (String.length (String "(" ("(c" ++ d ++ "::" ++ p ++ "))" ++ post))
           - String.length post - 1)%nat
    with (String.length ("(c" ++ d ++ "::" ++ p ++ "))")).
  - rewrite <- (findall_from_skip ("(c" ++ d ++ "::" ++ p ++ "))") post).
    by rewrite !sapp_assoc.
  - change (String "(" ("(c" ++ d ++ "::" ++ p ++ "))" ++ post))
      with ("((c" ++ d ++ "::" ++ p ++ "))" ++ post).
    rewrite !slength_app. simpl. lia.
Qed.

(** After text without an opening parenthesis, a marker whose payload is
    not empty and holds neither a line feed nor a closing parenthesis is
    scanned as one match, and the scan resumes right after it: the result
    is the identifier of the marker added to what the rest of the text
    gives. *)
Theorem get_cloze_nums_marker_then_rest (pre : string) (n : N) (p post : string) :
  Str.all not_open_paren pre = true ->
  p <> "" -> Str.all Str.is_dot p = true -> Str.all not_close_paren p = true ->
  exists nums : gset N,
    get_cloze_nums post = Ok nums
    /\ get_cloze_nums (pre ++ wrapped n p ++ post) = Ok ({[n]} ∪ nums).
Proof.
  intros Hpre Hp1 Hp2 Hp3. destruct (get_cloze_nums_total post) as [nums Hnums].
  exists nums. split; [done|]. rewrite get_cloze_nums_int_set in *.
  rewrite findall_skip_prefix by done. unfold wrapped. rewrite !sapp_assoc.
  rewrite findall_marker by (done || apply of_N_nonempty || apply of_N_digits).
  cbn [int_set]. rewrite int_of_N. cbn [rbind]. by rewrite Hnums.
Qed.

Lemma get_cloze_nums_marker_then_rest_witness :
  exists nums : gset N,
    get_cloze_nums " ((c1::hungry))" = Ok nums
    /\ get_cloze_nums ("I " ++ wrapped 2 "am" ++ " ((c1::hungry))") = Ok ({[2%N]} ∪ nums).
Proof.
  apply (get_cloze_nums_marker_then_rest "I " 2 "am" " ((c1::hungry))");
    [reflexivity|discriminate|reflexivity|reflexivity].
Defined.

(** ** The flushes of the batch operations, counted *)

Lemma fillable_unfold model (fs : list string) f :
  fillable model fs f
  = Str.endswith (name f) "Cloze"
    && match fs !! ord f with Some cur => blank cur | None => false end
    && match find_ord (flds model) (Str.drop_last 5 (name f)),
             find_ord (flds model) (name f ++ "1") with
       | Some _, Some o1 => match fs !! o1 with Some v1 => blank v1 | None => false end
       | _, _ => false
       end.
Proof. reflexivity. Qed.

Lemma needs_repair_unfold model (fs : list string) fb :
  needs_repair model fs fb
  = Str.endswith (name fb) "Cloze"
    && match fs !! ord fb with
       | Some content =>
           match get_cloze_nums content with
           | Ok nums => existsb (stale fs nums (name fb)) (flds model)
           | Raise _ => false
           end
       | None => false
       end.
Proof. reflexivity. Qed.

Lemma count_fields_cons p f fl :
  count_fields p (f :: fl) = if p f then S (count_fields p fl) else count_fields p fl.
Proof. unfold count_fields. simpl. by destruct (p f). Qed.

Lemma count_fields_ext p q (fl : list field) :
  (forall f, f ∈ fl -> p f = q f) -> count_fields p fl = count_fields q fl.
Proof.
  induction fl as [|f fl IH]; [done|]. intros H.
  rewrite !count_fields_cons, (H f (list_elem_of_here _ _)), IH; [done|].
  intros f0 Hf0. by apply H, list_elem_of_further.
Qed.

Lemma existsb_ext_elem {A} (p q : A -> bool) (l : list A) :
  (forall x, x ∈ l -> p x = q x) -> existsb p l = existsb q l.
Proof.
  induction l as [|x l IH]; [done|]. intros H. simpl.
  rewrite (H x (list_elem_of_here _ _)), IH; [done|].
  intros y Hy. by apply H, list_elem_of_further.
Qed.

Lemma flushes_of_cons count (col : gmap Z note_t) nid nids n :
  col !! nid = Some n ->
  flushes_of count col (nid :: nids)
  = (replicate (count n) nid ++ flushes_of count col nids)%list.
Proof. intros H. unfold flushes_of. by rewrite bind_cons, H. Qed.

Lemma flushes_of_ext count (col1 col2 : gmap Z note_t) nids :
  (forall nid, nid ∈ nids -> col1 !! nid = col2 !! nid) ->
  flushes_of count col1 nids = flushes_of count col2 nids.
Proof.
  induction nids as [|nid nids IH]; [done|]. intros H. unfold flushes_of.
  rewrite !bind_cons, (H nid (list_elem_of_here _ _)). f_equal.
  apply IH. intros nid' Hin. by apply H, list_elem_of_further.
Qed.

Section NotesCount.

Variable body : model_t -> Z -> list field -> N -> M N.
Variable count : note_t -> nat.

(** On a well-formed note the loop over the fields flushes the note a
    number of times that the note as loaded determines. *)
Hypothesis body_count : forall n nid c w,
  well_formed n -> w_fields w = note_fields n ->
  exists w',
    body (note_model n) nid (flds (note_model n)) c w
    = (w', Ok (c + N.of_nat (count n))%N)
    /\ w_trace w' = (w_trace w ++ replicate (count n) (Flush nid))%list
    /\ forall nid', nid' <> nid -> w_col w' !! nid' = w_col w !! nid'.

Lemma notes_loop_count nids c w :
  NoDup nids ->
  (forall nid, nid ∈ nids -> exists n, w_col w !! nid = Some n /\ well_formed n) ->
  exists w',
    notes_loop body nids c w
    = (w', Ok (c + N.of_nat (length (flushes_of count (w_col w) nids)))%N)
    /\ w_trace w' = (w_trace w ++ (Flush <$> flushes_of count (w_col w) nids))%list.
Proof.
  revert c w. induction nids as [|nid nids IH]; intros c w Hnd Hsel.
  - exists w. split; [|by rewrite List.app_nil_r]. simpl. unfold ret. do 2 f_equal. lia.
  - apply NoDup_cons in Hnd as [Hnotin Hnd].
    destruct (Hsel nid (list_elem_of_here _ _)) as (n & Hn & Hwf).
    rewrite (flushes_of_cons count _ nid nids n Hn).
    cbn [notes_loop]. unfold bind at 1, get_note. rewrite Hn. unfold bind at 1.
    destruct (body_count n nid c
                {| w_fields := note_fields n; w_col := w_col w; w_trace := w_trace w |}
                Hwf eq_refl) as (w2 & E & Ht & Hcol).
    rewrite E. simpl in Ht, Hcol.
    assert (forall nid', nid' ∈ nids -> w_col w2 !! nid' = w_col w !! nid') as Hsame.
    { intros nid' Hin. apply Hcol. intros ->. done. }
    destruct (IH (c + N.of_nat (count n))%N w2 Hnd) as (w' & E' & Ht').
    { intros nid' Hin. rewrite (Hsame nid' Hin). by apply Hsel, list_elem_of_further. }
    rewrite (flushes_of_ext count (w_col w2) (w_col w) nids Hsame) in E', Ht'.
    exists w'. split.
    + rewrite E'. do 2 f_equal. rewrite length_app, length_replicate. lia.
    + by rewrite Ht', Ht, fmap_app, fmap_replicate, <- List.app_assoc.
Qed.

Lemma batch_count title nids w :
  nids <> [] -> NoDup nids ->
  (forall nid, nid ∈ nids -> exists n, w_col w !! nid = Some n /\ well_formed n) ->
  exists w',
    batch title (notes_loop body) nids w = (w', Ok tt)
    /\ w_trace w'
       = (w_trace w ++ batch_start title (length nids)
            ++ (Flush <$> flushes_of count (w_col w) nids)
            ++ batch_end (flushes_of count (w_col w) nids))%list.
Proof.
  intros Hne Hnd Hsel. rewrite batch_run by done.
  edestruct (notes_loop_count nids 0%N) as (w1 & -> & Ht); [exact Hnd|exact Hsel|].
  simpl in Ht. eexists. split; [reflexivity|].
  rewrite N.add_0_l. unfold batch_start, batch_end.
  change (w_col (add_event (add_event w
                   (Checkpoint (checkpoint_message title (length nids)))) BeginReset))
    with (w_col w).
  destruct (flushes_of count (w_col w) nids) as [|x fl]; simpl; rewrite Ht; simpl;
    rewrite <- ?List.app_assoc; simpl; rewrite ?List.app_nil_r; [done|].
  by rewrite <- ?List.app_assoc.
Qed.

End NotesCount.

(** A fill leaves the other cloze fields as fillable as they were. *)
Lemma fillable_insert model (fs : list string) f0 g1 v v' f :
  NoDup (name <$> flds model) -> NoDup (ord <$> flds model) ->
  f0 ∈ flds model -> g1 ∈ flds model -> f ∈ flds model ->
  Str.endswith (name f0) "Cloze" = true -> name g1 = name f0 ++ "1" ->
  name f <> name f0 ->
  fillable model (<[ord g1 := v']> (<[ord f0 := v]> fs)) f = fillable model fs f.
Proof.
  intros Hnames Hords Hf0 Hg1 Hf Hc0 Hg1n Hnm. unfold fillable.
  destruct (Str.endswith (name f) "Cloze") eqn:Hc; [|done].
  assert (ord f0 <> ord f) as Hn1.
  { intros Heq. apply Hnm. f_equal. symmetry. by eapply ord_inj. }
  assert (ord g1 <> ord f) as Hn2.
  { intros Heq. assert (g1 = f) as Hgf by by eapply ord_inj.
    rewrite Hgf in Hg1n. by rewrite Hg1n, endswith_one in Hc. }
  rewrite !list_lookup_insert_ne by done.
  destruct (find_ord (flds model) (Str.drop_last 5 (name f))) as [o|]; [|done].
  destruct (find_ord (flds model) (name f ++ "1")) as [o1|] eqn:Ho1; [|done].
  apply find_ord_elem in Ho1 as (f1 & Hf1 & Hf1n & <-).
  assert (ord f0 <> ord f1) as Hn3.
  { intros Heq. assert (f0 = f1) as Hff by by eapply ord_inj.
    rewrite Hff, Hf1n in Hc0. by rewrite endswith_one in Hc0. }
  assert (ord g1 <> ord f1) as Hn4.
  { intros Heq. assert (g1 = f1) as Hgf by by eapply ord_inj.
    rewrite Hgf, Hf1n in Hg1n. apply Hnm.
    change "1" with (String "1" "") in Hg1n. by apply app_last_inj in Hg1n as [-> _]. }
  by rewrite !list_lookup_insert_ne.
Qed.

(** The loop of [auto_cloze] over the fields of a well-formed note flushes
    it once for each field that is fillable in the note as loaded. *)
Lemma auto_cloze_fields_count model nid rest c w :
  NoDup (name <$> flds model) -> NoDup (ord <$> flds model) ->
  (forall f, f ∈ flds model -> (ord f < length (w_fields w))%nat) ->
  (forall f, f ∈ rest -> f ∈ flds model) ->
  NoDup (name <$> rest) ->
  exists w',
    auto_cloze_fields model nid rest c w
    = (w', Ok (c + N.of_nat (count_fields (fillable model (w_fields w)) rest))%N)
    /\ w_trace w'
       = (w_trace w
            ++ replicate (count_fields (fillable model (w_fields w)) rest) (Flush nid))%list.
Proof.
  intros Hnames Hords. revert c w.
  induction rest as [|f0 rest IH]; intros c w Hr Hsub Hnd.
  { exists w. split; [|by rewrite List.app_nil_r]. simpl. unfold ret. do 2 f_equal.
    unfold count_fields. simpl. lia. }
  rewrite fmap_cons in Hnd. apply NoDup_cons in Hnd as [Hfresh Hnd].
  assert (forall f', f' ∈ rest -> f' ∈ flds model) as Hsub'.
  { intros f' Hf'. by apply Hsub, list_elem_of_further. }
  assert (f0 ∈ flds model) as Hf0 by apply Hsub, list_elem_of_here.
  rewrite auto_cloze_fields_step, count_fields_cons, fillable_unfold. cbv zeta.
  destruct (Str.endswith (name f0) "Cloze") eqn:Hc0; [|cbn [andb]; by apply IH].
  destruct (lookup_lt_is_Some_2 (w_fields w) (ord f0) (Hr f0 Hf0)) as [cur0 Hcur0].
  rewrite Hcur0. destruct (blank cur0) eqn:Hb0; [|cbn [andb]; by apply IH].
  destruct (find_ord (flds model) (Str.drop_last 5 (name f0))) as [o|] eqn:Ho;
    [|cbn [andb]; by apply IH].
  destruct (find_ord (flds model) (name f0 ++ "1")) as [o1|] eqn:Ho1; [|cbn [andb]; by apply IH].
  apply find_ord_elem in Ho as (g & Hg & _ & <-).
  apply find_ord_elem in Ho1 as (g1 & Hg1 & Hg1n & <-).
  destruct (lookup_lt_is_Some_2 (w_fields w) (ord g1) (Hr g1 Hg1)) as [v1 Hv1].
  rewrite Hv1. destruct (blank v1) eqn:Hb1; [|cbn [andb]; by apply IH].
  destruct (lookup_lt_is_Some_2 (w_fields w) (ord g) (Hr g Hg)) as [content Hcontent].
  rewrite Hcontent. cbn [andb].
  set (w2 := flushed nid model
               (set_field (set_field w (ord f0) ("((c1::" ++ content ++ "))"))
                  (ord g1) "1")).
  destruct (IH (c + 1)%N w2) as (w' & E & Ht); [|exact Hsub'|exact Hnd|].
  { intros f' Hf'. subst w2. simpl. rewrite !length_insert. by apply Hr. }
  change (w_fields w2)
    with (<[ord g1 := "1"]> (<[ord f0 := "((c1::" ++ content ++ "))"]> (w_fields w)))
    in E, Ht.
  change (w_trace w2) with (w_trace w ++ [Flush nid])%list in Ht.
  assert (forall f, f ∈ rest ->
            fillable model
              (<[ord g1 := "1"]> (<[ord f0 := "((c1::" ++ content ++ "))"]> (w_fields w))) f
            = fillable model (w_fields w) f) as Hinv.
  { intros f Hf. apply fillable_insert; try done; [by apply Hsub'|].
    intros Heq. apply Hfresh. rewrite <- Heq. apply list_elem_of_fmap. eauto. }
  rewrite (count_fields_ext _ _ rest Hinv) in E, Ht.
  exists w'. split.
  - rewrite E. do 2 f_equal. lia.
  - rewrite Ht, <- List.app_assoc. done.
Qed.

Lemma auto_cloze_body_count n nid c w :
  well_formed n -> w_fields w = note_fields n ->
  exists w',
    auto_cloze_fields (note_model n) nid (flds (note_model n)) c w
    = (w', Ok (c + N.of_nat (fill_count n))%N)
    /\ w_trace w' = (w_trace w ++ replicate (fill_count n) (Flush nid))%list
    /\ forall nid', nid' <> nid -> w_col w' !! nid' = w_col w !! nid'.
Proof.
  intros (Hnames & Hords & Hrange) Hf.
  destruct (auto_cloze_fields_count (note_model n) nid (flds (note_model n)) c w)
    as (w' & E & Ht); [done|done|by rewrite Hf|done|done|].
  rewrite Hf in E, Ht. exists w'. split; [exact E|]. split; [exact Ht|].
  intros nid' Hne.
  apply auto_cloze_fields_body in E as [_ [->|(fs & -> & _)]]; [done|].
  by rewrite lookup_insert_ne.
Qed.

(** The inner loop of [create_missing] reports an update exactly when a
    numbered field is stale. *)
Lemma create_missing_loop_reports nums base fl updated w w' u :
  create_missing_loop nums base fl updated w = (w', Ok u) ->
  u = updated || existsb (stale (w_fields w) nums base) fl.
Proof.
  revert updated w. induction fl as [|f fl IH]; intros updated w.
  - intros [= <- <-]. by rewrite orb_false_r.
  - rewrite create_missing_loop_step. simpl existsb. unfold stale at 1.
    destruct (cloze_field_regex base (name f)) as [g|]; [|by apply IH].
    destruct (Str.int_of_digits g) as [n0|e]; [|discriminate].
    destruct (w_fields w !! ord f) as [cur|]; [|discriminate].
    destruct (negb (String.eqb cur (force_content nums n0))); [|by apply IH].
    intros [Hu _]%create_missing_loop_updated. rewrite (Hu eq_refl).
    by rewrite orb_true_r.
Qed.

(** Repairing the numbered fields of one cloze field leaves the other
    cloze fields as much in need of repair as they were. *)
Lemma needs_repair_frame model (fs fs' : list string) f0 fb :
  NoDup (ord <$> flds model) ->
  f0 ∈ flds model -> fb ∈ flds model ->
  Str.endswith (name f0) "Cloze" = true -> name fb <> name f0 ->
  (forall i, (forall fa, fa ∈ flds model ->
                cloze_field_regex (name f0) (name fa) <> None -> ord fa <> i) ->
     fs' !! i = fs !! i) ->
  needs_repair model fs' fb = needs_repair model fs fb.
Proof.
  intros Hords Hf0 Hfb Hc0 Hnm Hframe. unfold needs_repair.
  destruct (Str.endswith (name fb) "Cloze") eqn:Hc; [|done]. cbn [andb].
  rewrite (Hframe (ord fb)).
  2:{ intros fa Hfa Hg Heq. assert (fa = fb) as -> by by eapply ord_inj.
      by rewrite cloze_name_not_numbered in Hg. }
  destruct (fs !! ord fb) as [content|]; [|done].
  destruct (get_cloze_nums content) as [nums|e]; [|done].
  apply existsb_ext_elem. intros fa Hfa. unfold stale.
  destruct (cloze_field_regex (name fb) (name fa)) as [g|] eqn:Hg; [|done].
  rewrite (Hframe (ord fa)); [done|].
  intros fa' Hfa' Hg' Heq. assert (fa' = fa) as -> by by eapply ord_inj.
  destruct (cloze_field_regex (name f0) (name fa)) as [g0|] eqn:Hg0; [|done].
  apply Hnm. symmetry. by eapply numbered_base_unique.
Qed.

(** The loop of [create_missing] over the fields of a well-formed note
    flushes it once for each cloze field that has a numbered field to
    repair in the note as loaded. *)
Lemma create_missing_fields_count model nid rest c w :
  NoDup (ord <$> flds model) ->
  (forall f, f ∈ flds model -> (ord f < length (w_fields w))%nat) ->
  (forall f, f ∈ rest -> f ∈ flds model) ->
  NoDup (name <$> rest) ->
  exists w',
    create_missing_fields model nid rest c w
    = (w', Ok (c + N.of_nat (count_fields (needs_repair model (w_fields w)) rest))%N)
    /\ w_trace w'
       = (w_trace w
            ++ replicate (count_fields (needs_repair model (w_fields w)) rest)
                 (Flush nid))%list.
Proof.
  intros Hords. revert c w.
  induction rest as [|f0 rest IH]; intros c w Hr Hsub Hnd.
  { exists w. split; [|by rewrite List.app_nil_r]. simpl. unfold ret. do 2 f_equal.
    unfold count_fields. simpl. lia. }
  rewrite fmap_cons in Hnd. apply NoDup_cons in Hnd as [Hfresh Hnd].
  assert (forall f', f' ∈ rest -> f' ∈ flds model) as Hsub'.
  { intros f' Hf'. by apply Hsub, list_elem_of_further. }
  assert (f0 ∈ flds model) as Hf0 by apply Hsub, list_elem_of_here.
  rewrite create_missing_fields_step, count_fields_cons, needs_repair_unfold.
  destruct (Str.endswith (name f0) "Cloze") eqn:Hc0; [|cbn [andb]; by apply IH].
  destruct (lookup_lt_is_Some_2 (w_fields w) (ord f0) (Hr f0 Hf0)) as [content Hcontent].
  rewrite Hcontent. destruct (get_cloze_nums_total content) as [nums Hnums].
  rewrite Hnums. cbn [andb].
  destruct (create_missing_loop_ok nums (name f0) (flds model) false w Hr)
    as (w1 & u & E1 & Ht1 & _ & Hlen1).
  rewrite E1. pose proof (create_missing_loop_reports _ _ _ _ _ _ _ E1) as Hu.
  cbn [orb] in Hu. rewrite <- Hu.
  assert (forall f, f ∈ rest ->
            needs_repair model (w_fields w1) f = needs_repair model (w_fields w) f)
    as Hinv.
  { intros f Hf. apply (needs_repair_frame model _ _ f0 f); try done; [by apply Hsub'| |].
    - intros Heq. apply Hfresh. rewrite <- Heq. apply list_elem_of_fmap. eauto.
    - intros i Hi. by eapply create_missing_loop_frame. }
  destruct u.
  - destruct (IH (c + 1)%N (flushed nid model w1)) as (w' & E & Ht);
      [|exact Hsub'|exact Hnd|].
    { intros f' Hf'. simpl. rewrite Hlen1. by apply Hr. }
    change (w_fields (flushed nid model w1)) with (w_fields w1) in E, Ht.
    change (w_trace (flushed nid model w1)) with (w_trace w1 ++ [Flush nid])%list in Ht.
    rewrite (count_fields_ext _ _ rest Hinv) in E, Ht.
    exists w'. split.
    + rewrite E. do 2 f_equal. lia.
    + rewrite Ht, Ht1, <- List.app_assoc. done.
  - destruct (IH c w1) as (w' & E & Ht); [|exact Hsub'|exact Hnd|].
    { intros f' Hf'. rewrite Hlen1. by apply Hr. }
    rewrite (count_fields_ext _ _ rest Hinv) in E, Ht.
    exists w'. split; [exact E|]. by rewrite Ht, Ht1.
Qed.

Lemma create_missing_body_count n nid c w :
  well_formed n -> w_fields w = note_fields n ->
  exists w',
    create_missing_fields (note_model n) nid (flds (note_model n)) c w
    = (w', Ok (c + N.of_nat (repair_count n))%N)
    /\ w_trace w' = (w_trace w ++ replicate (repair_count n) (Flush nid))%list
    /\ forall nid', nid' <> nid -> w_col w' !! nid' = w_col w !! nid'.
Proof.
  intros (Hnames & Hords & Hrange) Hf.
  destruct (create_missing_fields_count (note_model n) nid (flds (note_model n)) c w)
    as (w' & E & Ht); [done|by rewrite Hf|done|done|].
  rewrite Hf in E, Ht. exists w'. split; [exact E|]. split; [exact Ht|].
  intros nid' Hne.
  apply create_missing_fields_body in E as [_ [->|(fs & -> & _)]]; [done|].
  by rewrite lookup_insert_ne.
Qed.

(** [auto_cloze] on a selection that is not empty, of distinct notes of
    the collection with note types of distinct names and distinct ordinals
    inside the note, returns, and the host sees: the undo checkpoint with
    the size of the selection, the start of the reset, then for each
    selected note in turn one flush for each of its fields that is
    fillable as the collection has it, the request of a reset when
    something was flushed, the notice with the number of flushes, the end
    of the reset. *)
Theorem auto_cloze_protocol (nids : list Z) (w : world) :
  nids <> [] -> NoDup nids ->
  (forall nid, nid ∈ nids ->
     exists note, w_col w !! nid = Some note /\ well_formed note) ->
  exists w',
    auto_cloze nids w = (w', Ok tt)
    /\ w_trace w'
       = (w_trace w ++ batch_start "Auto-cloze" (length nids)
            ++ (Flush <$> flushes_of fill_count (w_col w) nids)
            ++ batch_end (flushes_of fill_count (w_col w) nids))%list.
Proof.
  intros Hne Hnd Hsel. rewrite auto_cloze_unfold.
  by apply (batch_count auto_cloze_fields fill_count auto_cloze_body_count).
Qed.

Lemma auto_cloze_protocol_witness :
  let model := {| flds := [ {| name := "Front"; ord := 0 |};
                            {| name := "FrontCloze"; ord := 1 |};
                            {| name := "FrontCloze1"; ord := 2 |};
                            {| name := "Back"; ord := 3 |};
                            {| name := "BackCloze"; ord := 4 |};
                            {| name := "BackCloze1"; ord := 5 |} ];
                  tmpls := [] |} in
  let n7 := {| note_model := model;
               note_fields := ["bonjour"; ""; ""; "hello"; " "; ""] |} in
  let n8 := {| note_model := model;
               note_fields := ["a"; "((c1::a))"; "1"; "b"; ""; "1"] |} in
  let w := {| w_fields := []; w_col := {[ 7%Z := n7; 8%Z := n8 ]}; w_trace := [] |} in
  flushes_of fill_count (w_col w) [7%Z; 8%Z] = [7%Z; 7%Z]
  /\ exists w',
       auto_cloze [7%Z; 8%Z] w = (w', Ok tt)
       /\ w_trace w'
          = (w_trace w ++ batch_start "Auto-cloze" 2
               ++ (Flush <$> flushes_of fill_count (w_col w) [7%Z; 8%Z])
               ++ batch_end (flushes_of fill_count (w_col w) [7%Z; 8%Z]))%list.
Proof.
  intros model n7 n8 w. split; [by vm_compute|].
  apply (auto_cloze_protocol [7%Z; 8%Z] w); [discriminate| |].
  - apply (bool_decide_unpack _). vm_compute. exact I.
  - assert (forall fs, length fs = 6%nat ->
              well_formed {| note_model := model; note_fields := fs |}) as Hwf.
    { intros fs Hlen. split; [|split].
      - apply (bool_decide_unpack _). vm_compute. exact I.
      - apply (bool_decide_unpack _). vm_compute. exact I.
      - unfold note_in_range. simpl note_fields. rewrite Hlen.
        apply (Forall_forall (fun f => ord f < 6)%nat). repeat constructor. }
    intros nid Hin.
    apply elem_of_cons in Hin as [->|Hin]; [exists n7; split; [by vm_compute|by apply Hwf]|].
    apply list_elem_of_singleton in Hin as ->.
    exists n8. split; [by vm_compute|by apply Hwf].
Defined.

(** [create_missing] on a selection that is not empty, of distinct notes
    of the collection with note types of distinct names and distinct
    ordinals inside the note, returns, and the host sees: the undo
    checkpoint with the size of the selection, the start of the reset,
    then for each selected note in turn one flush for each of its cloze
    fields that has a numbered field to repair as the collection has it,
    the request of a reset when something was flushed, the notice with the
    number of flushes, the end of the reset. *)
Theorem create_missing_protocol (nids : list Z) (w : world) :
  nids <> [] -> NoDup nids ->
  (forall nid, nid ∈ nids ->
     exists note, w_col w !! nid = Some note /\ well_formed note) ->
  exists w',
    create_missing nids w = (w', Ok tt)
    /\ w_trace w'
       = (w_trace w ++ batch_start "Create Missing Cloze Cards" (length nids)
            ++ (Flush <$> flushes_of repair_count (w_col w) nids)
            ++ batch_end (flushes_of repair_count (w_col w) nids))%list.
Proof.
  intros Hne Hnd Hsel. rewrite create_missing_unfold.
  by apply (batch_count create_missing_fields repair_count create_missing_body_count).
Qed.

Lemma create_missing_protocol_witness :
  let model := {| flds := [ {| name := "FrontCloze"; ord := 0 |};
                            {| name := "FrontCloze1"; ord := 1 |};
                            {| name := "FrontCloze2"; ord := 2 |};
                            {| name := "BackCloze"; ord := 3 |};
                            {| name := "BackCloze1"; ord := 4 |} ];
                  tmpls := [] |} in
  let n7 := {| note_model := model;
               note_fields := ["((c2::x))"; "1"; ""; "((c1::y))"; "1"] |} in
  let n8 := {| note_model := model;
               note_fields := ["((c1::x))"; ""; "stale"; "((c1::y))"; ""] |} in
  let w := {| w_fields := []; w_col := {[ 7%Z := n7; 8%Z := n8 ]}; w_trace := [] |} in
  flushes_of repair_count (w_col w) [8%Z; 7%Z] = [8%Z; 8%Z; 7%Z]
  /\ exists w',
       create_missing [8%Z; 7%Z] w = (w', Ok tt)
       /\ w_trace w'
          = (w_trace w ++ batch_start "Create Missing Cloze Cards" 2
               ++ (Flush <$> flushes_of repair_count (w_col w) [8%Z; 7%Z])
               ++ batch_end (flushes_of repair_count (w_col w) [8%Z; 7%Z]))%list.
Proof.
  intros model n7 n8 w. split; [by vm_compute|].
  apply (create_missing_protocol [8%Z; 7%Z] w); [discriminate| |].
  - apply (bool_decide_unpack _). vm_compute. exact I.
  - assert (forall fs, length fs = 5%nat ->
              well_formed {| note_model := model; note_fields := fs |}) as Hwf.
    { intros fs Hlen. split; [|split].
      - apply (bool_decide_unpack _). vm_compute. exact I.
      - apply (bool_decide_unpack _). vm_compute. exact I.
      - unfold note_in_range. simpl note_fields. rewrite Hlen.
        apply (Forall_forall (fun f => ord f < 5)%nat). repeat constructor. }
    intros nid Hin.
    apply elem_of_cons in Hin as [->|Hin]; [exists n8; split; [by vm_compute|by apply Hwf]|].
    apply list_elem_of_singleton in Hin as ->.
    exists n7. split; [by vm_compute|by apply Hwf].
Defined.
